(** * redist.py: the release-to-wheel pipeline of python-buf-exe

    A shallow embedding of [redist.py]: the platform mapper, the release
    records, the paginated release fetcher, and the [download], [build],
    [assemble] and [verify] commands over an explicit file system.  The
    definitions come first, the theorems about them second. *)

From Stdlib Require Import ZArith Ascii String List Lia.
From Stdlib.Strings Require Import Byte.
From stdpp Require Import base decidable option list list_numbers strings gmap.

Local Open Scope Z_scope.
Set Default Proof Using "Type".

(** * Part I: the program *)

(** ** Python string methods *)

Module PyStr.

(** [s.startswith(p)] *)
Definition startswith (s p : string) : bool := String.prefix p s.

(** [s[n:]] *)
Definition drop (n : nat) (s : string) : string :=
  String.substring n (String.length s - n) s.

(** [s[:n]] *)
Definition take (n : nat) (s : string) : string := String.substring 0 n s.

(** [s.endswith(p)] *)
Definition endswith (s p : string) : bool :=
  (String.length p <=? String.length s)%nat
  && String.eqb (drop (String.length s - String.length p) s) p.

(** [s.removeprefix(p)] *)
Definition removeprefix (s p : string) : string :=
  if startswith s p then drop (String.length p) s else s.

(** [s.removesuffix(p)]: an empty suffix removes nothing. *)
Definition removesuffix (s p : string) : string :=
  if negb (String.eqb p "") && endswith s p
  then take (String.length s - String.length p) s
  else s.

(** [c in s] for a single character. *)
Fixpoint contains (c : ascii) (s : string) : bool :=
  match s with
  | EmptyString => false
  | String a s' => if Ascii.eqb a c then true else contains c s'
  end.

(** [s.split("/")], components accumulated in [cur] (reversed). *)
Fixpoint split_slash (cur : string) (s : string) : list string :=
  match s with
  | EmptyString => [String.rev cur]
  | String a s' =>
      if Ascii.eqb a "/"%char
      then String.rev cur :: split_slash EmptyString s'
      else split_slash (String a cur) s'
  end.

End PyStr.

(** ** Configuration constants *)

Definition EXE_NAME : string := "buf".
Definition PRJ_NAME : string := EXE_NAME +:+ "-exe".
Definition ORIGIN : string := "fleshgrinder/python-" +:+ PRJ_NAME.
Definition ORIGIN_URL : string := "https://github.com/" +:+ ORIGIN.
Definition UPSTREAM : string := "bufbuild/buf".
Definition UPSTREAM_URL : string := "https://github.com/" +:+ UPSTREAM.
Definition WHL_NAME : string := "buf_exe".

(** A header value of the metadata dicts: a string, or a list of strings
    for a repeated header. *)
Inductive hval :=
| HStr (s : string)
| HList (l : list string).

(** A Python dict keeps its keys in insertion order; assigning to a key
    that is present keeps the key's place. *)
Definition pydict := list (string * hval).

Fixpoint dict_set (d : pydict) (k : string) (v : hval) : pydict :=
  match d with
  | [] => [(k, v)]
  | (k', v') :: d' =>
      if decide (k' = k) then (k, v) :: d' else (k', v') :: dict_set d' k v
  end.

Definition PYPI_METADATA : pydict :=
  [ ("Metadata-Version", HStr "2.1");
    ("Name", HStr PRJ_NAME);
    ("Summary", HStr "PyPI packaged Buf CLI");
    ("Description-Content-Type", HStr "text/markdown");
    ("Author", HStr "Buf Technologies");
    ("Maintainer", HStr "Fleshgrinder");
    ("Maintainer-email", HStr "pypi@fleshgrinder.com");
    ("Home-page", HStr ORIGIN_URL);
    ("License-File", HStr "LICENSE");
    ("License", HStr "Apache-2.0");
    ("Classifier", HList
       [ "Topic :: Software Development :: Code Generators";
         "Topic :: Software Development :: Quality Assurance";
         "Topic :: Text Processing :: Markup";
         "Topic :: Utilities";
         "License :: OSI Approved :: Apache Software License" ]);
    ("Project-URL", HList
       [ "Official Website, https://buf.build/";
         "Source Code, " +:+ UPSTREAM_URL;
         "Issue Tracker, " +:+ UPSTREAM_URL +:+ "/issues" ]) ].

Definition WHL_METADATA : pydict :=
  [ ("Wheel-Version", HStr "1.0");
    ("Generator", HStr ORIGIN_URL);
    ("Root-Is-Purelib", HStr "false") ].

(** ** Platform mapper *)

(** The dict literal of [map_platform], in source order. *)
Definition PLATFORM_ITEMS : list (string * string) :=
  [ ("Linux-aarch64", "manylinux_2_17_aarch64.manylinux2014_aarch64");
    ("Linux-x86_64", "manylinux_2_5_x86_64.manylinux1_x86_64");
    ("Darwin-arm64", "macosx_11_0_arm64");
    ("Darwin-x86_64", "macosx_10_4_x86_64");
    ("Windows-arm64", "win_arm64");
    ("Windows-x86_64", "win_amd64") ].

Definition PLATFORMS : gmap string string := list_to_map PLATFORM_ITEMS.

(** The key that is looked up:
    [s.removeprefix(f"{EXE_NAME}-").removesuffix(".exe")]. *)
Definition platform_key (s : string) : string :=
  PyStr.removesuffix (PyStr.removeprefix s (EXE_NAME +:+ "-")) ".exe".

(** [map_platform(s)]; [dict.get] answers [None] for a missing key. *)
Definition map_platform (s : string) : option string :=
  PLATFORMS !! platform_key s.

(** The mapping as the specification words it: six recognised
    [<os>-<arch>] keys, anything else unknown. *)
Definition platform_tag_spec (k : string) : option string :=
  if decide (k = "Linux-aarch64")
  then Some "manylinux_2_17_aarch64.manylinux2014_aarch64"
  else if decide (k = "Linux-x86_64")
  then Some "manylinux_2_5_x86_64.manylinux1_x86_64"
  else if decide (k = "Darwin-arm64") then Some "macosx_11_0_arm64"
  else if decide (k = "Darwin-x86_64") then Some "macosx_10_4_x86_64"
  else if decide (k = "Windows-arm64") then Some "win_arm64"
  else if decide (k = "Windows-x86_64") then Some "win_amd64"
  else None.

(** ** Release records *)

(** [class Asset]: a frozen dataclass. *)
Record Asset := mkAsset {
  asset_id : Z;
  asset_url : string;
  asset_name : string;
  asset_content_type : string;
  asset_size : Z
}.

(** [class Release]: a frozen dataclass. *)
Record Release := mkRelease {
  release_id : Z;
  release_url : string;
  release_tag_name : string;
  release_draft : bool;
  release_prerelease : bool;
  release_assets : list Asset
}.

(** The builtin [hash] of an int (CPython, 64-bit): the value modulo
    the Mersenne prime [2^61 - 1], keeping the sign, and never [-1]. *)
Definition py_hash_int (n : Z) : Z :=
  let h := Z.sgn n * (Z.abs n mod (2 ^ 61 - 1)) in
  if h =? -1 then -2 else h.

Definition u64 (x : Z) : Z := x mod 2 ^ 64.
Definition s64 (x : Z) : Z := if u64 x <? 2 ^ 63 then u64 x else u64 x - 2 ^ 64.
Definition rotl31 (x : Z) : Z :=
  Z.lor (u64 (Z.shiftl x 31)) (Z.shiftr (u64 x) 33).

(** The builtin [hash] of a tuple whose items hash to [lanes] (CPython
    3.8 and later, 64-bit). *)
Definition py_hash_tuple (lanes : list Z) : Z :=
  let acc :=
    fold_left
      (fun acc lane =>
         u64 (rotl31 (u64 (acc + u64 lane * 14029467366897019727))
              * 11400714785074694791))
      lanes 2870177450012600261 in
  let acc :=
    u64 (acc + Z.lxor (Z.of_nat (length lanes))
                 (Z.lxor 2870177450012600261 3527539)) in
  if acc =? 2 ^ 64 - 1 then 1546275796 else s64 acc.

(** The generated [__eq__] of a dataclass compares, for two instances of
    the class, the tuples of all fields with [compare=True]; [field(hash=
    False)] leaves [compare] at its default [True], so every field takes
    part. *)
Definition Asset_eq (a b : Asset) : bool :=
  bool_decide (asset_id a = asset_id b)
  && bool_decide (asset_url a = asset_url b)
  && bool_decide (asset_name a = asset_name b)
  && bool_decide (asset_content_type a = asset_content_type b)
  && bool_decide (asset_size a = asset_size b).

(** [list.__eq__]: same length and pairwise equal items. *)
Fixpoint list_eq {A} (eq : A → A → bool) (l k : list A) : bool :=
  match l, k with
  | [], [] => true
  | x :: l', y :: k' => eq x y && list_eq eq l' k'
  | _, _ => false
  end.

Definition Release_eq (a b : Release) : bool :=
  bool_decide (release_id a = release_id b)
  && bool_decide (release_url a = release_url b)
  && bool_decide (release_tag_name a = release_tag_name b)
  && bool_decide (release_draft a = release_draft b)
  && bool_decide (release_prerelease a = release_prerelease b)
  && list_eq Asset_eq (release_assets a) (release_assets b).

(** The generated [__hash__] (frozen, eq): the hash of the tuple of the
    fields that are not excluded by [hash=False], which is [(self.id,)]. *)
Definition Asset_hash (a : Asset) : Z := py_hash_tuple [py_hash_int (asset_id a)].
Definition Release_hash (r : Release) : Z :=
  py_hash_tuple [py_hash_int (release_id r)].

(** Set membership as a hash table decides it: an entry with the same
    hash that compares equal. *)
Definition set_contains (s : list Release) (r : Release) : bool :=
  existsb (fun e => (Release_hash e =? Release_hash r) && Release_eq e r) s.

(** Adding to a set keeps the entry that is already there. *)
Definition set_add (s : list Release) (r : Release) : list Release :=
  if set_contains s r then s else s ++ [r].

(** [frozenset(iterable)]: the entries, in the order of their first
    occurrence (the iteration order of a Python set is not modelled). *)
Definition frozenset (l : list Release) : list Release :=
  fold_left set_add l [].

(** ** The file system *)

Abbreviation bytes := (list byte).

(** A path is the list of its components below the file-system root. *)
Abbreviation path := (list string).

Inductive node :=
| File (content : bytes)
| Dir.

(** The entries of the file system, in the order of their creation (the
    order in which a directory lists them). *)
Abbreviation FS := (list (path * node)).

Fixpoint fs_assoc (s : FS) (p : path) : option node :=
  match s with
  | [] => None
  | (q, n) :: s' => if decide (q = p) then Some n else fs_assoc s' p
  end.

(** The root always is a directory. *)
Definition fs_lookup (s : FS) (p : path) : option node :=
  match p with
  | [] => Some Dir
  | _ => fs_assoc s p
  end.

(** Create the entry [p], or replace it where it stands. *)
Fixpoint fs_set (s : FS) (p : path) (n : node) : FS :=
  match s with
  | [] => [(p, n)]
  | (q, m) :: s' =>
      if decide (q = p) then (p, n) :: s' else (q, m) :: fs_set s' p n
  end.

(** [Some x] when [q] is the entry [x] of the directory [d]. *)
Definition child_name (d q : path) : option string :=
  match q with
  | [] => None
  | _ => if decide (removelast q = d) then last q else None
  end.

Definition fs_children (s : FS) (d : path) : list string :=
  omap (fun e => child_name d e.1) s.

(** What [shutil.rmtree(p)] leaves. *)
Definition fs_rmtree (s : FS) (p : path) : FS :=
  filter (fun e => ¬ p `prefix_of` e.1) s.

Definition is_dir_node (n : option node) : bool :=
  match n with Some Dir => true | _ => false end.
Definition is_file_node (n : option node) : bool :=
  match n with Some (File _) => true | _ => false end.
Definition is_some_node (n : option node) : bool :=
  match n with Some _ => true | None => false end.

(** [Path.parent] and [Path.name]. *)
Definition parent (p : path) : path := removelast p.
Definition name (p : path) : string := default "" (last p).

(** [d / s]: the components of [s] are appended, empty and [.] components
    dropped, as [pathlib] does (a [..] stays a component; no string the
    program joins starts with a separator, which would replace [d]). *)
Definition path_parts (s : string) : list string :=
  filter (fun c => c ≠ "" ∧ c ≠ ".") (PyStr.split_slash "" s).
Definition Path_div (d : path) (s : string) : path := d ++ path_parts s.

(** ** The world a command runs in *)

Inductive exn :=
| FileExistsError
| FileNotFoundError
| NotADirectoryError
| IsADirectoryError
| SameFileError
| HTTPError (status : Z)
| InvalidVersion
| CalledProcessError
| SystemExit (code : Z)
| OutOfFuel.

Inductive outcome (A : Type) :=
| Ok (a : A)
| Raise (e : exn).
Arguments Ok {A} a.
Arguments Raise {A} e.

(** The file system, the working directory, the URLs requested so far and
    the distributions handed to the metadata check so far (both oldest
    first).  Console output is not part of the state. *)
Record World := mkWorld {
  w_fs : FS;
  w_cwd : path;
  w_requests : list string;
  w_checked : list path
}.

(** A command: state passing with exceptions; the state survives a raise. *)
Definition M (A : Type) : Type := World → outcome A * World.

Definition ret {A} (a : A) : M A := fun w => (Ok a, w).
Definition raise {A} (e : exn) : M A := fun w => (Raise e, w).
Definition bind {A B} (c : M A) (k : A → M B) : M B :=
  fun w => match c w with
           | (Ok a, w') => k a w'
           | (Raise e, w') => (Raise e, w')
           end.

Notation "'let!' x ':=' c 'in' k" := (bind c (fun x => k))
  (at level 10, x binder, c at level 200, k at level 200,
   format "'[v' 'let!'  x  ':='  c  'in' '/' k ']'").
Notation "c ';;;' k" := (bind c (fun _ => k))
  (at level 100, k at level 200, right associativity,
   format "'[v' c  ';;;' '/' k ']'").

(** [try: c except ...]: the outcome of [c], handed to the handler. *)
Definition try {A} (c : M A) : M (outcome A) :=
  fun w => let '(r, w') := c w in (Ok r, w').

(** [for x in l: body(x)] *)
Fixpoint for_each {A} (l : list A) (body : A → M unit) : M unit :=
  match l with
  | [] => ret tt
  | x :: l' => body x ;;; for_each l' body
  end.

(** A loop whose body updates local variables [acc] of the caller. *)
Fixpoint for_acc {A S} (l : list A) (acc : S) (body : S → A → M S) : M S :=
  match l with
  | [] => ret acc
  | x :: l' => let! acc' := body acc x in for_acc l' acc' body
  end.

Definition get_fs : M FS := fun w => (Ok (w_fs w), w).
Definition put_fs (s : FS) : M unit :=
  fun w => (Ok tt, mkWorld s (w_cwd w) (w_requests w) (w_checked w)).

(** [p.exists()], [p.is_dir()], [p.is_file()] *)
Definition path_exists (p : path) : M bool :=
  let! s := get_fs in ret (is_some_node (fs_lookup s p)).
Definition is_dir (p : path) : M bool :=
  let! s := get_fs in ret (is_dir_node (fs_lookup s p)).
Definition is_file (p : path) : M bool :=
  let! s := get_fs in ret (is_file_node (fs_lookup s p)).

(** [os.mkdir(p)] *)
Definition os_mkdir (p : path) : M unit :=
  let! s := get_fs in
  match fs_lookup s p with
  | Some _ => raise FileExistsError
  | None =>
      match fs_lookup s (parent p) with
      | None => raise FileNotFoundError
      | Some (File _) => raise NotADirectoryError
      | Some Dir => put_fs (fs_set s p Dir)
      end
  end.

(** [p.mkdir(parents=False, exist_ok=exist_ok)]: [FileNotFoundError] is
    raised again; any other [OSError] is swallowed when [exist_ok] holds
    and [p] is a directory. *)
Definition mkdir_flat (p : path) (exist_ok : bool) : M unit :=
  let! r := try (os_mkdir p) in
  match r with
  | Ok _ => ret tt
  | Raise FileNotFoundError => raise FileNotFoundError
  | Raise e =>
      let! d := is_dir p in
      if negb exist_ok || negb d then raise e else ret tt
  end.

(** [p.mkdir(parents=True, exist_ok=exist_ok)], by recursion on the
    reversed path [rp]: a missing parent is created with
    [parents=True, exist_ok=True], then [p] itself without [parents]. *)
Fixpoint mkdir_parents (rp : list string) (exist_ok : bool) : M unit :=
  let p := rev rp in
  let! r := try (os_mkdir p) in
  match r with
  | Ok _ => ret tt
  | Raise FileNotFoundError =>
      match rp with
      | [] => raise FileNotFoundError
      | _ :: rparent =>
          mkdir_parents rparent true ;;;
          mkdir_flat p exist_ok
      end
  | Raise e =>
      let! d := is_dir p in
      if negb exist_ok || negb d then raise e else ret tt
  end.

Definition mkdir (p : path) (parents exist_ok : bool) : M unit :=
  if parents then mkdir_parents (rev p) exist_ok else mkdir_flat p exist_ok.

(** [shutil.rmtree(p)] of an existing directory. *)
Definition rmtree (p : path) : M unit :=
  let! s := get_fs in
  match fs_lookup s p with
  | Some Dir => put_fs (fs_rmtree s p)
  | Some (File _) => raise NotADirectoryError
  | None => raise FileNotFoundError
  end.

(** [p.read_bytes()] *)
Definition read_bytes (p : path) : M bytes :=
  let! s := get_fs in
  match fs_lookup s p with
  | Some (File c) => ret c
  | Some Dir => raise IsADirectoryError
  | None => raise FileNotFoundError
  end.

(** Opening [p] for writing and writing [data]: the file is created or
    replaced; its directory has to exist. *)
Definition write_bytes (p : path) (data : bytes) : M unit :=
  let! s := get_fs in
  match fs_lookup s p with
  | Some Dir => raise IsADirectoryError
  | _ =>
      match fs_lookup s (parent p) with
      | Some Dir => put_fs (fs_set s p (File data))
      | Some (File _) => raise NotADirectoryError
      | None => raise FileNotFoundError
      end
  end.

(** [shutil.copyfile(src, dst)] *)
Definition copyfile (src dst : path) : M unit :=
  if decide (src = dst) then raise SameFileError
  else let! data := read_bytes src in write_bytes dst data.

(** [os.chdir(p)] *)
Definition chdir (p : path) : M unit :=
  let! d := is_dir p in
  if d then fun w => (Ok tt, mkWorld (w_fs w) p (w_requests w) (w_checked w))
  else let! e := path_exists p in
       raise (if e then NotADirectoryError else FileNotFoundError).

(** [maybe_clean(clean, directory)] *)
Definition maybe_clean (clean : bool) (directory : path) : M unit :=
  let! e := path_exists directory in
  (if clean && e then rmtree directory else ret tt) ;;;
  mkdir directory true true.

(** ** Time: [gmtime] and [strftime("%Y%m%d%H%M%S", ...)] *)

Record struct_time := mkTime {
  tm_year : Z;
  tm_mon : Z;
  tm_mday : Z;
  tm_hour : Z;
  tm_min : Z;
  tm_sec : Z
}.

(** Within an era of 400 years that starts on 1 March: the year of the
    era (counting January and February to the next), the month and the
    day of the day [doe] of the era. *)
Definition civil_of_doe (doe : Z) : Z * Z * Z :=
  let yoe := (doe - doe / 1460 + doe / 36524 - doe / 146096) / 365 in
  let doy := doe - (365 * yoe + yoe / 4 - yoe / 100) in
  let mp := (5 * doy + 2) / 153 in
  let d := doy - (153 * mp + 2) / 5 + 1 in
  let m := if mp <? 10 then mp + 3 else mp - 9 in
  (yoe + (if m <=? 2 then 1 else 0), m, d).

(** The proleptic Gregorian date of the day [days] after 1970-01-01. *)
Definition civil_from_days (days : Z) : Z * Z * Z :=
  let z := days + 719468 in
  let era := z / 146097 in
  let '(y, m, d) := civil_of_doe (z mod 146097) in
  (y + era * 400, m, d).

(** [time.gmtime(t)]: seconds since the epoch as UTC calendar time. *)
Definition gmtime (t : Z) : struct_time :=
  let '(y, m, d) := civil_from_days (t / 86400) in
  let s := t mod 86400 in
  mkTime y m d (s / 3600) (s mod 3600 / 60) (s mod 60).

Definition digit (d : Z) : ascii := ascii_of_nat (48 + Z.to_nat d).

(** The decimal digits of [n >= 0], most significant first. *)
Fixpoint decimal_fuel (fuel : nat) (n : Z) (acc : string) : string :=
  match fuel with
  | O => acc
  | S fuel' =>
      let acc' := String (digit (n mod 10)) acc in
      if n <? 10 then acc' else decimal_fuel fuel' (n / 10) acc'
  end.
Definition decimal (n : Z) : string :=
  decimal_fuel (S (Z.to_nat (Z.log2 n))) n "".

(** [s.zfill(width)] *)
Definition zfill (width : nat) (s : string) : string :=
  String.concat "" (replicate (width - String.length s) "0") +:+ s.

(** [strftime("%Y%m%d%H%M%S", tm)]: the year in full, the other fields
    zero-padded to two digits. *)
Definition strftime_YmdHMS (tm : struct_time) : string :=
  decimal (tm_year tm)
  +:+ zfill 2 (decimal (tm_mon tm))
  +:+ zfill 2 (decimal (tm_mday tm))
  +:+ zfill 2 (decimal (tm_hour tm))
  +:+ zfill 2 (decimal (tm_min tm))
  +:+ zfill 2 (decimal (tm_sec tm)).

(** ** Archives *)

(** The fields of a [zipfile.ZipInfo] the program reads or writes. *)
Record ZipInfo := mkZipInfo {
  zi_filename : string;
  zi_date_time : Z * Z * Z * Z * Z * Z;
  zi_compress_type : Z;
  zi_create_system : Z;
  zi_external_attr : Z;
  zi_file_size : Z
}.

Definition ZIP_STORED : Z := 0.
Definition ZIP_DEFLATED : Z := 8.

(** Attribute assignments [zi.field = v]. *)
Definition set_date_time (zi : ZipInfo) (v : Z * Z * Z * Z * Z * Z) : ZipInfo :=
  let 'mkZipInfo f _ c s e n := zi in mkZipInfo f v c s e n.
Definition set_compress_type (zi : ZipInfo) (v : Z) : ZipInfo :=
  let 'mkZipInfo f d _ s e n := zi in mkZipInfo f d v s e n.
Definition set_create_system (zi : ZipInfo) (v : Z) : ZipInfo :=
  let 'mkZipInfo f d c _ e n := zi in mkZipInfo f d c v e n.
Definition set_external_attr (zi : ZipInfo) (v : Z) : ZipInfo :=
  let 'mkZipInfo f d c s _ n := zi in mkZipInfo f d c s v n.
Definition set_file_size (zi : ZipInfo) (v : Z) : ZipInfo :=
  let 'mkZipInfo f d c s e _ := zi in mkZipInfo f d c s e v.

(** The machine a command runs on: [sys.platform] and the wall clock. *)
Record Host := mkHost {
  sys_platform : string;
  time_now : Z
}.

(** [ZipInfo(filename)]: the default date, no compression, and the
    creating system by host: 0 on [win32], 3 elsewhere.  (The file names
    the program builds hold no NUL and no path separator of the host that
    the constructor would rewrite.) *)
Definition ZipInfo_new (h : Host) (filename : string) : ZipInfo :=
  mkZipInfo filename (1980, 1, 1, 0, 0, 0) ZIP_STORED
    (if String.eqb (sys_platform h) "win32" then 0 else 3) 0 0.

(** An archive being written: the members handed to [writestr], in order. *)
Abbreviation archive := (list (ZipInfo * bytes)).

(** [WheelFile.writestr(zi, data)] of the [wheel] package, as far as the
    program drives it: the member is recorded with the fields it carries. *)
Definition WheelFile_writestr (a : archive) (zi : ZipInfo) (data : bytes) : archive :=
  a ++ [(zi, data)].

(** [ReproducibleWheelFile.writestr]: the creating system and the date are
    overwritten before the member is handed on. *)
Definition ReproducibleWheelFile_writestr (a : archive) (zi : ZipInfo) (data : bytes)
  : archive :=
  let zi := set_create_system zi 3 in
  let zi := set_date_time zi (1980, 1, 1, 0, 0, 0) in
  WheelFile_writestr a zi data.

(** The message [emsg] builds before it is rendered. *)
Record EmailMessage := mkEmail {
  em_headers : list (string * string);
  em_payload : option string
}.

(** The headers [emsg] sets, one per list element for a list value. *)
Definition emsg_headers (headers : pydict) : list (string * string) :=
  concat (map (fun kv => match kv.2 with
                         | HList l => map (fun e => (kv.1, e)) l
                         | HStr v => [(kv.1, v)]
                         end) headers).

(** [if payload: em.set_payload(payload)]: [None] and the empty string
    set nothing. *)
Definition emsg_message (headers : pydict) (payload : option string) : EmailMessage :=
  mkEmail (emsg_headers headers)
    (match payload with
     | Some p => if String.eqb p "" then None else Some p
     | None => None
     end).

(** [re.compile(r"\Abuf-[^.]+(?:\.exe)?\Z").match(s)]: the prefix, then a
    non-empty body without a dot, then optionally [.exe]. *)
Definition asset_filter (s : string) : bool :=
  PyStr.startswith s "buf-"
  && (let body := PyStr.removesuffix (PyStr.drop 4 s) ".exe" in
      negb (String.eqb body "") && negb (PyStr.contains "."%char body)).

(** [Asset.download]: the body is [pass]. *)
Definition Asset_download (self : Asset) : M unit := ret tt.

(** The JSON of one release as [download] reads it: the tag name and, per
    asset, its name and its [browser_download_url]. *)
Record ReleaseJson := mkReleaseJson {
  rj_tag_name : string;
  rj_assets : list (string * string)
}.

(** An HTTP response: the status, the raw body, the body decoded as the
    JSON of one release and as a list of releases, and the [next] link. *)
Record Response := mkResponse {
  status_code : Z;
  content : bytes;
  json_release : ReleaseJson;
  json_releases : list Release;
  links_next : option string
}.

(** [response.raise_for_status()] *)
Definition raise_for_status (r : Response) : M unit :=
  if (400 <=? status_code r) && (status_code r <? 600)
  then raise (HTTPError (status_code r)) else ret tt.

(** [fail(m)]: the message is logged, then [SystemExit(1)]. *)
Definition fail {A} : M A := raise (SystemExit 1).

(** ** Console messages under GitHub Actions *)

(** [s.replace(old, new)] for a pattern [old] of one character. *)
Fixpoint replace_char (old : ascii) (new : string) (s : string) : string :=
  match s with
  | EmptyString => EmptyString
  | String c s' =>
      (if Ascii.eqb c old then new else String c EmptyString) +:+ replace_char old new s'
  end.

Definition LF : ascii := "010"%char.
Definition CR : ascii := "013"%char.

(** The message as the GitHub Actions variant of [log] escapes it:
    [m.replace("%", "%25").replace("\n", "%0A").replace("\r", "%0D")]. *)
Definition gha_escape (m : string) : string :=
  replace_char CR "%0D" (replace_char LF "%0A" (replace_char "%"%char "%25" m)).

(** What that variant of [log(s, m)] prints. *)
Definition log_gha (s m : string) : string := "::" +:+ s +:+ "::" +:+ gha_escape m.

(** The reading of an escaped message by the runner: each of the three
    escapes stands for its character. *)
Fixpoint gha_unescape (s : string) : string :=
  match s with
  | EmptyString => EmptyString
  | String c s' =>
      match s' with
      | String d (String e s'') =>
          if Ascii.eqb c "%"%char && Ascii.eqb d "2"%char && Ascii.eqb e "5"%char
          then String "%"%char (gha_unescape s'')
          else if Ascii.eqb c "%"%char && Ascii.eqb d "0"%char && Ascii.eqb e "A"%char
          then String LF (gha_unescape s'')
          else if Ascii.eqb c "%"%char && Ascii.eqb d "0"%char && Ascii.eqb e "D"%char
          then String CR (gha_unescape s'')
          else String c (gha_unescape s')
      | _ => String c (gha_unescape s')
      end
  end.

(** ** Message headers *)

(** [em.get_all(k)]: the values of the headers named [k], in order. *)
Definition header_values (k : string) (hs : list (string * string)) : list string :=
  map snd (List.filter (fun kv : string * string => bool_decide (kv.1 = k)) hs).

(** ** The wheel that is put to the test *)

(** The values of [platform.system()] the test knows. *)
Inductive System := Darwin | Linux | Windows.

(** [{"Darwin": "macos", "Linux": "linux", "Windows": "win"}[platform.system()]] *)
Definition system_name (sys : System) : string :=
  match sys with
  | Darwin => "macos"
  | Linux => "linux"
  | Windows => "win"
  end.

(** [s.lower()], for the ASCII letters. *)
Definition lower_char (c : ascii) : ascii :=
  let n := nat_of_ascii c in
  if (65 <=? n)%nat && (n <=? 90)%nat then ascii_of_nat (n + 32) else c.
Fixpoint lower (s : string) : string :=
  match s with
  | EmptyString => EmptyString
  | String c s' => String (lower_char c) (lower s')
  end.

(** The glob of the command [test], for the value [machine] of
    [platform.machine()] and the option [version] (a pattern for one path
    component; the default is [*]). *)
Definition test_glob (sys : System) (machine version : string) : string :=
  let system := system_name sys in
  let windows := String.eqb system "win" in
  let machine := if windows then "_" +:+ lower machine else "*" +:+ machine in
  WHL_NAME +:+ "-" +:+ version +:+ "-*-" +:+ system +:+ machine +:+ ".whl".

(** The glob of [bin/test.py]. *)
Definition bin_test_glob (sys : System) (machine : string) : string :=
  let system := system_name sys in
  let machine := lower machine in
  "*" +:+ system +:+ "*" +:+ machine +:+ ".whl".

(** The name [assemble] gives the wheel of [version] for the platform
    tag [platform_tag]: [f"{whl_name}-{pypi_platform}.whl"]. *)
Definition wheel_file_name (version platform_tag : string) : string :=
  (WHL_NAME +:+ "-" +:+ version) +:+ "-" +:+ ("py2.py3-none-" +:+ platform_tag)
  +:+ ".whl".

(** What [platform.system()] and [platform.machine()] report on the hosts
    the keys of the platform table are built for. *)
Definition reported_hosts : list (System * string * string) :=
  [ (Linux, "aarch64", "Linux-aarch64");
    (Linux, "x86_64", "Linux-x86_64");
    (Darwin, "arm64", "Darwin-arm64");
    (Darwin, "x86_64", "Darwin-x86_64");
    (Windows, "ARM64", "Windows-arm64");
    (Windows, "AMD64", "Windows-x86_64") ].

(** ** A small concrete world

    One upstream release [v1.2.3] with a Linux executable and a checksum
    file, served by a two-page release listing; used to run the commands
    on. *)

Module Sample.

(** A pattern matcher with [*] and [?], enough for the patterns used. *)
Fixpoint fnmatch_pat (pat s : string) : bool :=
  match pat with
  | EmptyString => String.eqb s ""
  | String c pat' =>
      if Ascii.eqb c "*"%char
      then (fix star (s : string) : bool :=
              fnmatch_pat pat' s
              || match s with
                 | EmptyString => false
                 | String _ s' => star s'
                 end) s
      else match s with
           | EmptyString => false
           | String d s' =>
               (Ascii.eqb c d || Ascii.eqb c "?"%char) && fnmatch_pat pat' s'
           end
  end.
Definition fnmatch (name pat : string) : bool := fnmatch_pat pat name.

Definition b (s : string) : bytes := list_byte_of_string s.

Definition ROOT_DIR : path := ["srv"; "repo"].

Definition r1 : Release := mkRelease 1 "u1" "v1.0.0" false false [].
Definition r2 : Release := mkRelease 2 "u2" "v1.1.0-rc1" false true [].
Definition r3 : Release := mkRelease 3 "u3" "v1.1.0" true false [].
Definition r4 : Release := mkRelease 4 "u4" "v1.2.3" false false
  [mkAsset 7 "a7" "buf-Linux-x86_64" "application/octet-stream" 3].

Definition no_response : Response :=
  mkResponse 404 [] (mkReleaseJson "" []) [] None.

Definition listing_url : string :=
  "https://api.github.com/repos/bufbuild/buf/releases?per_page=100".

Definition http_get (url : string) : Response :=
  if String.eqb url "https://api.github.com/repos/bufbuild/buf/releases/latest"
  then mkResponse 200 []
         (mkReleaseJson "v1.2.3"
            [("buf-Linux-x86_64", "https://dl/buf-Linux-x86_64");
             ("sha256.txt", "https://dl/sha256.txt")]) [] None
  else if String.eqb url "https://raw.githubusercontent.com/bufbuild/buf/v1.2.3/LICENSE"
  then mkResponse 200 (b "Apache") (mkReleaseJson "" []) [] None
  else if String.eqb url "https://dl/buf-Linux-x86_64"
  then mkResponse 200 (b "ELF") (mkReleaseJson "" []) [] None
  else if String.eqb url listing_url
  then mkResponse 200 [] (mkReleaseJson "" []) [r1; r2] (Some "https://next/2")
  else if String.eqb url "https://next/2"
  then mkResponse 200 [] (mkReleaseJson "" []) [r3; r4] None
  else no_response.

(** PEP 440 normalisation, as far as the example needs it: the string as
    it stands. *)
Definition normalize_version (s : string) : option string := Some s.
Definition decode_text (c : bytes) : string := string_of_list_byte c.
Definition as_bytes (em : EmailMessage) : bytes :=
  b (String.concat "" (map (fun kv => kv.1 +:+ ": " +:+ kv.2 +:+ "
") (em_headers em)) +:+ "
" +:+ default "" (em_payload em)).
Definition zip_bytes (a : archive) : bytes :=
  concat (map (fun e => b (zi_filename e.1) ++ e.2) a).
(** A distribution fails the check when its name mentions [bad]. *)
Definition check_dist (s : FS) (p : path) : bool :=
  fnmatch (name p) "*bad*".

Definition host_linux : Host := mkHost "linux" 1700000000.
Definition host_windows : Host := mkHost "win32" 1800000000.

(** Two releases with the same identifier that differ in their URL, as
    a listing can return them when a release changes between two pages. *)
Definition dup_a : Release := mkRelease 9 "u9" "v2.0.0" false false [].
Definition dup_b : Release := mkRelease 9 "u9-moved" "v2.0.0" false false [].

Definition origin_listing_url : string :=
  "https://api.github.com/repos/fleshgrinder/python-buf-exe/releases?per_page=100".

(** A service whose listings return [dup_a] on the first page and [dup_b]
    on the second. *)
Definition http_get_dup (url : string) : Response :=
  if String.eqb url listing_url
  then mkResponse 200 [] (mkReleaseJson "" []) [dup_a] (Some "https://next/2")
  else if String.eqb url origin_listing_url
  then mkResponse 200 [] (mkReleaseJson "" []) [dup_a] (Some "https://next/2")
  else if String.eqb url "https://next/2"
  then mkResponse 200 [] (mkReleaseJson "" []) [dup_b] None
  else no_response.

(** A checkout with its README and nothing else. *)
Definition fs0 : FS :=
  [ (["srv"], Dir); (["srv"; "repo"], Dir);
    (["srv"; "repo"; "README.md"], File (b "# buf")) ].
Definition w0 : World := mkWorld fs0 [] [] [].

(** A checkout whose [dist] holds one version with a good and a bad
    archive. *)
Definition fs_dist : FS :=
  fs0 ++ [ (["srv"; "repo"; "dist"], Dir);
           (["srv"; "repo"; "dist"; "1.2.3"], Dir);
           (["srv"; "repo"; "dist"; "1.2.3"; "buf_exe-1.2.3-bad.whl"], File (b "x"));
           (["srv"; "repo"; "dist"; "1.2.3"; "buf_exe-1.2.3-good.whl"], File (b "y")) ].
Definition w_dist : World := mkWorld fs_dist [] [] [].

End Sample.

(** ** Services that misbehave *)

Module Outage.



End Outage.

(** ** A checkout with an outdated cache *)

Module Stale.

(** The cache holds release [v1.2.3] with an older license text and a
    file that is no part of the release. *)
Definition fs_stale : FS :=
  Sample.fs0
  ++ [ (["srv"; "repo"; ".cache"], Dir);
       (["srv"; "repo"; ".cache"; "buf"], Dir);
       (["srv"; "repo"; ".cache"; "buf"; "v1.2.3"], Dir);
       (["srv"; "repo"; ".cache"; "buf"; "v1.2.3"; "LICENSE"], File (Sample.b "MIT"));
       (["srv"; "repo"; ".cache"; "buf"; "v1.2.3"; "notes.txt"], File (Sample.b "n")) ].
Definition w_stale : World := mkWorld fs_stale [] [] [].

End Stale.

(** ** A cache with a tag that lacks its license *)

Module Partial.

Definition fs_partial : FS :=
  Sample.fs0
  ++ [ (["srv"; "repo"; ".cache"], Dir);
       (["srv"; "repo"; ".cache"; "buf"], Dir);
       (["srv"; "repo"; ".cache"; "buf"; "v9"], Dir);
       (["srv"; "repo"; ".cache"; "buf"; "v9"; "buf-Linux-x86_64"], File (Sample.b "ELF"));
       (["srv"; "repo"; "build"], Dir);
       (["srv"; "repo"; "build"; "buf"], Dir) ].
Definition w_partial : World := mkWorld fs_partial [] [] [].

End Partial.

(** ** A service asked for a release by its tag *)

Module Tagged.

Definition http_get (url : string) : Response :=
  if String.eqb url "https://api.github.com/repos/bufbuild/buf/releases/tags/v1.2.3"
  then mkResponse 200 []
         (mkReleaseJson "v1.2.3" [("buf-Linux-x86_64", "https://dl/buf-Linux-x86_64")])
         [] None
  else if String.eqb url "https://raw.githubusercontent.com/bufbuild/buf/tags/v1.2.3/LICENSE"
  then mkResponse 200 (Sample.b "Apache") (mkReleaseJson "" []) [] None
  else if String.eqb url "https://dl/buf-Linux-x86_64"
  then mkResponse 200 (Sample.b "ELF") (mkReleaseJson "" []) [] None
  else Sample.no_response.

End Tagged.

(** ** The commands *)

Section Pipeline.

(** [ROOT_DIR]: the absolute directory of the script. *)
Variable ROOT_DIR : path.
(** The environment variables [GITHUB_TOKEN] and [GH_TOKEN]. *)
Variable GITHUB_TOKEN GH_TOKEN : option string.
(** The hosting service: the response to a GET of a URL. *)
Variable http_get : string → Response.
(** [fnmatch name pat]: the entry [name] matches the glob pattern [pat]
    (patterns are matched against the entries of one directory). *)
Variable fnmatch : string → string → bool.
(** The output of [git log -1 --format=%ct] as an integer, [None] when
    the call or the conversion fails. *)
Variable git_log_ct : option Z.
(** [str(Version(s))] of the [packaging] library, [None] when [s] is not
    a version. *)
Variable normalize_version : string → option string.
(** [Path.read_text]'s decoding of a file's bytes. *)
Variable decode_text : bytes → string.
(** [bytes(em)] of an [EmailMessage]. *)
Variable as_bytes : EmailMessage → bytes.
(** The bytes of a closed archive, from the members it was handed. *)
Variable zip_bytes : archive → bytes.
(** The strict metadata check of one distribution file: [true] when the
    file fails it. *)
Variable check_dist : FS → path → bool.

Definition CACHE_DIR : path := Path_div ROOT_DIR ".cache".
Definition BUILD_DIR : path := Path_div ROOT_DIR "build".
Definition DIST_DIR : path := Path_div ROOT_DIR "dist".
Definition PRJ_DESC_PATH : path := Path_div ROOT_DIR "README.md".
Definition EXE_CACHE_DIR : path := Path_div CACHE_DIR EXE_NAME.
Definition EXE_BUILD_DIR : path := Path_div BUILD_DIR EXE_NAME.

(** [d.glob(pat)]: the entries of the directory [d] that match, as paths;
    nothing when [d] is no directory. *)
Definition glob (d : path) (pat : string) : M (list path) :=
  let! s := get_fs in
  ret (if is_dir_node (fs_lookup s d)
       then map (fun x => d ++ [x])
              (List.filter (fun x => fnmatch x pat) (fs_children s d))
       else []).

(** [gh_token()] *)
Definition gh_token : M string :=
  match (match GITHUB_TOKEN with Some t => Some t | None => GH_TOKEN end) with
  | None => fail
  | Some it => ret it
  end.

(** [session.get(url)]: the request is made and answered. *)
Definition session_get (url : string) : M Response :=
  fun w => (Ok (http_get url),
            mkWorld (w_fs w) (w_cwd w) (w_requests w ++ [url]) (w_checked w)).


(** [emsg(headers, payload)] *)
Definition emsg (headers : pydict) (payload : option string) : bytes :=
  as_bytes (emsg_message headers payload).

(** *** [download] *)

(** The local function [download_file(dst, url)]. *)
Definition download_file (dst : path) (url : string) : M unit :=
  let! e := path_exists dst in
  if e then ret tt
  else
    let! r := session_get url in
    raise_for_status r ;;;
    write_bytes dst (content r).

Definition download (tag : string) (clean : bool) : M unit :=
  maybe_clean clean EXE_CACHE_DIR ;;;
  let! _ := gh_token in
  let tag := if String.eqb tag "latest" then tag else "tags/" +:+ tag in
  let! response :=
    session_get ("https://api.github.com/repos/" +:+ UPSTREAM +:+ "/releases/" +:+ tag) in
  raise_for_status response ;;;
  let release := json_release response in
  let tag := if String.eqb tag "latest" then rj_tag_name release else tag in
  let exe_dir := Path_div EXE_CACHE_DIR tag in
  mkdir exe_dir true true ;;;
  download_file (Path_div exe_dir "LICENSE")
    ("https://raw.githubusercontent.com/" +:+ UPSTREAM +:+ "/" +:+ tag +:+ "/LICENSE") ;;;
  for_each (rj_assets release)
    (fun asset =>
       let exe_name := asset.1 in
       if asset_filter exe_name
       then download_file (Path_div exe_dir exe_name) asset.2
       else ret tt).

(** *** [build] *)

(** The body of the inner loop of [build], for one [exe_src]. *)
Definition build_exe (dst exe_src : path) : M unit :=
  let! f := is_file exe_src in
  if negb f then ret tt
  else
    match map_platform (name exe_src) with
    | None => ret tt
    | Some exe_platform =>
        let exe_platform := "py2.py3-none-" +:+ exe_platform in
        let exe_dst := Path_div dst exe_platform in
        copyfile exe_src exe_dst
    end.

(** The body of the outer loop of [build], for one [src]. *)
Definition build_tag (src : path) : M unit :=
  let! d := is_dir src in
  if negb d then ret tt
  else
    let dst := Path_div EXE_BUILD_DIR (name src) in
    let! r := try (mkdir dst true false) in
    match r with
    | Raise FileExistsError => ret tt
    | Raise e => raise e
    | Ok _ =>
        copyfile (Path_div src "LICENSE") (Path_div dst "LICENSE") ;;;
        let! exes := glob src (EXE_NAME +:+ "*") in
        for_each exes (build_exe dst)
    end.

Definition build (clean : bool) (tag_glob : string) : M unit :=
  maybe_clean clean EXE_BUILD_DIR ;;;
  let! srcs := glob EXE_CACHE_DIR tag_glob in
  for_each srcs build_tag.

(** *** [assemble] *)

(** The version suffix: [.dev] and the time of the latest commit in
    development mode, nothing otherwise. *)
Definition version_suffix_of (dev : bool) : M string :=
  if dev
  then match git_log_ct with
       | None => raise CalledProcessError
       | Some ct =>
           let dt := strftime_YmdHMS (gmtime ct) in
           ret (".dev" +:+ dt)
       end
  else ret "".

(** The string handed to [Version]: the tag without a leading [v], then
    the suffix. *)
Definition version_string (tag version_suffix : string) : string :=
  PyStr.removeprefix tag "v" +:+ version_suffix.

(** [exe_name]: [buf.exe] for a Windows platform tag, [buf] otherwise. *)
Definition wheel_exe_name (pypi_platform : string) : string :=
  if PyStr.startswith pypi_platform "py2.py3-none-win"
  then EXE_NAME +:+ ".exe" else EXE_NAME.

(** The tuple the [with] block loops over: name, content, mode. *)
Definition wheel_members (whl_name pypi_platform : string) (exe license_ : bytes)
    (pypi_metadata : pydict) (description : string) (whl_metadata : pydict)
  : list (string * bytes * Z) :=
  let exe_name := wheel_exe_name pypi_platform in
  let dist_info := whl_name +:+ ".dist-info" in
  [ (whl_name +:+ ".data/scripts/" +:+ exe_name, exe, 493);
    (dist_info +:+ "/LICENSE", license_, 420);
    (dist_info +:+ "/METADATA", emsg pypi_metadata (Some description), 420);
    (dist_info +:+ "/WHEEL", emsg whl_metadata None, 420) ].

(** One turn of that loop: the [ZipInfo] is made, filled in and written. *)
Definition write_member (h : Host) (it : archive) (m : string * bytes * Z) : archive :=
  let '(_k, v, p) := m in
  let k := ZipInfo_new h _k in
  let k := set_compress_type k ZIP_DEFLATED in
  let k := set_external_attr k (Z.shiftl (p + 32768) 16) in
  let k := set_file_size k (Z.of_nat (length v)) in
  ReproducibleWheelFile_writestr it k v.

(** The members of one wheel, as the [with] block writes them. *)
Definition wheel_entries (h : Host) (whl_name pypi_platform : string)
    (exe license_ : bytes) (pypi_metadata : pydict) (description : string)
    (whl_metadata : pydict) : archive :=
  fold_left (write_member h)
    (wheel_members whl_name pypi_platform exe license_ pypi_metadata
       description whl_metadata) [].

(** The body of the inner loop of [assemble], for one [exe_file]; the
    dict [whl_metadata] it assigns to is handed back. *)
Definition assemble_wheel (h : Host) (whl_dir : path) (whl_name : string)
    (license_ : bytes) (pypi_metadata : pydict) (description : string)
    (whl_metadata : pydict) (exe_file : path) : M pydict :=
  let! f := is_file exe_file in
  if negb f then ret whl_metadata
  else
    let pypi_platform := name exe_file in
    let whl_file := Path_div whl_dir (whl_name +:+ "-" +:+ pypi_platform +:+ ".whl") in
    let! e := path_exists whl_file in
    if e then ret whl_metadata
    else
      let whl_metadata := dict_set whl_metadata "Tag" (HStr pypi_platform) in
      (* the archive is opened for writing, which creates the file *)
      write_bytes whl_file [] ;;;
      let! r := try (read_bytes exe_file) in
      match r with
      | Raise e =>
          (* leaving the block closes the archive, without members *)
          write_bytes whl_file (zip_bytes []) ;;;
          raise e
      | Ok exe =>
          write_bytes whl_file
            (zip_bytes (wheel_entries h whl_name pypi_platform exe license_
                          pypi_metadata description whl_metadata)) ;;;
          ret whl_metadata
      end.

(** The body of the outer loop of [assemble], for one [tag_dir]; the two
    metadata dicts it assigns to are handed back. *)
Definition assemble_tag (h : Host) (version_suffix description : string)
    (md : pydict * pydict) (tag_dir : path) : M (pydict * pydict) :=
  let! d := is_dir tag_dir in
  if negb d then ret md
  else
    let tag := name tag_dir in
    match normalize_version (version_string tag version_suffix) with
    | None => raise InvalidVersion
    | Some version =>
        let whl_dir := Path_div DIST_DIR version in
        mkdir whl_dir true true ;;;
        let whl_name := WHL_NAME +:+ "-" +:+ version in
        let pypi_metadata := dict_set md.1 "Version" (HStr version) in
        let pypi_metadata :=
          dict_set pypi_metadata "Download-URL"
            (HStr (UPSTREAM_URL +:+ "/releases/tag/" +:+ tag)) in
        let! license_ := read_bytes (Path_div tag_dir "LICENSE") in
        let! exes := glob tag_dir "py2.py3-none-*" in
        let! whl_metadata :=
          for_acc exes md.2
            (assemble_wheel h whl_dir whl_name license_ pypi_metadata description) in
        ret (pypi_metadata, whl_metadata)
    end.

Definition assemble (h : Host) (clean dev : bool) (tag : string) : M unit :=
  maybe_clean clean DIST_DIR ;;;
  let! version_suffix := version_suffix_of dev in
  let! description := (let! b := read_bytes PRJ_DESC_PATH in ret (decode_text b)) in
  let pypi_metadata := PYPI_METADATA in
  let whl_metadata := WHL_METADATA in
  let! tag_dirs := glob EXE_BUILD_DIR tag in
  let! _ := for_acc tag_dirs (pypi_metadata, whl_metadata)
              (assemble_tag h version_suffix description) in
  ret tt.

(** *** [verify] *)

(** [twine.commands.check.check(dists, strict=True)], by its contract:
    every named distribution is checked in turn, relative to the working
    directory, and the answer is whether any of them failed. *)
Definition twine_check_from (failure : bool) (dists : list string) : M bool :=
  for_acc dists failure
    (fun failure d w =>
       let p := Path_div (w_cwd w) d in
       (Ok (failure || check_dist (w_fs w) p),
        mkWorld (w_fs w) (w_cwd w) (w_requests w) (w_checked w ++ [p]))).
Definition twine_check (dists : list string) : M bool :=
  twine_check_from false dists.

(** [[str(it.relative_to(d)) for it in ps if it.is_file()]] *)
Definition file_names_from (acc : list string) (ps : list path) : M (list string) :=
  for_acc ps acc
    (fun acc it => let! f := is_file it in ret (if f then acc ++ [name it] else acc)).
Definition file_names (ps : list path) : M (list string) := file_names_from [] ps.

(** The body of the loop of [verify]; [errors] is handed back. *)
Definition verify_dir (errors : bool) (version_dir : path) : M bool :=
  let! d := is_dir version_dir in
  if d
  then
    chdir version_dir ;;;
    let! whls := glob version_dir "*.whl" in
    let! dists := file_names whls in
    let! failed := twine_check dists in
    ret (errors || failed)
  else ret errors.

Definition verify (version_glob : string) : M unit :=
  let errors := false in
  let! version_dirs := glob DIST_DIR version_glob in
  let! errors := for_acc version_dirs errors verify_dir in
  raise (SystemExit (Z.b2z errors)).

(** *** [fetch_releases] and [sync] *)

(** The releases a page yields: neither drafts nor prereleases. *)
Definition page_yield (rs : list Release) : list Release :=
  List.filter (fun it => negb (release_draft it) && negb (release_prerelease it)) rs.

(** The loop of [fetch_releases] from the page at [url] on; [fuel] bounds
    the number of pages, and the result lists what the generator yields. *)
Fixpoint fetch_pages (fuel : nat) (page : Z) (url : string) : M (list Release) :=
  match fuel with
  | O => raise OutOfFuel
  | S fuel' =>
      let! response := session_get url in
      if negb (status_code response =? 200) then fail
      else
        let yielded := page_yield (json_releases response) in
        match links_next response with
        | None => ret yielded
        | Some next =>
            let! rest := fetch_pages fuel' (page + 1) next in
            ret (yielded ++ rest)
        end
  end.

Definition fetch_releases (fuel : nat) (repo : string) : M (list Release) :=
  fetch_pages fuel 1
    ("https://api.github.com/repos/" +:+ repo +:+ "/releases?per_page=100").

(** [sync]: the two sets it builds and prints. *)
Definition sync (fuel : nat) : M (list Release * list Release) :=
  let! origin := fetch_releases fuel ORIGIN in
  let origin_releases := frozenset origin in
  let! upstream := fetch_releases fuel UPSTREAM in
  let upstream_releases := frozenset upstream in
  ret (origin_releases, upstream_releases).


(** ** What the specification speaks of, as functions of the state *)

(** The matches of a pattern in a directory of the file system [s]. *)
Definition glob_fs (s : FS) (d : path) (pat : string) : list path :=
  if is_dir_node (fs_lookup s d)
  then map (fun x => d ++ [x])
         (List.filter (fun x => fnmatch x pat) (fs_children s d))
  else [].

(** The version directories [verify] visits and the archive files of one
    of them, named as the check is given them. *)
Definition version_dirs (s : FS) (version_glob : string) : list path :=
  List.filter (fun d => is_dir_node (fs_lookup s d)) (glob_fs s DIST_DIR version_glob).


(** ** Auxiliary notions of the theorems *)






(** How two states of the file system compare. *)

(** Both directories, or both files. *)
Definition same_kind (n m : node) : Prop :=
  match n, m with
  | Dir, Dir => True
  | File _, File _ => True
  | _, _ => False
  end.

(** [t] has every entry of [s], as a directory or as a file as in [s]. *)
Definition keeps (s t : FS) : Prop :=
  ∀ p n, fs_lookup s p = Some n → ∃ m, fs_lookup t p = Some m ∧ same_kind n m.

(** [t] is [s] at every path outside [P], and lists every directory that
    has no entry in [P] as [s] does. *)
Definition agrees (P : path → Prop) (s t : FS) : Prop :=
  (∀ p, ¬ P p → fs_lookup t p = fs_lookup s p)
  ∧ (∀ d, (∀ x, ¬ P (d ++ [x])) → fs_children t d = fs_children s d).

(** [t] extends [s] by changes within [P]. *)
Definition ext (P : path → Prop) (s t : FS) : Prop := keeps s t ∧ agrees P s t.

(** The command changes the file system only by extending it within [P]. *)
Definition Touches {A} (P : path → Prop) (c : M A) : Prop :=
  ∀ w r w', c w = (r, w') → ext P (w_fs w) (w_fs w').

(** Once the command has returned, it returns the same again, and leaves
    the files alone, in every state that extends the one it left. *)
Definition Settles {A} (P : path → Prop) (c : M A) : Prop :=
  ∀ w a w', c w = (Ok a, w') →
    ∀ t, ext P (w_fs w') (w_fs t) → ∃ t', c t = (Ok a, t') ∧ w_fs t' = w_fs t.

(** Once [c1] has returned, [c2] returns, and leaves the files alone, in
    every state that extends the one [c1] left. *)
Definition Quiets {A B} (P : path → Prop) (c1 : M A) (c2 : M B) : Prop :=
  ∀ w a w', c1 w = (Ok a, w') →
    ∀ t, ext P (w_fs w') (w_fs t) → ∃ b t', c2 t = (Ok b, t') ∧ w_fs t' = w_fs t.

(** The paths on the branch of [R]: its ancestors, itself and what is
    below it. *)
Definition on_branch (R : path) (p : path) : Prop :=
  p `prefix_of` R ∨ R `prefix_of` p.

(** ** Further notions: confinement and growth *)

(** The command changes the file system only within [P]; it may remove
    entries there. *)
Definition Confines {A} (P : path → Prop) (c : M A) : Prop :=
  ∀ w r w', c w = (r, w') → agrees P (w_fs w) (w_fs w').

(** [t] has every entry of [s], unchanged. *)
Definition grows (s t : FS) : Prop :=
  ∀ p n, fs_lookup s p = Some n → fs_lookup t p = Some n.

(** The command leaves every entry it finds as it is. *)
Definition Grows {A} (c : M A) : Prop :=
  ∀ w r w', c w = (r, w') → grows (w_fs w) (w_fs w').

(** Every entry of the file system lies in a directory. *)
Definition fs_wf (s : FS) : bool :=
  forallb (fun e => is_dir_node (fs_lookup s (parent e.1))) s.

(** The URLs of the first [n] pages of the listing that starts at [url]:
    each page is found where the one before it links to. *)
Fixpoint page_urls (url : string) (n : nat) : list string :=
  match n with
  | O => []
  | S n' =>
      url :: match links_next (http_get url) with
             | Some next => page_urls next n'
             | None => []
             end
  end.

(** The listing endpoint serves [pages] from [url] on and then, where the
    last of them links to, answers with a status other than 200 (at [url]
    itself when there are no pages). *)
Fixpoint serves_then_fails (url : string) (pages : list (list Release)) : Prop :=
  match pages with
  | [] => status_code (http_get url) ≠ 200
  | p :: rest =>
      status_code (http_get url) = 200
      ∧ json_releases (http_get url) = p
      ∧ ∃ next, links_next (http_get url) = Some next ∧ serves_then_fails next rest
  end.

(** The URL of the first page of the release listing of [repo]. *)
Definition releases_url (repo : string) : string :=
  "https://api.github.com/repos/" +:+ repo +:+ "/releases?per_page=100".

(** The state after the requests [urls]: nothing else has changed. *)
Definition after_requests (w : World) (urls : list string) : World :=
  mkWorld (w_fs w) (w_cwd w) (w_requests w ++ urls) (w_checked w).

(** Once the command has returned, it returns the same again in every
    state that extends the one it left, and all it then does is to make
    the requests [urls]. *)
Definition Repeats {A} (P : path → Prop) (urls : list string) (c : M A) : Prop :=
  ∀ w a w', c w = (Ok a, w') →
    ∀ t, ext P (w_fs w') (w_fs t) → c t = (Ok a, after_requests t urls).

(** The URL [download] asks for the release at. *)
Definition release_lookup_url (tag : string) : string :=
  "https://api.github.com/repos/" +:+ UPSTREAM +:+ "/releases/"
  +:+ (if String.eqb tag "latest" then tag else "tags/" +:+ tag).

(** *** The cache a download leaves *)

(** The release [download] is answered with. *)
Definition release_of (tag : string) : ReleaseJson :=
  json_release (http_get (release_lookup_url tag)).

(** The value of the variable [tag] once [download] has looked the release
    up: the name of the release for [latest], and [tags/<tag>] for any
    other argument. *)
Definition cache_tag (tag : string) : string :=
  let tag' := if String.eqb tag "latest" then tag else "tags/" +:+ tag in
  if String.eqb tag' "latest" then rj_tag_name (release_of tag) else tag'.

(** [exe_dir] *)
Definition exe_dir_of (tag : string) : path := Path_div EXE_CACHE_DIR (cache_tag tag).

(** The files [download] asks [download_file] for, each with its URL, in
    this order: the license, then the assets that pass the filter. *)
Definition served_files (tag : string) : list (path * string) :=
  (Path_div (exe_dir_of tag) "LICENSE",
   "https://raw.githubusercontent.com/" +:+ UPSTREAM +:+ "/" +:+ cache_tag tag
   +:+ "/LICENSE")
  :: map (fun asset : string * string => (Path_div (exe_dir_of tag) asset.1, asset.2))
       (List.filter (fun asset : string * string => asset_filter asset.1)
          (rj_assets (release_of tag))).

(** The URL of the first of the files that is to be stored at [p]. *)
Fixpoint first_served (l : list (path * string)) (p : path) : option string :=
  match l with
  | [] => None
  | (q, url) :: l' => if decide (q = p) then Some url else first_served l' p
  end.

(** A cache that holds the directory [exe_dir] with the files [served],
    each with the body of the response to its URL, and nothing else. *)
Definition cache_content (exe_dir : path) (served : list (path * string)) (p : path)
  : option node :=
  if decide (p `prefix_of` exe_dir) then Some Dir
  else match first_served served p with
       | Some url => Some (File (content (http_get url)))
       | None => None
       end.

(** *** The staging directory [build] fills *)

(** What the executable [e] of the cache changes at the path [p] of the
    staging directory [dst]: it is copied there when it is a file of a
    known platform and [p] is the name it is staged under; otherwise what
    was at [p] stays. *)
Definition stage_one (s : FS) (dst p : path) (cur : option node) (e : path)
  : option node :=
  match fs_lookup s e, map_platform (name e) with
  | Some (File c), Some exe_platform =>
      if decide (Path_div dst ("py2.py3-none-" +:+ exe_platform) = p)
      then Some (File c) else cur
  | _, _ => cur
  end.

(** A staging directory [dst] filled from the directory [src] of the file
    system [s]: the license, then the executables in the order in which
    [src] lists them, a later one replacing an earlier one of the same
    platform; nothing else. *)
Definition staged (s : FS) (src dst p : path) : option node :=
  fold_left (stage_one s dst p) (glob_fs s src (EXE_NAME +:+ "*"))
    (if decide (p = Path_div dst "LICENSE")
     then fs_lookup s (Path_div src "LICENSE") else None).

(** The state in which the directory [p] has been made. *)
Definition with_dir (w : World) (p : path) : World :=
  mkWorld (fs_set (w_fs w) p Dir) (w_cwd w) (w_requests w) (w_checked w).

(** *** [test] *)

(** The first statements of [test]: the wheel is looked for in the
    distribution directory itself, and the command fails when there is
    none.  (What follows installs the wheel and runs the executable.) *)
Definition test_find (sys : System) (machine version : string) : M path :=
  let! found := glob DIST_DIR (test_glob sys machine version) in
  match found with
  | [] => fail
  | wheel :: _ => ret wheel
  end.

(** Every entry of the distribution directory is named as a version. *)
Definition versions_only (s : FS) : Prop :=
  ∀ x, fs_lookup s (DIST_DIR ++ [x]) ≠ None → ∃ str, normalize_version str = Some x.

(** *** The metadata dicts that [assemble] carries along *)

(** The dicts as they can reach a turn of the loops of [assemble]: as they
    are at the start, or as an earlier turn has left them. *)
Definition pypi_carried (pm : pydict) : Prop :=
  pm = PYPI_METADATA
  ∨ ∃ version url,
      pm = dict_set (dict_set PYPI_METADATA "Version" (HStr version))
             "Download-URL" (HStr url).
Definition whl_carried (wm : pydict) : Prop :=
  wm = WHL_METADATA ∨ ∃ tag, wm = dict_set WHL_METADATA "Tag" (HStr tag).
Definition carried (md : pydict * pydict) : Prop := pypi_carried md.1 ∧ whl_carried md.2.

(** Two runs of one command that do the same to the world, fail alike,
    and return results that satisfy [Q]. *)
Definition alike {A} (Q : A → Prop) (r1 r2 : outcome A * World) : Prop :=
  r1.2 = r2.2
  ∧ match r1.1, r2.1 with
    | Ok a1, Ok a2 => Q a1 ∧ Q a2
    | Raise e1, Raise e2 => e1 = e2
    | _, _ => False
    end.

(** *** The wheels a turn of [assemble] writes *)



(** The state of the staging directory of the tag [x] while [build] runs
    on the cache of the file system [s]: staged, or not there. *)
Definition tag_staged (s : FS) (st : FS) (x : string) : Prop :=
  is_dir_node (fs_lookup st (EXE_BUILD_DIR ++ [x])) = true
  ∧ ∀ z l, fs_lookup st (EXE_BUILD_DIR ++ x :: z :: l)
           = staged s (EXE_CACHE_DIR ++ [x]) (EXE_BUILD_DIR ++ [x])
               (EXE_BUILD_DIR ++ x :: z :: l).
Definition tag_absent (st : FS) (x : string) : Prop :=
  ∀ l, fs_lookup st (EXE_BUILD_DIR ++ x :: l) = None.



(** The cache as [download latest --clean] leaves it: the directory of the
    tag [tg] with the files served for it, and nothing else. *)
Definition latest_cached (tg : string) (s : FS) : Prop :=
  is_dir_node (fs_lookup s EXE_CACHE_DIR) = true
  ∧ ∀ x l, fs_lookup s (EXE_CACHE_DIR ++ x :: l)
           = cache_content (EXE_CACHE_DIR ++ [tg]) (served_files "latest")
               (EXE_CACHE_DIR ++ x :: l).

(** The URL the license of the tag [tg] is asked from. *)
Definition license_url (tg : string) : string :=
  "https://raw.githubusercontent.com/" +:+ UPSTREAM +:+ "/" +:+ tg +:+ "/LICENSE".

(** * Part II: the theorems *)

(** One step of a command. *)
Lemma bind_eq {A B} (c : M A) (k : A → M B) (w : World) :
  bind c k w = match c w with
               | (Ok a, w') => k a w'
               | (Raise e, w') => (Raise e, w')
               end.
Proof. reflexivity. Qed.

(** ** Platform mapper *)

Lemma PLATFORMS_lookup (k : string) : PLATFORMS !! k = platform_tag_spec k.
Proof.
  unfold PLATFORMS, PLATFORM_ITEMS, platform_tag_spec. simpl.
  repeat rewrite lookup_insert. rewrite lookup_empty.
  repeat (case_decide; simplify_eq; try reflexivity).
Qed.


Lemma PLATFORMS_keys (k t : string) :
  PLATFORMS !! k = Some t → (k, t) ∈ PLATFORM_ITEMS.
Proof. unfold PLATFORMS. apply elem_of_list_to_map_2. Qed.

(** C10: prefix and suffix are stripped unconditionally: for every key of
    the table the bare key, the key with the [buf-] prefix, the key with
    the [.exe] suffix and the key with both all map to the key's tag. *)
Theorem map_platform_strips_unconditionally (k t : string) :
  PLATFORMS !! k = Some t →
  map_platform k = Some t
  ∧ map_platform ("buf-" +:+ k) = Some t
  ∧ map_platform (k +:+ ".exe") = Some t
  ∧ map_platform ("buf-" +:+ k +:+ ".exe") = Some t.
Proof.
  intros Hk. apply PLATFORMS_keys in Hk. unfold PLATFORM_ITEMS in Hk.
  repeat (apply elem_of_cons in Hk; destruct Hk as [Hk|Hk];
          [ injection Hk as -> ->; vm_compute; auto | ]).
  by apply elem_of_nil in Hk.
Qed.

(** ** Release equality, hashing and sets *)

Lemma Asset_eq_iff (a b : Asset) : Asset_eq a b = true ↔ a = b.
Proof.
  unfold Asset_eq. rewrite !andb_true_iff, !bool_decide_eq_true.
  split.
  - destruct a, b; simpl. intros [[[[-> ->] ->] ->] ->]. reflexivity.
  - intros ->. auto.
Qed.

Lemma list_eq_iff {A} (eq : A → A → bool) (l k : list A) :
  (∀ x y, eq x y = true ↔ x = y) → list_eq eq l k = true ↔ l = k.
Proof.
  intros Heq. revert k. induction l as [|x l IH]; intros [|y k]; simpl;
    try (split; [ discriminate | congruence ]); [ tauto | ].
  rewrite andb_true_iff, Heq, IH. split.
  - intros [-> ->]. reflexivity.
  - intros [= -> ->]. auto.
Qed.

Lemma Release_eq_iff (a b : Release) : Release_eq a b = true ↔ a = b.
Proof.
  unfold Release_eq.
  rewrite !andb_true_iff, !bool_decide_eq_true, (list_eq_iff _ _ _ Asset_eq_iff).
  split.
  - destruct a, b; simpl. intros [[[[[-> ->] ->] ->] ->] ->]. reflexivity.
  - intros ->. auto 10.
Qed.

Lemma set_contains_iff (s : list Release) (r : Release) :
  set_contains s r = true ↔ r ∈ s.
Proof.
  unfold set_contains. rewrite existsb_exists. split.
  - intros (e & Hin & He). apply andb_true_iff in He as [_ He].
    apply Release_eq_iff in He as ->. by apply list_elem_of_In.
  - intros Hin. exists r. split; [ by apply list_elem_of_In | ].
    apply andb_true_iff. split; [ apply Z.eqb_refl | by apply Release_eq_iff ].
Qed.

Lemma fold_set_add (l acc : list Release) :
  NoDup acc →
  NoDup (fold_left set_add l acc)
  ∧ ∀ r, r ∈ fold_left set_add l acc ↔ r ∈ acc ∨ r ∈ l.
Proof.
  revert acc. induction l as [|x l IH]; intros acc Hnd; simpl.
  - split; [ done | ]. intros r. rewrite elem_of_nil. tauto.
  - unfold set_add at 2 4. destruct (set_contains acc x) eqn:Hc.
    + apply set_contains_iff in Hc. destruct (IH acc Hnd) as [H1 H2].
      split; [ done | ]. intros r. rewrite H2, elem_of_cons.
      split; [ tauto | ]. intros [?|[->|?]]; auto.
    + assert (x ∉ acc) as Hx.
      { intros Hin. apply set_contains_iff in Hin. congruence. }
      destruct (IH (acc ++ [x])) as [H1 H2].
      { apply NoDup_app. repeat split; [ done | | apply NoDup_singleton ].
        intros y Hy ->%list_elem_of_singleton. done. }
      split; [ done | ]. intros r.
      rewrite H2, elem_of_app, list_elem_of_singleton, elem_of_cons. tauto.
Qed.

(** C1 (as the code has it): the hash of a release is computed from its
    identifier alone, so releases with equal identifiers hash equal; two
    releases are equal exactly when all their fields are equal; and the
    sets [sync] builds from the fetched releases hold every fetched
    release exactly once per distinct value. *)
Theorem release_set_one_entry_per_value (a b : Release) (fetched : list Release) :
  (release_id a = release_id b → Release_hash a = Release_hash b)
  ∧ (Release_eq a b = true ↔ a = b)
  ∧ NoDup (frozenset fetched)
  ∧ (∀ r, r ∈ frozenset fetched ↔ r ∈ fetched)
  ∧ (∀ fuel w w1 w2 upstream,
       fetch_releases fuel ORIGIN w = (Ok fetched, w1) →
       fetch_releases fuel UPSTREAM w1 = (Ok upstream, w2) →
       sync fuel w = (Ok (frozenset fetched, frozenset upstream), w2)).
Proof.
  split; [ | split; [ apply Release_eq_iff | ] ].
  - unfold Release_hash. intros ->. reflexivity.
  - destruct (fold_set_add fetched [] (NoDup_nil_2)) as [H1 H2].
    split; [ exact H1 | ]. split.
    + intros r. unfold frozenset. rewrite H2, elem_of_nil. tauto.
    + intros fuel w w1 w2 upstream E1 E2. unfold sync.
      rewrite bind_eq, E1, bind_eq, E2. reflexivity.
Qed.

(** ** The development version suffix *)









Lemma substring_all (s : string) : String.substring 0 (String.length s) s = s.
Proof. induction s as [|c s IH]; simpl; [ done | ]. by rewrite IH. Qed.



(** ** The members of an archive *)

Lemma fs_assoc_set_eq (s : FS) (p : path) (n : node) :
  fs_assoc (fs_set s p n) p = Some n.
Proof.
  induction s as [|[q m] s IH]; simpl.
  - by rewrite decide_True.
  - destruct (decide (q = p)) as [->|Hne]; simpl.
    + by rewrite decide_True.
    + by rewrite decide_False.
Qed.

Lemma fs_assoc_set_ne (s : FS) (p q : path) (n : node) :
  p ≠ q → fs_assoc (fs_set s p n) q = fs_assoc s q.
Proof.
  intros Hne. induction s as [|[r m] s IH]; simpl.
  - by rewrite decide_False.
  - destruct (decide (r = p)) as [->|Hrp]; simpl.
    + by rewrite !decide_False.
    + by rewrite IH.
Qed.

Lemma fs_lookup_set_eq (s : FS) (p : path) (n : node) :
  p ≠ [] → fs_lookup (fs_set s p n) p = Some n.
Proof. destruct p; [ done | ]. intros _. apply fs_assoc_set_eq. Qed.

Lemma fs_lookup_set_ne (s : FS) (p q : path) (n : node) :
  p ≠ q → fs_lookup (fs_set s p n) q = fs_lookup s q.
Proof. destruct q; [ done | ]. apply fs_assoc_set_ne. Qed.




(** ** Determinism of assembling *)






(** ** Fetching releases *)






(** ** The verifier *)

Lemma glob_run (d : path) (pat : string) (w : World) :
  glob d pat w = (Ok (glob_fs (w_fs w) d pat), w).
Proof. reflexivity. Qed.

Lemma is_dir_run (p : path) (w : World) :
  is_dir p w = (Ok (is_dir_node (fs_lookup (w_fs w) p)), w).
Proof. reflexivity. Qed.

Lemma is_file_run (p : path) (w : World) :
  is_file p w = (Ok (is_file_node (fs_lookup (w_fs w) p)), w).
Proof. reflexivity. Qed.

Lemma path_exists_run (p : path) (w : World) :
  path_exists p w = (Ok (is_some_node (fs_lookup (w_fs w) p)), w).
Proof. reflexivity. Qed.








(** ** [Asset.download] *)

(** C9: [Asset.download] does nothing: it returns [None] and leaves the
    file system, the working directory, the requests made and the checks
    made as they were; fetching a missing file with the [download]
    command, by contrast, makes a request. *)
Theorem Asset_download_noop (self : Asset) (w : World) :
  Asset_download self w = (Ok tt, w)
  ∧ ∀ dst url, fs_lookup (w_fs w) dst = None →
               w_requests (download_file dst url w).2 = w_requests w ++ [url].
Proof.
  split; [ reflexivity | ]. intros dst url Hdst.
  unfold download_file, path_exists, session_get, raise_for_status, write_bytes,
    put_fs, get_fs, bind, ret, raise. simpl. rewrite Hdst. simpl.
  destruct ((400 <=? _) && _); simpl; [ done | ]. rewrite Hdst.
  destruct (fs_lookup (w_fs w) (parent dst)) as [[|]|]; reflexivity.
Qed.

(** ** Idempotence: how the file system may change *)

Lemma same_kind_refl (n : node) : same_kind n n.
Proof. by destruct n. Qed.

Lemma same_kind_trans (n m k : node) : same_kind n m → same_kind m k → same_kind n k.
Proof. by destruct n, m, k. Qed.

Lemma keeps_is_some (s t : FS) (p : path) :
  keeps s t → is_some_node (fs_lookup s p) = true → is_some_node (fs_lookup t p) = true.
Proof.
  intros Hk Hp. destruct (fs_lookup s p) as [n|] eqn:E; [ | done ].
  destruct (Hk p n E) as (m & -> & _). done.
Qed.

Lemma keeps_is_dir (s t : FS) (p : path) :
  keeps s t → is_dir_node (fs_lookup s p) = true → is_dir_node (fs_lookup t p) = true.
Proof.
  intros Hk Hp. destruct (fs_lookup s p) as [[|]|] eqn:E; try done.
  destruct (Hk p _ E) as (m & -> & Hm). by destruct m.
Qed.

Lemma ext_refl (P : path → Prop) (s : FS) : ext P s s.
Proof.
  split; [ | by split ]. intros p n Hp. exists n. split; [ done | apply same_kind_refl ].
Qed.

Lemma ext_trans (P : path → Prop) (s t u : FS) : ext P s t → ext P t u → ext P s u.
Proof.
  intros [K1 [L1 C1]] [K2 [L2 C2]]. split; [ | split ].
  - intros p n Hp. destruct (K1 p n Hp) as (m & Hm & S1).
    destruct (K2 p m Hm) as (k & Hk & S2). exists k. split; [ done | ].
    by eapply same_kind_trans.
  - intros p Hp. by rewrite L2, L1.
  - intros d Hd. by rewrite C2, C1.
Qed.

Lemma child_name_Some (d q : path) (x : string) :
  child_name d q = Some x → q = d ++ [x].
Proof.
  unfold child_name. destruct q as [|c q]; [ done | ].
  case_decide as Hd; [ | done ]. intros Hl.
  apply last_Some in Hl as (l' & Hl'). rewrite Hl' in Hd |- *.
  rewrite removelast_last in Hd. by subst.
Qed.

Lemma fs_children_set (s : FS) (p d : path) (n : node) :
  child_name d p = None → fs_children (fs_set s p n) d = fs_children s d.
Proof.
  intros Hc. unfold fs_children, omap. induction s as [|[q m] s IH]; simpl.
  - by rewrite Hc.
  - destruct (decide (q = p)) as [->|Hne]; simpl; [ done | ]. by rewrite IH.
Qed.

Lemma ext_fs_set (P : path → Prop) (s : FS) (p : path) (n : node) :
  P p → (∀ m, fs_lookup s p = Some m → same_kind m n) → ext P s (fs_set s p n).
Proof.
  intros HP Hkind. split; [ | split ].
  - intros q m Hq. destruct (decide (p = q)) as [<-|Hne].
    + destruct p as [|c p].
      * exists Dir. split; [ done | ]. simpl in Hq. injection Hq as <-. done.
      * exists n. split; [ by apply fs_lookup_set_eq | by apply Hkind ].
    + exists m. split; [ by rewrite fs_lookup_set_ne | apply same_kind_refl ].
  - intros q Hq. apply fs_lookup_set_ne. by intros ->.
  - intros d Hd. apply fs_children_set.
    destruct (child_name d p) as [x|] eqn:E; [ | done ].
    apply child_name_Some in E. subst p. by destruct (Hd x).
Qed.

(** *** Rules for [Touches] *)

Lemma Touches_fs_const {A} (P : path → Prop) (c : M A) :
  (∀ w, w_fs (c w).2 = w_fs w) → Touches P c.
Proof.
  intros H w r w' E. specialize (H w). rewrite E in H. simpl in H. rewrite H.
  apply ext_refl.
Qed.

Lemma Touches_ret {A} (P : path → Prop) (a : A) : Touches P (ret a).
Proof. by apply Touches_fs_const. Qed.

Lemma Touches_raise {A} (P : path → Prop) (e : exn) : Touches P (@raise A e).
Proof. by apply Touches_fs_const. Qed.

Lemma Touches_bind {A B} (P : path → Prop) (c : M A) (k : A → M B) :
  Touches P c → (∀ a, Touches P (k a)) → Touches P (bind c k).
Proof.
  intros Hc Hk w r w' E. rewrite bind_eq in E.
  destruct (c w) as [[a|e] w1] eqn:Ec.
  - eapply ext_trans; [ by eapply Hc | by eapply Hk ].
  - injection E as <- <-. by eapply Hc.
Qed.

Lemma Touches_try {A} (P : path → Prop) (c : M A) : Touches P c → Touches P (try c).
Proof.
  intros Hc w r w' E. unfold try in E. destruct (c w) as [r1 w1] eqn:Ec.
  injection E as <- <-. by eapply Hc.
Qed.

Lemma Touches_for_each {A} (P : path → Prop) (l : list A) (body : A → M unit) :
  (∀ x, Touches P (body x)) → Touches P (for_each l body).
Proof.
  intros Hb. induction l as [|x l IH]; simpl.
  - apply Touches_ret.
  - apply Touches_bind; [ apply Hb | intros _; apply IH ].
Qed.

Lemma Touches_for_acc {A S} (P : path → Prop) (l : list A) (body : S → A → M S) :
  (∀ acc x, Touches P (body acc x)) → ∀ acc, Touches P (for_acc l acc body).
Proof.
  intros Hb. induction l as [|x l IH]; intros acc; simpl.
  - apply Touches_ret.
  - apply Touches_bind; [ apply Hb | intros acc'; apply IH ].
Qed.

Lemma Touches_get_fs (P : path → Prop) : Touches P get_fs.
Proof. by apply Touches_fs_const. Qed.

Lemma Touches_is_dir (P : path → Prop) (p : path) : Touches P (is_dir p).
Proof. by apply Touches_fs_const. Qed.

Lemma Touches_is_file (P : path → Prop) (p : path) : Touches P (is_file p).
Proof. by apply Touches_fs_const. Qed.

Lemma Touches_path_exists (P : path → Prop) (p : path) : Touches P (path_exists p).
Proof. by apply Touches_fs_const. Qed.

Lemma Touches_glob (P : path → Prop) (d : path) (pat : string) : Touches P (glob d pat).
Proof. by apply Touches_fs_const. Qed.

Lemma Touches_session_get (P : path → Prop) (url : string) : Touches P (session_get url).
Proof. by apply Touches_fs_const. Qed.

Lemma Touches_raise_for_status (P : path → Prop) (r : Response) :
  Touches P (raise_for_status r).
Proof. apply Touches_fs_const. intros w. unfold raise_for_status. by case_match. Qed.

Lemma Touches_gh_token (P : path → Prop) : Touches P gh_token.
Proof. apply Touches_fs_const. intros w. unfold gh_token. by repeat case_match. Qed.

Lemma Touches_read_bytes (P : path → Prop) (p : path) : Touches P (read_bytes p).
Proof.
  apply Touches_fs_const. intros w. unfold read_bytes. rewrite bind_eq. simpl.
  by repeat case_match.
Qed.

Lemma Touches_put_set (P : path → Prop) (s : FS) (p : path) (n : node) (w : World) :
  P p → (∀ m, fs_lookup s p = Some m → same_kind m n) → s = w_fs w →
  ∀ r w', put_fs (fs_set s p n) w = (r, w') → ext P (w_fs w) (w_fs w').
Proof. intros HP Hk -> r w' [= <- <-]. simpl. by apply ext_fs_set. Qed.

Lemma Touches_os_mkdir (P : path → Prop) (p : path) : P p → Touches P (os_mkdir p).
Proof.
  intros HP w r w' E. unfold os_mkdir in E. rewrite bind_eq in E. simpl in E.
  destruct (fs_lookup (w_fs w) p) eqn:Hp.
  { injection E as <- <-. apply ext_refl. }
  destruct (fs_lookup (w_fs w) (parent p)) as [[|]|];
    try (injection E as <- <-; apply ext_refl).
  eapply Touches_put_set; [ exact HP | | reflexivity | exact E ].
  intros m Hm. congruence.
Qed.

Lemma Touches_write_bytes (P : path → Prop) (p : path) (data : bytes) :
  P p → Touches P (write_bytes p data).
Proof.
  intros HP w r w' E. unfold write_bytes in E. rewrite bind_eq in E. simpl in E.
  destruct (fs_lookup (w_fs w) p) as [[c|]|] eqn:Hp;
    try (injection E as <- <-; apply ext_refl);
    (destruct (fs_lookup (w_fs w) (parent p)) as [[|]|];
     try (injection E as <- <-; apply ext_refl));
    (eapply Touches_put_set; [ exact HP | | reflexivity | exact E ]);
    intros m Hm; rewrite Hp in Hm; by simplify_eq.
Qed.

(** Reduces a [Touches] goal to the side conditions of its writes, by the
    structure of the command. *)
Ltac touches_leaf :=
  first
    [ apply Touches_ret | apply Touches_raise | apply Touches_get_fs
    | apply Touches_is_dir | apply Touches_is_file | apply Touches_path_exists
    | apply Touches_glob | apply Touches_session_get
    | apply Touches_raise_for_status | apply Touches_gh_token
    | apply Touches_read_bytes | apply Touches_os_mkdir
    | apply Touches_write_bytes ].

Ltac touches_step leaf :=
  first
    [ touches_leaf
    | leaf
    | apply Touches_try
    | apply Touches_bind; [ | intros ? ]
    | apply Touches_for_each; intros ?
    | apply Touches_for_acc; intros ? ?
    | progress unfold fail
    | match goal with
      | |- Touches _ (if ?b then _ else _) => destruct b
      | |- Touches _ (match ?x with _ => _ end) => destruct x
      end ].

Ltac touches := repeat (touches_step fail).

Lemma Touches_mkdir_flat (P : path → Prop) (p : path) (exist_ok : bool) :
  P p → Touches P (mkdir_flat p exist_ok).
Proof. intros HP. unfold mkdir_flat. touches; done. Qed.

Lemma mkdir_parents_unfold (rp : list string) (exist_ok : bool) :
  mkdir_parents rp exist_ok
  = (let p := rev rp in
     let! r := try (os_mkdir p) in
     match r with
     | Ok _ => ret tt
     | Raise FileNotFoundError =>
         match rp with
         | [] => raise FileNotFoundError
         | _ :: rparent => mkdir_parents rparent true ;;; mkdir_flat p exist_ok
         end
     | Raise e =>
         let! d := is_dir p in
         if negb exist_ok || negb d then raise e else ret tt
     end).
Proof. by destruct rp. Qed.

Lemma Touches_mkdir_parents (P : path → Prop) (rp : list string) :
  ∀ exist_ok, (∀ q, q `prefix_of` rev rp → P q) → Touches P (mkdir_parents rp exist_ok).
Proof.
  induction rp as [|x rp IH]; intros exist_ok HP; rewrite mkdir_parents_unfold.
  - touches; by apply HP.
  - assert (P (rev (x :: rp))) as Hp by (by apply HP).
    cbv zeta. apply Touches_bind; [ apply Touches_try, Touches_os_mkdir, Hp | ].
    intros [a|e]; [ touches | ].
    destruct e; repeat (touches_step ltac:(first [ apply Touches_mkdir_flat | apply IH ]));
      try done.
    intros q Hq. apply HP. simpl. by apply prefix_app_r.
Qed.

Lemma Touches_mkdir (P : path → Prop) (p : path) (parents exist_ok : bool) :
  (∀ q, q `prefix_of` p → P q) → Touches P (mkdir p parents exist_ok).
Proof.
  intros HP. unfold mkdir. destruct parents.
  - apply Touches_mkdir_parents. by rewrite rev_involutive.
  - by apply Touches_mkdir_flat, HP.
Qed.

Lemma Touches_copyfile (P : path → Prop) (src dst : path) :
  P dst → Touches P (copyfile src dst).
Proof. intros HP. unfold copyfile. touches. done. Qed.

Lemma Touches_maybe_clean (P : path → Prop) (d : path) :
  (∀ q, q `prefix_of` d → P q) → Touches P (maybe_clean false d).
Proof.
  intros HP. unfold maybe_clean. cbn [andb].
  repeat (touches_step ltac:(apply Touches_mkdir)). done.
Qed.

(** *** Rules for [Settles] *)

Lemma Settles_ret {A} (P : path → Prop) (a : A) : Settles P (ret a).
Proof. intros w a' w' [= <- <-] t _. by exists t. Qed.

Lemma Settles_raise {A} (P : path → Prop) (e : exn) : Settles P (@raise A e).
Proof. intros w a w' E. discriminate. Qed.

Lemma Settles_bind {A B} (P : path → Prop) (c : M A) (k : A → M B) :
  Settles P c → (∀ a, Settles P (k a)) → (∀ a, Touches P (k a)) →
  Settles P (bind c k).
Proof.
  intros Hc Hk Tk w b w' E t Ht. rewrite bind_eq in E.
  destruct (c w) as [[a|e] w1] eqn:Ec; [ | discriminate ].
  destruct (Hc w a w1 Ec t) as (t1 & Et1 & Ft1).
  { eapply ext_trans; [ by eapply Tk | done ]. }
  destruct (Hk a w1 b w' E t1) as (t2 & Et2 & Ft2); [ by rewrite Ft1 | ].
  exists t2. rewrite bind_eq, Et1. split; [ done | congruence ].
Qed.

Lemma Settles_for_each {A} (P : path → Prop) (l : list A) (body : A → M unit) :
  (∀ x, Settles P (body x)) → (∀ x, Touches P (body x)) →
  Settles P (for_each l body).
Proof.
  intros Hs Ht. induction l as [|x l IH]; simpl.
  - apply Settles_ret.
  - apply Settles_bind; [ apply Hs | intros _; apply IH | ].
    intros _. by apply Touches_for_each.
Qed.

(** A command that answers from the file system at paths outside [P]
    answers the same in every extension. *)
Lemma Settles_query {A} (P : path → Prop) (c : M A) (f : FS → outcome A) :
  (∀ w, c w = (f (w_fs w), w)) →
  (∀ s t, agrees P s t → f t = f s) →
  Settles P c.
Proof.
  intros Hc Hf w a w' E t [_ Ht]. rewrite Hc in E. injection E as E <-.
  exists t. rewrite Hc, (Hf _ _ Ht), E. done.
Qed.

Lemma Settles_is_dir (P : path → Prop) (p : path) : ¬ P p → Settles P (is_dir p).
Proof.
  intros HP. apply (Settles_query P _ (fun s => Ok (is_dir_node (fs_lookup s p)))).
  - done.
  - intros s t [Hl _]. by rewrite Hl.
Qed.

Lemma Settles_is_file (P : path → Prop) (p : path) : ¬ P p → Settles P (is_file p).
Proof.
  intros HP. apply (Settles_query P _ (fun s => Ok (is_file_node (fs_lookup s p)))).
  - done.
  - intros s t [Hl _]. by rewrite Hl.
Qed.

Lemma Settles_read_bytes (P : path → Prop) (p : path) : ¬ P p → Settles P (read_bytes p).
Proof.
  intros HP.
  apply (Settles_query P _
           (fun s => match fs_lookup s p with
                     | Some (File c) => Ok c
                     | Some Dir => Raise IsADirectoryError
                     | None => Raise FileNotFoundError
                     end)).
  - intros w. unfold read_bytes. rewrite bind_eq. simpl. by repeat case_match.
  - intros s t [Hl _]. by rewrite Hl.
Qed.

Lemma Settles_glob (P : path → Prop) (d : path) (pat : string) :
  ¬ P d → (∀ x, ¬ P (d ++ [x])) → Settles P (glob d pat).
Proof.
  intros HP HC. apply (Settles_query P _ (fun s => Ok (glob_fs s d pat))).
  - done.
  - intros s t [Hl Hc]. unfold glob_fs. by rewrite Hl, Hc.
Qed.

(** A command whose answer does not depend on the state, and which leaves
    the file system alone, is settled. *)
Lemma Settles_const {A} (P : path → Prop) (c : M A) (r : outcome A) :
  (∀ w, (c w).1 = r ∧ w_fs (c w).2 = w_fs w) → Settles P c.
Proof.
  intros Hc w a w' E t _. destruct (Hc w) as [H1 _]. destruct (Hc t) as [H2 H3].
  rewrite E in H1. simpl in H1. destruct (c t) as [r' t'] eqn:Et. simpl in *.
  exists t'. split; [ congruence | done ].
Qed.

Lemma Settles_session_get (P : path → Prop) (url : string) : Settles P (session_get url).
Proof. by apply (Settles_const P _ (Ok (http_get url))). Qed.

Lemma Settles_raise_for_status (P : path → Prop) (r : Response) :
  Settles P (raise_for_status r).
Proof.
  apply (Settles_const P _
           (if (400 <=? status_code r) && (status_code r <? 600)
            then Raise (HTTPError (status_code r)) else Ok tt)).
  intros w. unfold raise_for_status. by case_match.
Qed.

Lemma Settles_gh_token (P : path → Prop) : Settles P gh_token.
Proof.
  apply (Settles_const P _
           (match (match GITHUB_TOKEN with Some t => Some t | None => GH_TOKEN end) with
            | None => Raise (SystemExit 1)
            | Some it => Ok it
            end)).
  intros w. unfold gh_token. by repeat case_match.
Qed.

Lemma Settles_version_suffix_of (P : path → Prop) (dev : bool) :
  Settles P (version_suffix_of dev).
Proof.
  apply (Settles_const P _
           (if dev
            then match git_log_ct with
                 | None => Raise CalledProcessError
                 | Some ct => Ok (".dev" +:+ strftime_YmdHMS (gmtime ct))
                 end
            else Ok "")).
  intros w. unfold version_suffix_of. by repeat case_match.
Qed.

(** *** Directories, once made, stay *)

Lemma os_mkdir_cases (p : path) (w : World) :
  os_mkdir p w
  = match fs_lookup (w_fs w) p with
    | Some _ => (Raise FileExistsError, w)
    | None =>
        match fs_lookup (w_fs w) (parent p) with
        | None => (Raise FileNotFoundError, w)
        | Some (File _) => (Raise NotADirectoryError, w)
        | Some Dir =>
            (Ok tt, mkWorld (fs_set (w_fs w) p Dir) (w_cwd w) (w_requests w) (w_checked w))
        end
    end.
Proof. unfold os_mkdir. rewrite bind_eq. simpl. by repeat case_match. Qed.

Lemma mkdir_flat_makes_dir (p : path) (exist_ok : bool) (w w' : World) :
  mkdir_flat p exist_ok w = (Ok tt, w') →
  is_dir_node (fs_lookup (w_fs w') p) = true.
Proof.
  unfold mkdir_flat, try. rewrite bind_eq, os_mkdir_cases.
  destruct (fs_lookup (w_fs w) p) as [n|] eqn:Hp.
  - rewrite bind_eq, is_dir_run, Hp.
    destruct (negb exist_ok || negb (is_dir_node (Some n))) eqn:Hb; [ done | ].
    intros [= <-]. rewrite Hp. apply orb_false_iff in Hb as [_ Hb].
    by apply negb_false_iff in Hb.
  - destruct (fs_lookup (w_fs w) (parent p)) as [[|]|] eqn:Hpp; try done.
    + rewrite bind_eq, is_dir_run, Hp. simpl. rewrite orb_true_r. done.
    + intros [= <-]. simpl. rewrite fs_lookup_set_eq; [ done | ].
      intros ->. done.
Qed.

Lemma mkdir_parents_makes_dir (rp : list string) (exist_ok : bool) (w w' : World) :
  mkdir_parents rp exist_ok w = (Ok tt, w') →
  is_dir_node (fs_lookup (w_fs w') (rev rp)) = true.
Proof.
  rewrite mkdir_parents_unfold. cbv zeta. unfold try. rewrite bind_eq, os_mkdir_cases.
  destruct (fs_lookup (w_fs w) (rev rp)) as [n|] eqn:Hp.
  - rewrite bind_eq, is_dir_run, Hp.
    destruct (negb exist_ok || negb (is_dir_node (Some n))) eqn:Hb; [ done | ].
    intros [= <-]. rewrite Hp. apply orb_false_iff in Hb as [_ Hb].
    by apply negb_false_iff in Hb.
  - destruct (fs_lookup (w_fs w) (parent (rev rp))) as [[|]|] eqn:Hpp.
    + rewrite bind_eq, is_dir_run, Hp. simpl. rewrite orb_true_r. done.
    + intros [= <-]. simpl. rewrite fs_lookup_set_eq; [ done | ].
      intros E. rewrite E in Hp. done.
    + destruct rp as [|x rp]; [ done | ]. rewrite bind_eq.
      destruct (mkdir_parents rp true w) as [[[]|e] w1]; [ | done ].
      apply mkdir_flat_makes_dir.
Qed.

Lemma mkdir_makes_dir (p : path) (parents exist_ok : bool) (w w' : World) :
  mkdir p parents exist_ok w = (Ok tt, w') →
  is_dir_node (fs_lookup (w_fs w') p) = true.
Proof.
  unfold mkdir. destruct parents.
  - intros H. apply mkdir_parents_makes_dir in H. by rewrite rev_involutive in H.
  - apply mkdir_flat_makes_dir.
Qed.

(** [mkdir(parents=True, exist_ok=True)] of a directory does nothing. *)
Lemma mkdir_of_dir (p : path) (w : World) :
  is_dir_node (fs_lookup (w_fs w) p) = true → mkdir p true true w = (Ok tt, w).
Proof.
  intros Hd. unfold mkdir. rewrite mkdir_parents_unfold. cbv zeta.
  rewrite rev_involutive. unfold try. rewrite bind_eq, os_mkdir_cases.
  destruct (fs_lookup (w_fs w) p) as [n|] eqn:Hp; [ | done ].
  rewrite bind_eq, is_dir_run, Hp, Hd. done.
Qed.

(** [mkdir(parents=True)] of an existing entry raises, and changes nothing. *)
Lemma mkdir_of_existing (p : path) (w : World) :
  is_some_node (fs_lookup (w_fs w) p) = true →
  mkdir p true false w = (Raise FileExistsError, w).
Proof.
  intros Hd. unfold mkdir. rewrite mkdir_parents_unfold. cbv zeta.
  rewrite rev_involutive. unfold try. rewrite bind_eq, os_mkdir_cases.
  destruct (fs_lookup (w_fs w) p) as [n|] eqn:Hp; [ | done ].
  rewrite bind_eq, is_dir_run. done.
Qed.

Lemma Settles_mkdir (P : path → Prop) (p : path) : Settles P (mkdir p true true).
Proof.
  intros w [] w' E t [Hk _]. exists t. split; [ | done ].
  apply mkdir_of_dir. eapply keeps_is_dir; [ exact Hk | ]. by eapply mkdir_makes_dir.
Qed.

Lemma maybe_clean_false (d : path) (w : World) :
  maybe_clean false d w = mkdir d true true w.
Proof. unfold maybe_clean. rewrite bind_eq, path_exists_run. cbn [andb]. done. Qed.

Lemma Settles_maybe_clean (P : path → Prop) (d : path) : Settles P (maybe_clean false d).
Proof.
  intros w a w' E t Ht. rewrite maybe_clean_false in E |- *.
  by eapply Settles_mkdir.
Qed.

(** *** [download] *)

Lemma Touches_download_file (P : path → Prop) (dst : path) (url : string) :
  P dst → Touches P (download_file dst url).
Proof. intros HP. unfold download_file. touches. done. Qed.

Lemma download_file_skips (dst : path) (url : string) (w : World) :
  is_some_node (fs_lookup (w_fs w) dst) = true → download_file dst url w = (Ok tt, w).
Proof. intros H. unfold download_file. rewrite bind_eq, path_exists_run, H. done. Qed.

Lemma write_bytes_makes (p : path) (data : bytes) (w w' : World) :
  write_bytes p data w = (Ok tt, w') → is_some_node (fs_lookup (w_fs w') p) = true.
Proof.
  unfold write_bytes. rewrite bind_eq. simpl.
  assert (fs_lookup (w_fs w) p ≠ Some Dir → p ≠ []) as Hnil.
  { intros H ->. by apply H. }
  destruct (fs_lookup (w_fs w) p) as [[c|]|] eqn:Hp; try done;
    (destruct (fs_lookup (w_fs w) (parent p)) as [[|]|]; try done);
    intros [= <-]; simpl; rewrite fs_lookup_set_eq; try done; by apply Hnil.
Qed.

Lemma download_file_makes (dst : path) (url : string) (w w' : World) :
  download_file dst url w = (Ok tt, w') →
  is_some_node (fs_lookup (w_fs w') dst) = true.
Proof.
  unfold download_file. rewrite bind_eq, path_exists_run.
  destruct (is_some_node (fs_lookup (w_fs w) dst)) eqn:He.
  - by intros [= <-].
  - rewrite bind_eq. unfold session_get at 1. rewrite bind_eq.
    destruct (raise_for_status _ _) as [[[]|e] w1]; [ | done ].
    apply write_bytes_makes.
Qed.

Lemma Settles_download_file (P : path → Prop) (dst : path) (url : string) :
  Settles P (download_file dst url).
Proof.
  intros w [] w' E t [Hk _]. exists t. split; [ | done ].
  apply download_file_skips. eapply keeps_is_some; [ exact Hk | ].
  by eapply download_file_makes.
Qed.

Lemma Settles_download (tag : string) : Settles (fun _ => True) (download tag false).
Proof.
  unfold download.
  apply Settles_bind; [ apply Settles_maybe_clean | intros _ | intros _ ].
  2: { repeat (touches_step ltac:(first [ apply Touches_mkdir
                                       | apply Touches_download_file ])); done. }
  apply Settles_bind; [ apply Settles_gh_token | intros _ | intros _ ].
  2: { repeat (touches_step ltac:(first [ apply Touches_mkdir
                                       | apply Touches_download_file ])); done. }
  apply Settles_bind; [ apply Settles_session_get | intros response | intros response ].
  2: { repeat (touches_step ltac:(first [ apply Touches_mkdir
                                       | apply Touches_download_file ])); done. }
  apply Settles_bind; [ apply Settles_raise_for_status | intros _ | intros _ ].
  2: { repeat (touches_step ltac:(first [ apply Touches_mkdir
                                       | apply Touches_download_file ])); done. }
  apply Settles_bind; [ apply Settles_mkdir | intros _ | intros _ ].
  2: { repeat (touches_step ltac:(first [ apply Touches_download_file ])); done. }
  apply Settles_bind; [ apply Settles_download_file | intros _ | intros _ ].
  2: { repeat (touches_step ltac:(first [ apply Touches_download_file ])); done. }
  apply Settles_for_each.
  - intros asset. destruct (asset_filter asset.1);
      [ apply Settles_download_file | apply Settles_ret ].
  - intros asset. destruct (asset_filter asset.1);
      [ by apply Touches_download_file | apply Touches_ret ].
Qed.

Lemma download_idempotent (tag : string) (w w1 : World) :
  download tag false w = (Ok tt, w1) →
  ∃ w2, download tag false w1 = (Ok tt, w2) ∧ w_fs w2 = w_fs w1.
Proof. intros E. eapply Settles_download; [ exact E | apply ext_refl ]. Qed.

(** *** Where the directories lie *)

Lemma EXE_CACHE_DIR_eq : EXE_CACHE_DIR = ROOT_DIR ++ [".cache"; "buf"].
Proof. unfold EXE_CACHE_DIR, CACHE_DIR, Path_div. by rewrite <- app_assoc. Qed.

Lemma EXE_BUILD_DIR_eq : EXE_BUILD_DIR = ROOT_DIR ++ ["build"; "buf"].
Proof. unfold EXE_BUILD_DIR, BUILD_DIR, Path_div. by rewrite <- app_assoc. Qed.

Lemma DIST_DIR_eq : DIST_DIR = ROOT_DIR ++ ["dist"].
Proof. reflexivity. Qed.

Lemma PRJ_DESC_PATH_eq : PRJ_DESC_PATH = ROOT_DIR ++ ["README.md"].
Proof. reflexivity. Qed.

Lemma on_branch_above (R q : path) : q `prefix_of` R → on_branch R q.
Proof. by left. Qed.

Lemma on_branch_below (R l : path) : on_branch R (R ++ l).
Proof. right. by apply prefix_app_r. Qed.

Lemma on_branch_prefix (R l q : path) : q `prefix_of` R ++ l → on_branch R q.
Proof.
  intros Hq. apply (prefix_weak_total q R (R ++ l)); [ done | by apply prefix_app_r ].
Qed.

Lemma not_on_branch (R l1 l2 : path) (a b : string) :
  a ≠ b → ¬ on_branch (R ++ a :: l1) (R ++ b :: l2).
Proof.
  intros Hab [H|H]; apply prefix_app_inv, prefix_cons_inv_1 in H; congruence.
Qed.

(** *** [build] *)

Lemma is_dir_is_some (n : option node) : is_dir_node n = true → is_some_node n = true.
Proof. by destruct n as [[|]|]. Qed.

Lemma mkdir_flat_not_exists_error (p : path) (exist_ok : bool) (w w' : World) :
  fs_lookup (w_fs w) p = None →
  mkdir_flat p exist_ok w ≠ (Raise FileExistsError, w').
Proof.
  intros Hp. unfold mkdir_flat, try. rewrite bind_eq, os_mkdir_cases, Hp.
  destruct (fs_lookup (w_fs w) (parent p)) as [[|]|]; try done.
  rewrite bind_eq, is_dir_run, Hp. simpl. rewrite orb_true_r. done.
Qed.

(** When [mkdir(parents=True)] raises [FileExistsError], the entry was
    there before and nothing has been changed. *)
Lemma mkdir_parents_exists_error (rp : list string) :
  ∀ exist_ok w w',
    mkdir_parents rp exist_ok w = (Raise FileExistsError, w') →
    w' = w ∧ is_some_node (fs_lookup (w_fs w) (rev rp)) = true.
Proof.
  induction rp as [|x rp IH]; intros exist_ok w w';
    rewrite mkdir_parents_unfold; cbv zeta; unfold try;
    rewrite bind_eq, os_mkdir_cases.
  - simpl. rewrite bind_eq, is_dir_run. simpl.
    destruct (negb exist_ok || false); [ | done ]. by intros [= <-].
  - destruct (fs_lookup (w_fs w) (rev (x :: rp))) as [n|] eqn:Hp.
    { rewrite bind_eq, is_dir_run, Hp.
      destruct (negb exist_ok || _); [ | done ]. by intros [= <-]. }
    destruct (fs_lookup (w_fs w) (parent (rev (x :: rp)))) as [[|]|] eqn:Hpp.
    + rewrite bind_eq, is_dir_run, Hp. simpl. rewrite orb_true_r. done.
    + done.
    + rewrite bind_eq.
      destruct (mkdir_parents rp true w) as [[[]|e] w1] eqn:Erec.
      * intros E. exfalso. revert E. apply mkdir_flat_not_exists_error.
        pose proof (Touches_mkdir_parents (fun q => q `prefix_of` rev rp) rp true
                      ltac:(done) w _ _ Erec) as [_ [Hl _]].
        rewrite Hl; [ done | ]. simpl. intros Hpre.
        apply prefix_length in Hpre. rewrite length_app in Hpre. simpl in Hpre. lia.
      * intros [= -> <-]. apply IH in Erec as [_ Hex].
        unfold parent in Hpp. simpl in Hpp. rewrite removelast_last in Hpp.
        by rewrite Hpp in Hex.
Qed.

Lemma mkdir_exists_error (p : path) (w w' : World) :
  mkdir p true false w = (Raise FileExistsError, w') →
  w' = w ∧ is_some_node (fs_lookup (w_fs w) p) = true.
Proof.
  unfold mkdir. intros H. apply mkdir_parents_exists_error in H.
  by rewrite rev_involutive in H.
Qed.

Lemma Touches_build_exe (dst : string) (exe_src : path) :
  Touches (on_branch EXE_BUILD_DIR) (build_exe (Path_div EXE_BUILD_DIR dst) exe_src).
Proof.
  unfold build_exe. repeat (touches_step ltac:(apply Touches_copyfile)).
  unfold Path_div. rewrite <- app_assoc. apply on_branch_below.
Qed.

Lemma Touches_build_tag (src : path) :
  Touches (on_branch EXE_BUILD_DIR) (build_tag src).
Proof.
  unfold build_tag.
  repeat (touches_step ltac:(first [ apply Touches_copyfile | apply Touches_mkdir
                                   | apply Touches_build_exe ])).
  - intros q. apply on_branch_prefix.
  - unfold Path_div. rewrite <- app_assoc. apply on_branch_below.
Qed.

Lemma Settles_build_tag (src : path) :
  ¬ on_branch EXE_BUILD_DIR src → Settles (on_branch EXE_BUILD_DIR) (build_tag src).
Proof.
  intros Hsrc w [] w' E t Ht.
  pose proof (Touches_build_tag src w _ _ E) as Hww'.
  assert (fs_lookup (w_fs t) src = fs_lookup (w_fs w) src) as Hlk.
  { destruct (ext_trans _ _ _ _ Hww' Ht) as [_ [Hl _]]. by apply Hl. }
  exists t. split; [ | done ].
  unfold build_tag in E |- *. rewrite bind_eq, is_dir_run in E |- *. rewrite Hlk.
  destruct (is_dir_node (fs_lookup (w_fs w) src)); [ | done ]. cbn [negb] in E |- *.
  assert (is_some_node (fs_lookup (w_fs t) (Path_div EXE_BUILD_DIR (name src))) = true)
    as Hex.
  { eapply keeps_is_some; [ apply Ht | ].
    rewrite bind_eq in E. unfold try in E.
    destruct (mkdir (Path_div EXE_BUILD_DIR (name src)) true false w)
      as [[[]|e] w1] eqn:Emk.
    - apply is_dir_is_some. eapply keeps_is_dir; [ | by eapply mkdir_makes_dir ].
      eapply (Touches_bind (on_branch EXE_BUILD_DIR)
                (copyfile (Path_div src "LICENSE")
                   (Path_div (Path_div EXE_BUILD_DIR (name src)) "LICENSE")));
        [ | | exact E ].
      + apply Touches_copyfile. unfold Path_div. rewrite <- app_assoc.
        apply on_branch_below.
      + intros []. apply Touches_bind; [ apply Touches_glob | ].
        intros exes. apply Touches_for_each. intros x. apply Touches_build_exe.
    - destruct e; try done. injection E as Hw. rewrite <- Hw.
      by apply mkdir_exists_error in Emk as [-> ?]. }
  rewrite bind_eq. unfold try. by rewrite (mkdir_of_existing _ _ Hex).
Qed.

Lemma Settles_bind_run {A B} (P : path → Prop) (c : M A) (k : A → M B) :
  Settles P c →
  (∀ a, (∃ w w', c w = (Ok a, w')) → Settles P (k a)) →
  (∀ a, Touches P (k a)) →
  Settles P (bind c k).
Proof.
  intros Hc Hk Tk w b w' E t Ht. rewrite bind_eq in E.
  destruct (c w) as [[a|e] w1] eqn:Ec; [ | discriminate ].
  destruct (Hc w a w1 Ec t) as (t1 & Et1 & Ft1).
  { eapply ext_trans; [ by eapply Tk | done ]. }
  destruct (Hk a ltac:(eauto) w1 b w' E t1) as (t2 & Et2 & Ft2); [ by rewrite Ft1 | ].
  exists t2. rewrite bind_eq, Et1. split; [ done | congruence ].
Qed.

Lemma Settles_for_each_Forall {A} (P : path → Prop) (l : list A) (body : A → M unit) :
  Forall (fun x => Settles P (body x)) l → (∀ x, Touches P (body x)) →
  Settles P (for_each l body).
Proof.
  intros Hs Ht. induction Hs as [|x l Hx Hl IH]; simpl.
  - apply Settles_ret.
  - apply Settles_bind; [ apply Hx | intros _; apply IH | ].
    intros _. by apply Touches_for_each.
Qed.

Lemma glob_elements (d : path) (pat : string) (w w' : World) (l : list path) :
  glob d pat w = (Ok l, w') → Forall (fun p => ∃ x, p = d ++ [x]) l.
Proof.
  rewrite glob_run. intros [= <- _]. unfold glob_fs.
  destruct (is_dir_node _); [ | constructor ].
  apply Forall_forall. intros p Hp. apply list_elem_of_In in Hp.
  apply in_map_iff in Hp as (x & <- & _). by exists x.
Qed.

Lemma Settles_build (tag_glob : string) :
  Settles (on_branch EXE_BUILD_DIR) (build false tag_glob).
Proof.
  unfold build.
  apply Settles_bind; [ apply Settles_maybe_clean | intros _ | intros _ ].
  2: { apply Touches_bind; [ apply Touches_glob | ].
       intros srcs. apply Touches_for_each, Touches_build_tag. }
  apply Settles_bind_run.
  - rewrite EXE_CACHE_DIR_eq, EXE_BUILD_DIR_eq. apply Settles_glob.
    + by apply not_on_branch.
    + intros x. rewrite <- app_assoc. by apply not_on_branch.
  - intros srcs (w & w' & Hg). apply Settles_for_each_Forall;
      [ | apply Touches_build_tag ].
    eapply Forall_impl; [ by eapply glob_elements | ].
    intros p (x & ->). apply Settles_build_tag.
    rewrite EXE_CACHE_DIR_eq, EXE_BUILD_DIR_eq, <- app_assoc. by apply not_on_branch.
  - intros srcs. apply Touches_for_each, Touches_build_tag.
Qed.

Lemma build_idempotent (tag_glob : string) (w w1 : World) :
  build false tag_glob w = (Ok tt, w1) →
  ∃ w2, build false tag_glob w1 = (Ok tt, w2) ∧ w_fs w2 = w_fs w1.
Proof. intros E. eapply Settles_build; [ exact E | apply ext_refl ]. Qed.

(** *** [assemble] *)

Lemma Settles_Quiets {A} (P : path → Prop) (c : M A) : Settles P c → Quiets P c c.
Proof. intros Hc w a w' E t Ht. destruct (Hc w a w' E t Ht) as (t' & ? & ?). eauto. Qed.

Lemma Quiets_ret {A B} (P : path → Prop) (c : M A) (b : B) : Quiets P c (ret b).
Proof. intros w a w' _ t _. by exists b, t. Qed.

Lemma Quiets_raise {A B} (P : path → Prop) (e : exn) (c : M B) : Quiets P (@raise A e) c.
Proof. intros w a w' E. discriminate. Qed.

Lemma Quiets_bind_same {A B C} (P : path → Prop) (c : M A) (k1 : A → M B) (k2 : A → M C) :
  Settles P c →
  (∀ a, (∃ w w', c w = (Ok a, w')) → Quiets P (k1 a) (k2 a)) →
  (∀ a, Touches P (k1 a)) →
  Quiets P (bind c k1) (bind c k2).
Proof.
  intros Hc Hk Tk w b w' E t Ht. rewrite bind_eq in E.
  destruct (c w) as [[a|e] w1] eqn:Ec; [ | discriminate ].
  destruct (Hc w a w1 Ec t) as (t1 & Et1 & Ft1).
  { eapply ext_trans; [ by eapply Tk | done ]. }
  destruct (Hk a ltac:(eauto) w1 b w' E t1) as (b' & t2 & Et2 & Ft2);
    [ by rewrite Ft1 | ].
  exists b', t2. rewrite bind_eq, Et1. split; [ done | congruence ].
Qed.

Lemma Quiets_bind_any {A A' B C} (P : path → Prop) (c1 : M A) (c2 : M A')
    (k1 : A → M B) (k2 : A' → M C) :
  Quiets P c1 c2 →
  (∀ a a', Quiets P (k1 a) (k2 a')) →
  (∀ a, Touches P (k1 a)) →
  Quiets P (bind c1 k1) (bind c2 k2).
Proof.
  intros Hc Hk Tk w b w' E t Ht. rewrite bind_eq in E.
  destruct (c1 w) as [[a|e] w1] eqn:Ec; [ | discriminate ].
  destruct (Hc w a w1 Ec t) as (a' & t1 & Et1 & Ft1).
  { eapply ext_trans; [ by eapply Tk | done ]. }
  destruct (Hk a a' w1 b w' E t1) as (b' & t2 & Et2 & Ft2); [ by rewrite Ft1 | ].
  exists b', t2. rewrite bind_eq, Et1. split; [ done | congruence ].
Qed.

Lemma Quiets_for_acc {A S S'} (P : path → Prop) (l : list A)
    (body1 : S → A → M S) (body2 : S' → A → M S') :
  Forall (fun x => ∀ acc1 acc2, Quiets P (body1 acc1 x) (body2 acc2 x)) l →
  (∀ acc x, Touches P (body1 acc x)) →
  ∀ acc1 acc2, Quiets P (for_acc l acc1 body1) (for_acc l acc2 body2).
Proof.
  intros Hq Ht. induction Hq as [|x l Hx Hl IH]; intros acc1 acc2; simpl.
  - apply Quiets_ret.
  - apply Quiets_bind_any; [ apply Hx | intros a a'; apply IH | ].
    intros a. by apply Touches_for_acc.
Qed.

Lemma whl_file_on_branch (version whl : string) :
  on_branch DIST_DIR (Path_div (Path_div DIST_DIR version) whl).
Proof. unfold Path_div. rewrite <- app_assoc. apply on_branch_below. Qed.

Lemma Touches_assemble_wheel (h : Host) (version whl_name : string) (license_ : bytes)
    (pm : pydict) (desc : string) (wm : pydict) (exe_file : path) :
  Touches (on_branch DIST_DIR)
    (assemble_wheel h (Path_div DIST_DIR version) whl_name license_ pm desc wm exe_file).
Proof. unfold assemble_wheel. touches; apply whl_file_on_branch. Qed.

Lemma Touches_assemble_tag (h : Host) (sfx desc : string) (md : pydict * pydict)
    (tag_dir : path) :
  Touches (on_branch DIST_DIR) (assemble_tag h sfx desc md tag_dir).
Proof.
  unfold assemble_tag.
  repeat (touches_step ltac:(first [ apply Touches_mkdir | apply Touches_assemble_wheel ])).
  intros q. apply on_branch_prefix.
Qed.

Lemma Quiets_assemble_wheel (h : Host) (version whl_name : string)
    (lic1 lic2 : bytes) (pm1 pm2 : pydict) (desc1 desc2 : string) (wm1 wm2 : pydict)
    (exe_file : path) :
  ¬ on_branch DIST_DIR exe_file →
  Quiets (on_branch DIST_DIR)
    (assemble_wheel h (Path_div DIST_DIR version) whl_name lic1 pm1 desc1 wm1 exe_file)
    (assemble_wheel h (Path_div DIST_DIR version) whl_name lic2 pm2 desc2 wm2 exe_file).
Proof.
  intros Hexe w a w' E t Ht.
  pose proof (Touches_assemble_wheel _ _ _ _ _ _ _ _ w _ _ E) as Hww'.
  assert (fs_lookup (w_fs t) exe_file = fs_lookup (w_fs w) exe_file) as Hlk.
  { destruct (ext_trans _ _ _ _ Hww' Ht) as [_ [Hl _]]. by apply Hl. }
  unfold assemble_wheel in E |- *. rewrite bind_eq, is_file_run in E |- *. rewrite Hlk.
  destruct (is_file_node (fs_lookup (w_fs w) exe_file)); [ | by exists wm2, t ].
  cbn [negb] in E |- *. rewrite bind_eq, path_exists_run in E |- *.
  set (whl_file := Path_div (Path_div DIST_DIR version)
                     (whl_name +:+ "-" +:+ name exe_file +:+ ".whl")) in *.
  assert (is_some_node (fs_lookup (w_fs t) whl_file) = true) as Hex.
  { eapply keeps_is_some; [ apply Ht | ].
    destruct (is_some_node (fs_lookup (w_fs w) whl_file)) eqn:He.
    { by injection E as _ <-. }
    rewrite bind_eq in E.
    destruct (write_bytes whl_file [] w) as [[[]|e] wa] eqn:Ew; [ | done ].
    eapply keeps_is_some; [ | by eapply write_bytes_makes ].
    eapply (Touches_bind (on_branch DIST_DIR)); [ | | exact E ].
    - apply Touches_try, Touches_read_bytes.
    - intros r. touches; apply whl_file_on_branch. }
  rewrite Hex. by exists wm2, t.
Qed.

Lemma Quiets_assemble_tag (h : Host) (sfx desc1 desc2 : string) (md1 md2 : pydict * pydict)
    (x : string) :
  Quiets (on_branch DIST_DIR)
    (assemble_tag h sfx desc1 md1 (EXE_BUILD_DIR ++ [x]))
    (assemble_tag h sfx desc2 md2 (EXE_BUILD_DIR ++ [x])).
Proof.
  assert (∀ l, ¬ on_branch DIST_DIR ((EXE_BUILD_DIR ++ [x]) ++ l)) as Hout.
  { intros l. rewrite DIST_DIR_eq, EXE_BUILD_DIR_eq, <- !app_assoc.
    by apply not_on_branch. }
  unfold assemble_tag. apply Quiets_bind_same.
  { apply Settles_is_dir. specialize (Hout []). by rewrite app_nil_r in Hout. }
  2: { intros d.
       repeat (touches_step ltac:(first [ apply Touches_mkdir
                                        | apply Touches_assemble_wheel ])).
       intros q. apply on_branch_prefix. }
  intros d _. destruct (negb d); [ apply Quiets_ret | ].
  destruct (normalize_version _) as [version|]; [ | apply Quiets_raise ].
  apply Quiets_bind_same; [ apply Settles_mkdir | | ].
  2: { intros []. repeat (touches_step ltac:(apply Touches_assemble_wheel)). }
  intros [] _. apply Quiets_bind_same; [ apply Settles_read_bytes, Hout | | ].
  2: { intros lic. repeat (touches_step ltac:(apply Touches_assemble_wheel)). }
  intros lic _. apply Quiets_bind_same.
  { apply Settles_glob.
    - specialize (Hout []). by rewrite app_nil_r in Hout.
    - intros y. apply Hout. }
  2: { intros exes. repeat (touches_step ltac:(apply Touches_assemble_wheel)). }
  intros exes (w & w' & Hg). apply Quiets_bind_any.
  - apply Quiets_for_acc; [ | intros; apply Touches_assemble_wheel ].
    eapply Forall_impl; [ by eapply glob_elements | ].
    intros p (y & ->) acc1 acc2. apply Quiets_assemble_wheel, Hout.
  - intros a a'. apply Quiets_ret.
  - intros a. apply Touches_ret.
Qed.

Lemma Touches_version_suffix_of (P : path → Prop) (dev : bool) :
  Touches P (version_suffix_of dev).
Proof. apply Touches_fs_const. intros w. unfold version_suffix_of. by repeat case_match. Qed.

Lemma Quiets_assemble (h : Host) (dev : bool) (tag : string) :
  Quiets (on_branch DIST_DIR) (assemble h false dev tag) (assemble h false dev tag).
Proof.
  assert (∀ l, ¬ on_branch DIST_DIR (EXE_BUILD_DIR ++ l)) as Hout.
  { intros l. rewrite DIST_DIR_eq, EXE_BUILD_DIR_eq, <- !app_assoc.
    by apply not_on_branch. }
  unfold assemble. apply Quiets_bind_same; [ apply Settles_maybe_clean | | ].
  2: { intros []. repeat (touches_step ltac:(first [ apply Touches_assemble_tag
                                                  | apply Touches_version_suffix_of ])). }
  intros [] _. apply Quiets_bind_same; [ apply Settles_version_suffix_of | | ].
  2: { intros sfx. repeat (touches_step ltac:(apply Touches_assemble_tag)). }
  intros sfx _. apply Quiets_bind_same.
  { apply Settles_bind; [ | intros b; apply Settles_ret | intros b; apply Touches_ret ].
    apply Settles_read_bytes. rewrite PRJ_DESC_PATH_eq, DIST_DIR_eq.
    by apply not_on_branch. }
  2: { intros desc. repeat (touches_step ltac:(apply Touches_assemble_tag)). }
  intros desc _. apply Quiets_bind_same.
  { apply Settles_glob.
    - specialize (Hout []). by rewrite app_nil_r in Hout.
    - intros x. apply Hout. }
  2: { intros dirs. repeat (touches_step ltac:(apply Touches_assemble_tag)). }
  intros dirs (w & w' & Hg). apply Quiets_bind_any.
  - apply Quiets_for_acc; [ | intros; apply Touches_assemble_tag ].
    eapply Forall_impl; [ by eapply glob_elements | ].
    intros p (x & ->) acc1 acc2. apply Quiets_assemble_tag.
  - intros a a'. apply Quiets_ret.
  - intros a. apply Touches_ret.
Qed.

Lemma assemble_idempotent (h : Host) (dev : bool) (tag : string) (w w1 : World) :
  assemble h false dev tag w = (Ok tt, w1) →
  ∃ w2, assemble h false dev tag w1 = (Ok tt, w2) ∧ w_fs w2 = w_fs w1.
Proof.
  intros E. destruct (Quiets_assemble h dev tag w tt w1 E w1 (ext_refl _ _))
    as ([] & w2 & E2 & F2).
  by exists w2.
Qed.

(** C4: without the clean flag, [download], [build] and [assemble] are
    idempotent: when a run has returned without an error, a second run
    with the same arguments, against the same releases and commit,
    returns without an error as well and leaves the file system exactly
    as the first run left it. *)
Theorem commands_idempotent (h : Host) (tag tag_glob build_tag_glob : string)
    (dev : bool) (w w1 : World) :
  (download tag false w = (Ok tt, w1) →
   ∃ w2, download tag false w1 = (Ok tt, w2) ∧ w_fs w2 = w_fs w1)
  ∧ (build false tag_glob w = (Ok tt, w1) →
     ∃ w2, build false tag_glob w1 = (Ok tt, w2) ∧ w_fs w2 = w_fs w1)
  ∧ (assemble h false dev build_tag_glob w = (Ok tt, w1) →
     ∃ w2, assemble h false dev build_tag_glob w1 = (Ok tt, w2) ∧ w_fs w2 = w_fs w1).
Proof.
  split_and!.
  - apply download_idempotent.
  - apply build_idempotent.
  - apply assemble_idempotent.
Qed.

(** * Part II, continued: further properties of the program *)

(** ** Each command keeps to its own directory *)

Lemma agrees_refl (P : path → Prop) (s : FS) : agrees P s s.
Proof. by split. Qed.

Lemma agrees_trans (P : path → Prop) (s t u : FS) :
  agrees P s t → agrees P t u → agrees P s u.
Proof.
  intros [L1 C1] [L2 C2]. split.
  - intros p Hp. by rewrite L2, L1.
  - intros d Hd. by rewrite C2, C1.
Qed.

Lemma fs_assoc_rmtree (s : FS) (d p : path) :
  ¬ d `prefix_of` p → fs_assoc (fs_rmtree s d) p = fs_assoc s p.
Proof.
  intros Hp. unfold fs_rmtree. induction s as [|[q n] s IH]; [ done | ].
  rewrite filter_cons. simpl. destruct (decide (q = p)) as [->|Hne].
  - rewrite decide_True by done. simpl. by rewrite decide_True.
  - case_decide; simpl; [ by rewrite decide_False | done ].
Qed.

Lemma fs_children_rmtree (s : FS) (d d' : path) :
  (∀ x, ¬ d `prefix_of` d' ++ [x]) →
  fs_children (fs_rmtree s d) d' = fs_children s d'.
Proof.
  intros Hd. unfold fs_children, fs_rmtree, omap.
  induction s as [|[q n] s IH]; [ done | ].
  rewrite filter_cons. simpl. case_decide as Hq; simpl; [ by rewrite IH | ].
  destruct (child_name d' q) as [x|] eqn:E; [ | done ].
  apply child_name_Some in E. subst q. simpl in Hq.
  destruct (Hd x). first [ done | by apply dec_stable ].
Qed.

Lemma agrees_rmtree (P : path → Prop) (s : FS) (d : path) :
  (∀ p, d `prefix_of` p → P p) → agrees P s (fs_rmtree s d).
Proof.
  intros HP. split.
  - intros p Hp. destruct p as [|c p]; [ done | ]. simpl.
    apply fs_assoc_rmtree. intros H. by apply Hp, HP.
  - intros d' Hd'. apply fs_children_rmtree. intros x H. by apply (Hd' x), HP.
Qed.

Lemma Confines_Touches {A} (P : path → Prop) (c : M A) : Touches P c → Confines P c.
Proof. intros H w r w' E. by destruct (H w r w' E). Qed.

Lemma Confines_bind {A B} (P : path → Prop) (c : M A) (k : A → M B) :
  Confines P c → (∀ a, Confines P (k a)) → Confines P (bind c k).
Proof.
  intros Hc Hk w r w' E. rewrite bind_eq in E.
  destruct (c w) as [[a|e] w1] eqn:Ec.
  - eapply agrees_trans; [ by eapply Hc | by eapply Hk ].
  - injection E as <- <-. by eapply Hc.
Qed.

Lemma Confines_rmtree (P : path → Prop) (d : path) :
  (∀ p, d `prefix_of` p → P p) → Confines P (rmtree d).
Proof.
  intros HP w r w' E. unfold rmtree in E. rewrite bind_eq in E. simpl in E.
  destruct (fs_lookup (w_fs w) d) as [[|]|];
    injection E as <- <-; simpl; first [ apply agrees_refl | by apply agrees_rmtree ].
Qed.

Lemma Confines_maybe_clean (clean : bool) (d : path) :
  Confines (on_branch d) (maybe_clean clean d).
Proof.
  unfold maybe_clean. apply Confines_bind; [ apply Confines_Touches, Touches_path_exists | ].
  intros e. apply Confines_bind.
  - destruct (clean && e); [ | apply Confines_Touches, Touches_ret ].
    apply Confines_rmtree. intros p Hp. by right.
  - intros _. apply Confines_Touches, Touches_mkdir. intros q Hq. by left.
Qed.

Lemma Confines_download (tag : string) (clean : bool) :
  Confines (on_branch EXE_CACHE_DIR) (download tag clean).
Proof.
  unfold download. apply Confines_bind; [ apply Confines_maybe_clean | ].
  intros _. apply Confines_Touches.
  repeat (touches_step ltac:(first [ apply Touches_mkdir | apply Touches_download_file ]));
    try (intros q; apply on_branch_prefix);
    unfold Path_div; rewrite <- app_assoc; apply on_branch_below.
Qed.

Lemma Confines_build (clean : bool) (tag_glob : string) :
  Confines (on_branch EXE_BUILD_DIR) (build clean tag_glob).
Proof.
  unfold build. apply Confines_bind; [ apply Confines_maybe_clean | ].
  intros _. apply Confines_Touches.
  apply Touches_bind; [ apply Touches_glob | ].
  intros srcs. apply Touches_for_each, Touches_build_tag.
Qed.

Lemma Confines_assemble (h : Host) (clean dev : bool) (tag : string) :
  Confines (on_branch DIST_DIR) (assemble h clean dev tag).
Proof.
  unfold assemble. apply Confines_bind; [ apply Confines_maybe_clean | ].
  intros _. apply Confines_Touches.
  repeat (touches_step ltac:(first [ apply Touches_assemble_tag
                                   | apply Touches_version_suffix_of ])).
Qed.


(** X2: whatever its arguments and its outcome, [build] changes nothing
    outside the branch of the build directory: in particular it never
    changes the cache it reads from, nor the distributions. *)
Theorem build_keeps_to_build_dir (clean : bool) (tag_glob : string) (w : World) (l : path) :
  agrees (on_branch EXE_BUILD_DIR) (w_fs w) (w_fs (build clean tag_glob w).2)
  ∧ fs_lookup (w_fs (build clean tag_glob w).2) (EXE_CACHE_DIR ++ l)
    = fs_lookup (w_fs w) (EXE_CACHE_DIR ++ l)
  ∧ fs_lookup (w_fs (build clean tag_glob w).2) (DIST_DIR ++ l)
    = fs_lookup (w_fs w) (DIST_DIR ++ l)
  ∧ fs_lookup (w_fs (build clean tag_glob w).2) PRJ_DESC_PATH
    = fs_lookup (w_fs w) PRJ_DESC_PATH.
Proof.
  assert (agrees (on_branch EXE_BUILD_DIR) (w_fs w) (w_fs (build clean tag_glob w).2))
    as Ha.
  { destruct (build clean tag_glob w) as [r w'] eqn:E. by eapply Confines_build. }
  split; [ exact Ha | ]. destruct Ha as [Hl _].
  split_and!; apply Hl;
    rewrite EXE_BUILD_DIR_eq, ?EXE_CACHE_DIR_eq, ?DIST_DIR_eq, ?PRJ_DESC_PATH_eq,
      <- ?app_assoc; by apply not_on_branch.
Qed.

(** X3: whatever its arguments and its outcome, [assemble] changes
    nothing outside the branch of the distribution directory: the cache,
    the staged builds it reads and the README are as they were. *)
Theorem assemble_keeps_to_dist (h : Host) (clean dev : bool) (tag : string)
    (w : World) (l : path) :
  agrees (on_branch DIST_DIR) (w_fs w) (w_fs (assemble h clean dev tag w).2)
  ∧ fs_lookup (w_fs (assemble h clean dev tag w).2) (EXE_CACHE_DIR ++ l)
    = fs_lookup (w_fs w) (EXE_CACHE_DIR ++ l)
  ∧ fs_lookup (w_fs (assemble h clean dev tag w).2) (EXE_BUILD_DIR ++ l)
    = fs_lookup (w_fs w) (EXE_BUILD_DIR ++ l)
  ∧ fs_lookup (w_fs (assemble h clean dev tag w).2) PRJ_DESC_PATH
    = fs_lookup (w_fs w) PRJ_DESC_PATH.
Proof.
  assert (agrees (on_branch DIST_DIR) (w_fs w) (w_fs (assemble h clean dev tag w).2))
    as Ha.
  { destruct (assemble h clean dev tag w) as [r w'] eqn:E. by eapply Confines_assemble. }
  split; [ exact Ha | ]. destruct Ha as [Hl _].
  split_and!; apply Hl;
    rewrite DIST_DIR_eq, ?EXE_CACHE_DIR_eq, ?EXE_BUILD_DIR_eq, ?PRJ_DESC_PATH_eq,
      <- ?app_assoc; by apply not_on_branch.
Qed.

(** ** The requests of the release listing *)

Lemma after_requests_app (w : World) (l k : list string) :
  after_requests (after_requests w l) k = after_requests w (l ++ k).
Proof. unfold after_requests. simpl. by rewrite app_assoc. Qed.

Lemma session_get_run (url : string) (w : World) :
  session_get url w = (Ok (http_get url), after_requests w [url]).
Proof. done. Qed.



Lemma fetch_pages_fails_run (pages : list (list Release)) :
  ∀ (fuel : nat) (page : Z) (url : string) (w : World),
    serves_then_fails url pages → (length pages < fuel)%nat →
    fetch_pages fuel page url w
    = (Raise (SystemExit 1),
       after_requests w (page_urls url (S (length pages)))).
Proof.
  induction pages as [|p rest IH]; intros fuel page url w Hs Hf;
    (destruct fuel as [|fuel]; [ simpl in Hf; lia | ]).
  - simpl in Hs. cbn [fetch_pages]. rewrite bind_eq, session_get_run.
    destruct (Z.eqb_spec (status_code (http_get url)) 200) as [|_]; [ done | ].
    simpl. by destruct (links_next (http_get url)).
  - destruct Hs as (Hst & Hjs & next & Hn & Hs').
    cbn [fetch_pages]. rewrite bind_eq, session_get_run, Hst. cbn [Z.eqb Pos.eqb negb].
    rewrite Hn, bind_eq, (IH fuel (page + 1) next) by (done || simpl in *; lia).
    rewrite after_requests_app. cbn [length page_urls]. by rewrite Hn.
Qed.

Lemma fetch_pages_frame (fuel : nat) :
  ∀ (page : Z) (url : string) (w : World),
    ∃ urls, (fetch_pages fuel page url w).2 = after_requests w urls.
Proof.
  induction fuel as [|fuel IH]; intros page url w.
  - exists []. unfold after_requests. rewrite app_nil_r. by destruct w.
  - cbn [fetch_pages]. rewrite bind_eq, session_get_run.
    destruct (negb (status_code (http_get url) =? 200)); [ by exists [url] | ].
    destruct (links_next (http_get url)) as [next|]; [ | by exists [url] ].
    rewrite bind_eq. destruct (IH (page + 1) next (after_requests w [url])) as [urls Hu].
    exists (url :: urls).
    destruct (fetch_pages fuel (page + 1) next (after_requests w [url])) as [[a|e] w1];
      simpl in *; subst w1; by rewrite after_requests_app.
Qed.



(** X6: whatever the service answers, [sync] reads the network only: the
    file system, the working directory and the record of checked
    distributions are as before, and requests are only added. *)
Theorem sync_only_makes_requests (fuel : nat) (w : World) :
  ∃ urls, (sync fuel w).2 = after_requests w urls.
Proof.
  unfold sync, fetch_releases. rewrite bind_eq.
  destruct (fetch_pages_frame fuel 1
              ("https://api.github.com/repos/" +:+ ORIGIN +:+ "/releases?per_page=100") w)
    as [urls1 H1].
  destruct (fetch_pages fuel 1 _ w) as [[origin|e] w1]; simpl in H1; subst w1;
    [ | by exists urls1 ].
  rewrite bind_eq.
  destruct (fetch_pages_frame fuel 1
              ("https://api.github.com/repos/" +:+ UPSTREAM +:+ "/releases?per_page=100")
              (after_requests w urls1)) as [urls2 H2].
  destruct (fetch_pages fuel 1 _ (after_requests w urls1)) as [[upstream|e] w2];
    simpl in H2; subst w2; exists (urls1 ++ urls2); by rewrite after_requests_app.
Qed.

(** X7: when the listing of the origin repository fails, [sync] ends with
    [SystemExit(1)] after the failing request: the listing of the upstream
    repository is not started. *)
Theorem sync_stops_at_origin_failure (pages : list (list Release)) (fuel : nat)
    (w : World) :
  serves_then_fails (releases_url ORIGIN) pages → (length pages < fuel)%nat →
  sync fuel w
  = (Raise (SystemExit 1),
     after_requests w (page_urls (releases_url ORIGIN) (S (length pages)))).
Proof.
  intros Hs Hf. unfold sync, fetch_releases. rewrite bind_eq.
  fold (releases_url ORIGIN). by rewrite (fetch_pages_fails_run pages).
Qed.


(** ** What a second download asks the network *)

Lemma after_requests_nil (w : World) : after_requests w [] = w.
Proof. unfold after_requests. rewrite app_nil_r. by destruct w. Qed.

Lemma Repeats_still {A} (P : path → Prop) (c : M A) :
  (∀ w a w', c w = (Ok a, w') → ∀ t, ext P (w_fs w') (w_fs t) → c t = (Ok a, t)) →
  Repeats P [] c.
Proof. intros H w a w' E t Ht. rewrite after_requests_nil. by eapply H. Qed.

Lemma Repeats_bind {A B} (P : path → Prop) (u1 u2 : list string)
    (c : M A) (k : A → M B) :
  Repeats P u1 c → (∀ a, Repeats P u2 (k a)) → (∀ a, Touches P (k a)) →
  Repeats P (u1 ++ u2) (bind c k).
Proof.
  intros Hc Hk Tk w b w' E t Ht. rewrite bind_eq in E.
  destruct (c w) as [[a|e] w1] eqn:Ec; [ | discriminate ].
  rewrite bind_eq, (Hc w a w1 Ec t).
  - rewrite (Hk a w1 b w' E) by done. by rewrite after_requests_app.
  - eapply ext_trans; [ by eapply Tk | done ].
Qed.

Lemma Repeats_for_each {A} (P : path → Prop) (l : list A) (body : A → M unit) :
  (∀ x, Repeats P [] (body x)) → (∀ x, Touches P (body x)) →
  Repeats P [] (for_each l body).
Proof.
  intros Hs Ht. induction l as [|x l IH]; simpl.
  - apply Repeats_still. by intros w a w' [= <- <-] t _.
  - apply (Repeats_bind P [] []); [ apply Hs | intros _; apply IH | ].
    intros _. by apply Touches_for_each.
Qed.

Lemma Repeats_const {A} (P : path → Prop) (c : M A) (r : outcome A) :
  (∀ w, c w = (r, w)) → Repeats P [] c.
Proof.
  intros Hc. apply Repeats_still. intros w a w' E t _.
  rewrite Hc in E |- *. congruence.
Qed.

Lemma Repeats_mkdir (P : path → Prop) (p : path) : Repeats P [] (mkdir p true true).
Proof.
  apply Repeats_still. intros w [] w' E t [Hk _].
  apply mkdir_of_dir. eapply keeps_is_dir; [ exact Hk | ]. by eapply mkdir_makes_dir.
Qed.

Lemma Repeats_download_file (P : path → Prop) (dst : path) (url : string) :
  Repeats P [] (download_file dst url).
Proof.
  apply Repeats_still. intros w [] w' E t [Hk _].
  apply download_file_skips. eapply keeps_is_some; [ exact Hk | ].
  by eapply download_file_makes.
Qed.

Lemma Repeats_download (tag : string) :
  Repeats (fun _ => True) [release_lookup_url tag] (download tag false).
Proof.
  unfold download.
  apply (Repeats_bind _ [] [release_lookup_url tag]); [ | intros _ | intros _ ].
  { intros w a w' E t Ht. rewrite maybe_clean_false in E |- *.
    by eapply Repeats_mkdir. }
  2: { repeat (touches_step ltac:(first [ apply Touches_mkdir
                                       | apply Touches_download_file ])); done. }
  apply (Repeats_bind _ [] [release_lookup_url tag]); [ | intros _ | intros _ ].
  { apply (Repeats_const _ _
             (match (match GITHUB_TOKEN with Some t => Some t | None => GH_TOKEN end) with
              | None => Raise (SystemExit 1)
              | Some it => Ok it
              end)).
    intros w. unfold gh_token. by repeat case_match. }
  2: { repeat (touches_step ltac:(first [ apply Touches_mkdir
                                       | apply Touches_download_file ])); done. }
  apply (Repeats_bind _ [release_lookup_url tag] []); [ | intros response | intros response ].
  { by intros w a w' [= <- <-] t _. }
  2: { repeat (touches_step ltac:(first [ apply Touches_mkdir
                                       | apply Touches_download_file ])); done. }
  apply (Repeats_bind _ [] []); [ | intros _ | intros _ ].
  { apply (Repeats_const _ _
             (if (400 <=? status_code response) && (status_code response <? 600)
              then Raise (HTTPError (status_code response)) else Ok tt)).
    intros w. unfold raise_for_status. by case_match. }
  2: { repeat (touches_step ltac:(first [ apply Touches_mkdir
                                       | apply Touches_download_file ])); done. }
  apply (Repeats_bind _ [] []); [ apply Repeats_mkdir | intros _ | intros _ ].
  2: { repeat (touches_step ltac:(first [ apply Touches_download_file ])); done. }
  apply (Repeats_bind _ [] []); [ apply Repeats_download_file | intros _ | intros _ ].
  2: { repeat (touches_step ltac:(first [ apply Touches_download_file ])); done. }
  apply Repeats_for_each.
  - intros asset. destruct (asset_filter asset.1);
      [ apply Repeats_download_file | ].
    apply Repeats_still. by intros w a w' [= <- <-] t _.
  - intros asset. destruct (asset_filter asset.1);
      [ by apply Touches_download_file | apply Touches_ret ].
Qed.

(** X9: once a download without the clean flag has succeeded, any later
    download of the same tag succeeds with a single request, the lookup of
    the release, and changes nothing on disk: no file is fetched a second
    time.  This holds in every later state that still has what the first
    download left. *)
Theorem download_again_asks_once (tag : string) (w w1 t : World) :
  download tag false w = (Ok tt, w1) →
  keeps (w_fs w1) (w_fs t) →
  download tag false t = (Ok tt, after_requests t [release_lookup_url tag]).
Proof.
  intros E Hk. eapply Repeats_download; [ exact E | ].
  split; [ exact Hk | ]. split; intros p Hp; [ by destruct Hp | ].
  by destruct (Hp "").
Qed.

(** ** What is on disk is never overwritten *)

Lemma grows_refl (s : FS) : grows s s.
Proof. by intros p n. Qed.

Lemma grows_trans (s t u : FS) : grows s t → grows t u → grows s u.
Proof. intros H1 H2 p n Hp. by apply H2, H1. Qed.

Lemma Grows_fs_const {A} (c : M A) : (∀ w, w_fs (c w).2 = w_fs w) → Grows c.
Proof.
  intros H w r w' E. specialize (H w). rewrite E in H. simpl in H. rewrite H.
  apply grows_refl.
Qed.

Lemma Grows_bind {A B} (c : M A) (k : A → M B) :
  Grows c → (∀ a, Grows (k a)) → Grows (bind c k).
Proof.
  intros Hc Hk w r w' E. rewrite bind_eq in E.
  destruct (c w) as [[a|e] w1] eqn:Ec.
  - eapply grows_trans; [ by eapply Hc | by eapply Hk ].
  - injection E as <- <-. by eapply Hc.
Qed.

Lemma Grows_try {A} (c : M A) : Grows c → Grows (try c).
Proof.
  intros Hc w r w' E. unfold try in E.
  destruct (c w) as [r1 w1] eqn:Ec. injection E as <- <-. by eapply Hc.
Qed.

Lemma Grows_for_each {A} (l : list A) (body : A → M unit) :
  (∀ x, Grows (body x)) → Grows (for_each l body).
Proof.
  intros Hb. induction l as [|x l IH]; simpl.
  - by apply Grows_fs_const.
  - apply Grows_bind; [ apply Hb | by intros _ ].
Qed.

Lemma Grows_for_acc {A S} (l : list A) (body : S → A → M S) :
  (∀ acc x, Grows (body acc x)) → ∀ acc, Grows (for_acc l acc body).
Proof.
  intros Hb. induction l as [|x l IH]; intros acc; simpl.
  - by apply Grows_fs_const.
  - apply Grows_bind; [ apply Hb | apply IH ].
Qed.

(** A command that writes at [p] only, where there is nothing. *)
Lemma Grows_fresh {A} (p : path) (c : M A) (w : World) (r : outcome A) (w' : World) :
  Touches (eq p) c → fs_lookup (w_fs w) p = None → c w = (r, w') →
  grows (w_fs w) (w_fs w').
Proof.
  intros Hc Hp E q n Hq. destruct (Hc w r w' E) as [_ [Hl _]].
  rewrite Hl; [ done | ]. intros <-. congruence.
Qed.

Lemma Grows_os_mkdir (p : path) : Grows (os_mkdir p).
Proof.
  intros w r w' E. destruct (fs_lookup (w_fs w) p) as [n|] eqn:Hp.
  - rewrite os_mkdir_cases, Hp in E. injection E as <- <-. apply grows_refl.
  - eapply Grows_fresh; [ by apply Touches_os_mkdir | exact Hp | exact E ].
Qed.

(** Reduces a [Grows] goal by the structure of the command. *)
Ltac grows_step leaf :=
  first
    [ apply Grows_os_mkdir
    | leaf
    | apply Grows_fs_const; intros ?; reflexivity
    | apply Grows_try
    | apply Grows_bind; [ | intros ? ]
    | apply Grows_for_each; intros ?
    | apply Grows_for_acc; intros ? ?
    | progress unfold fail
    | match goal with
      | |- Grows (if ?b then _ else _) => destruct b
      | |- Grows (match ?x with _ => _ end) => destruct x
      end ].

Lemma Grows_mkdir_flat (p : path) (exist_ok : bool) : Grows (mkdir_flat p exist_ok).
Proof. unfold mkdir_flat. repeat (grows_step ltac:(fail)). Qed.

Lemma Grows_mkdir_parents (rp : list string) :
  ∀ exist_ok, Grows (mkdir_parents rp exist_ok).
Proof.
  induction rp as [|x rp IH]; intros exist_ok; rewrite mkdir_parents_unfold; cbv zeta;
    repeat (grows_step ltac:(first [ apply Grows_mkdir_flat | apply IH ])).
Qed.

Lemma Grows_mkdir (p : path) (parents exist_ok : bool) : Grows (mkdir p parents exist_ok).
Proof.
  unfold mkdir. destruct parents; [ apply Grows_mkdir_parents | apply Grows_mkdir_flat ].
Qed.

Lemma Grows_maybe_clean (d : path) : Grows (maybe_clean false d).
Proof. intros w r w' E. rewrite maybe_clean_false in E. by eapply Grows_mkdir. Qed.


Lemma Grows_raise_for_status (r : Response) : Grows (raise_for_status r).
Proof. apply Grows_fs_const. intros w. unfold raise_for_status. by case_match. Qed.

Lemma Grows_gh_token : Grows gh_token.
Proof. apply Grows_fs_const. intros w. unfold gh_token. by repeat case_match. Qed.


Lemma Grows_download_file (dst : path) (url : string) : Grows (download_file dst url).
Proof.
  intros w r w' E. unfold download_file in E. rewrite bind_eq, path_exists_run in E.
  destruct (fs_lookup (w_fs w) dst) as [n|] eqn:Hd; simpl in E.
  - injection E as <- <-. apply grows_refl.
  - eapply Grows_fresh; [ | exact Hd | exact E ]. touches. done.
Qed.

Lemma Grows_download (tag : string) : Grows (download tag false).
Proof.
  unfold download.
  repeat (grows_step ltac:(first [ apply Grows_maybe_clean | apply Grows_gh_token
                                 | apply Grows_raise_for_status | apply Grows_mkdir
                                 | apply Grows_download_file ])).
Qed.



(** X10: without the clean flag [download] never removes or overwrites
    anything: every entry on disk, file or directory, is there afterwards
    with the same content, whatever the outcome.  Files already cached
    are not refreshed. *)
Theorem download_never_overwrites (tag : string) (w : World) (p : path) (n : node) :
  fs_lookup (w_fs w) p = Some n →
  fs_lookup (w_fs (download tag false w).2) p = Some n.
Proof.
  intros Hp. destruct (download tag false w) as [r w'] eqn:E.
  by eapply Grows_download.
Qed.


(** ** The cache after a clean download *)

Lemma fs_lookup_ne_nil (s : FS) (p : path) : p ≠ [] → fs_lookup s p = fs_assoc s p.
Proof. by destruct p. Qed.

Lemma fs_lookup_below (s : FS) (d : path) (x : string) (l : path) :
  fs_lookup s (d ++ x :: l) = fs_assoc s (d ++ x :: l).
Proof. apply fs_lookup_ne_nil. by destruct d. Qed.

Lemma fs_assoc_In (s : FS) (p : path) (n : node) :
  fs_assoc s p = Some n → In (p, n) s.
Proof.
  induction s as [|[q m] s IH]; [ done | ]. simpl. case_decide as Hq.
  - intros [= ->]. left. congruence.
  - intros Hs. right. by apply IH.
Qed.

Lemma removelast_snoc {A} (l : list A) (x : A) : removelast (l ++ [x]) = l.
Proof. apply removelast_last. Qed.

(** In a well-formed file system nothing lies below a missing entry. *)
Lemma fs_wf_below (s : FS) (d : path) :
  fs_wf s = true → fs_lookup s d = None → ∀ l x, fs_lookup s (d ++ x :: l) = None.
Proof.
  intros Hwf Hd l. induction l as [|y l IH] using rev_ind; intros x.
  - destruct (fs_lookup s (d ++ [x])) as [n|] eqn:E; [ | done ].
    rewrite fs_lookup_below in E. apply fs_assoc_In in E.
    unfold fs_wf in Hwf. rewrite forallb_forall in Hwf. apply Hwf in E.
    simpl in E. unfold parent in E. rewrite removelast_snoc, Hd in E. done.
  - destruct (fs_lookup s (d ++ x :: l ++ [y])) as [n|] eqn:E; [ | done ].
    rewrite fs_lookup_below in E. apply fs_assoc_In in E.
    unfold fs_wf in Hwf. rewrite forallb_forall in Hwf. apply Hwf in E.
    simpl in E. unfold parent in E.
    change (d ++ x :: l ++ [y]) with (d ++ (x :: l) ++ [y]) in E.
    rewrite app_assoc, removelast_snoc, IH in E. done.
Qed.

Lemma fs_assoc_rmtree_below (s : FS) (d p : path) :
  d `prefix_of` p → fs_assoc (fs_rmtree s d) p = None.
Proof.
  intros Hp. unfold fs_rmtree. induction s as [|[q n] s IH]; [ done | ].
  rewrite filter_cons. simpl. case_decide as Hq; [ | done ].
  simpl. rewrite decide_False; [ done | ]. intros ->. by apply Hq.
Qed.

(** [maybe_clean(True, d)] leaves [d] as an empty directory. *)
Lemma maybe_clean_true_empties_if (d : path) (w w1 : World) :
  (fs_lookup (w_fs w) d = None → ∀ x l, fs_lookup (w_fs w) (d ++ x :: l) = None) →
  maybe_clean true d w = (Ok tt, w1) →
  is_dir_node (fs_lookup (w_fs w1) d) = true
  ∧ ∀ x l, fs_lookup (w_fs w1) (d ++ x :: l) = None.
Proof.
  intros Hbelow E. unfold maybe_clean in E. rewrite bind_eq, path_exists_run in E.
  cbn [andb] in E. rewrite bind_eq in E.
  assert (∃ w0, mkdir d true true w0 = (Ok tt, w1)
                ∧ ∀ x l, fs_lookup (w_fs w0) (d ++ x :: l) = None) as (w0 & Em & H0).
  { destruct (fs_lookup (w_fs w) d) as [[c|]|] eqn:Hd; simpl in E.
    - unfold rmtree in E. rewrite bind_eq in E. simpl in E. rewrite Hd in E. done.
    - unfold rmtree in E. rewrite bind_eq in E. simpl in E. rewrite Hd in E.
      simpl in E. eexists. split; [ exact E | ]. intros x l. simpl.
      rewrite fs_lookup_below. apply fs_assoc_rmtree_below. by apply prefix_app_r.
    - exists w. split; [ exact E | ]. by apply Hbelow. }
  split; [ by eapply mkdir_makes_dir | ].
  intros x l. rewrite <- (H0 x l).
  assert (Touches (fun q => q `prefix_of` d) (mkdir d true true)) as Ht
    by (by apply Touches_mkdir).
  destruct (Ht w0 _ w1 Em) as [_ [Hl _]]. apply Hl.
  intros [k Hk]. rewrite <- app_assoc in Hk.
  apply (f_equal length) in Hk. rewrite !length_app in Hk. simpl in Hk. lia.
Qed.

Lemma maybe_clean_true_empties (d : path) (w w1 : World) :
  fs_wf (w_fs w) = true →
  maybe_clean true d w = (Ok tt, w1) →
  is_dir_node (fs_lookup (w_fs w1) d) = true
  ∧ ∀ x l, fs_lookup (w_fs w1) (d ++ x :: l) = None.
Proof.
  intros Hwf. apply maybe_clean_true_empties_if. intros Hd x l. by apply fs_wf_below.
Qed.

Lemma prefix_snoc_iff (k l : path) (y : string) :
  k `prefix_of` l ++ [y] ↔ k = l ++ [y] ∨ k `prefix_of` l.
Proof.
  split.
  - intros [m Hm]. destruct m as [|z m _] using rev_ind.
    + left. by rewrite app_nil_r in Hm.
    + right. rewrite app_assoc in Hm. apply app_inj_tail in Hm as [-> _].
      by apply prefix_app_r.
  - intros [->|H]; [ done | ]. by apply prefix_app_r.
Qed.

(** One more level of a chain of fresh directories. *)
Lemma os_mkdir_fresh_step (d l : path) (y : string) (w w' : World) :
  (∀ x m, fs_lookup (w_fs w) (d ++ x :: m)
          = if decide (x :: m `prefix_of` l) then Some Dir else None) →
  os_mkdir (d ++ l ++ [y]) w = (Ok tt, w') →
  ∀ x m, fs_lookup (w_fs w') (d ++ x :: m)
         = if decide (x :: m `prefix_of` l ++ [y]) then Some Dir else None.
Proof.
  intros H1 E x m. rewrite os_mkdir_cases in E.
  destruct (fs_lookup (w_fs w) (d ++ l ++ [y])); [ done | ].
  destruct (fs_lookup (w_fs w) (parent _)) as [[|]|]; try done.
  injection E as <-. simpl.
  destruct (decide (x :: m = l ++ [y])) as [Heq|Hne].
  - rewrite Heq. rewrite fs_lookup_set_eq, decide_True; [ done | done | ].
    by destruct d, l.
  - rewrite fs_lookup_set_ne, H1.
    + destruct (decide (x :: m `prefix_of` l)) as [Hp|Hp];
        destruct (decide (x :: m `prefix_of` l ++ [y])) as [Hq|Hq]; try done.
      * destruct Hq. apply prefix_snoc_iff. by right.
      * apply prefix_snoc_iff in Hq as [Hq|Hq]; done.
    + intros H. by apply app_inv_head in H.
Qed.

(** Making a directory with its parents below a directory that is empty. *)
Lemma mkdir_fresh (d l : path) :
  ∀ w w' : World,
    is_dir_node (fs_lookup (w_fs w) d) = true →
    (∀ x m, fs_lookup (w_fs w) (d ++ x :: m) = None) →
    mkdir (d ++ l) true true w = (Ok tt, w') →
    ∀ x m, fs_lookup (w_fs w') (d ++ x :: m)
           = if decide (x :: m `prefix_of` l) then Some Dir else None.
Proof.
  induction l as [|y l IH] using rev_ind; intros w w' Hd H0 E x m.
  - rewrite app_nil_r in E. rewrite mkdir_of_dir in E by done. injection E as <-.
    rewrite H0. rewrite decide_False; [ done | ].
    intros H. by apply prefix_nil_inv in H.
  - assert (fs_lookup (w_fs w) (d ++ l ++ [y]) = None) as Hn.
    { destruct l; simpl; apply H0. }
    unfold mkdir in E. rewrite app_assoc, rev_unit, mkdir_parents_unfold in E.
    cbv zeta in E. change (rev (y :: rev (d ++ l))) with (rev (rev (d ++ l)) ++ [y]) in E.
    rewrite rev_involutive, <- app_assoc in E. unfold try in E. rewrite bind_eq in E.
    destruct (os_mkdir (d ++ l ++ [y]) w) as [[[]|e] w1] eqn:Eo.
    + injection E as <-. revert x m. eapply os_mkdir_fresh_step; [ | exact Eo ].
      intros x m. rewrite H0. rewrite decide_False; [ done | ].
      intros Hp. rewrite os_mkdir_cases, Hn in Eo. unfold parent in Eo.
      rewrite app_assoc, removelast_snoc in Eo.
      destruct l as [|z l]; [ by apply prefix_nil_inv in Hp | ].
      simpl in Eo. rewrite H0 in Eo. done.
    + rewrite os_mkdir_cases, Hn in Eo.
      assert (e = FileNotFoundError ∧ w1 = w) as [-> ->].
      { destruct (fs_lookup (w_fs w) (parent (d ++ l ++ [y]))) as [[|]|];
          simplify_eq; try done.
        rewrite bind_eq, is_dir_run, Hn in E. done. }
      rewrite bind_eq in E.
      destruct (mkdir_parents (rev (d ++ l)) true w) as [[[]|e] w2] eqn:Em; [ | done ].
      assert (∀ x m, fs_lookup (w_fs w2) (d ++ x :: m)
                     = if decide (x :: m `prefix_of` l) then Some Dir else None) as H2.
      { apply (IH w w2); [ done | done | ]. unfold mkdir. exact Em. }
      unfold mkdir_flat, try in E. rewrite bind_eq in E.
      destruct (os_mkdir (d ++ l ++ [y]) w2) as [[[]|e] w3] eqn:Eo2.
      * injection E as <-. revert x m. by eapply os_mkdir_fresh_step.
      * rewrite os_mkdir_cases in Eo2.
        assert (fs_lookup (w_fs w2) (d ++ l ++ [y]) = None) as Hn2.
        { destruct l as [|z l]; simpl.
          - rewrite H2. rewrite decide_False; [ done | ].
            intros H. by apply prefix_nil_inv in H.
          - rewrite H2. rewrite decide_False; [ done | ].
            intros [k Hk]. apply (f_equal length) in Hk.
            simpl in Hk. rewrite !length_app in Hk. simpl in Hk. lia. }
        rewrite Hn2 in Eo2.
        destruct (fs_lookup (w_fs w2) (parent (d ++ l ++ [y]))) as [[|]|];
          simplify_eq; try done;
          rewrite bind_eq, is_dir_run, Hn2 in E; done.
Qed.

Lemma first_served_snoc_ne (l : list (path * string)) (q p : path) (url : string) :
  q ≠ p → first_served (l ++ [(q, url)]) p = first_served l p.
Proof.
  intros Hne. induction l as [|[r u] l IH]; simpl.
  - by rewrite decide_False.
  - by rewrite IH.
Qed.

Lemma first_served_snoc_found (l : list (path * string)) (q p : path) (url u : string) :
  first_served l p = Some u → first_served (l ++ [(q, url)]) p = Some u.
Proof.
  induction l as [|[r v] l IH]; simpl; [ done | ]. case_decide; [ done | apply IH ].
Qed.

Lemma first_served_snoc_new (l : list (path * string)) (q : path) (url : string) :
  first_served l q = None → first_served (l ++ [(q, url)]) q = Some url.
Proof.
  induction l as [|[r v] l IH]; simpl.
  - by rewrite decide_True.
  - case_decide; [ done | apply IH ].
Qed.

Lemma raise_for_status_state (r : Response) (w : World) : (raise_for_status r w).2 = w.
Proof. unfold raise_for_status. by case_match. Qed.

Lemma gh_token_state (w : World) : (gh_token w).2 = w.
Proof. unfold gh_token. by repeat case_match. Qed.

Lemma write_bytes_fresh (p : path) (data : bytes) (w w' : World) :
  fs_lookup (w_fs w) p = None → write_bytes p data w = (Ok tt, w') →
  w_fs w' = fs_set (w_fs w) p (File data).
Proof.
  intros Hp. unfold write_bytes. rewrite bind_eq. simpl. rewrite Hp.
  destruct (fs_lookup (w_fs w) (parent p)) as [[|]|]; try done. by intros [= <-].
Qed.

(** One call of [download_file], on a part [D] of the file system that is
    as [cache_content] says. *)
Lemma download_file_step (D : path → Prop) (exe_dir : path)
    (served : list (path * string)) (q : path) (url : string) (w w' : World) :
  (∀ p, D p → fs_lookup (w_fs w) p = cache_content exe_dir served p) →
  download_file q url w = (Ok tt, w') →
  ∀ p, D p → fs_lookup (w_fs w') p = cache_content exe_dir (served ++ [(q, url)]) p.
Proof.
  intros Hinv E p Hp. unfold download_file in E.
  rewrite bind_eq, path_exists_run in E.
  destruct (fs_lookup (w_fs w) q) as [n|] eqn:Hq; simpl in E.
  - injection E as <-. rewrite (Hinv p Hp). unfold cache_content.
    case_decide; [ done | ].
    destruct (first_served served p) as [u|] eqn:Hs.
    + by rewrite (first_served_snoc_found _ _ _ _ u).
    + destruct (decide (q = p)) as [->|Hne]; [ | by rewrite first_served_snoc_ne, Hs ].
      rewrite (Hinv p Hp) in Hq. unfold cache_content in Hq.
      rewrite decide_False, Hs in Hq; done.
  - rewrite bind_eq, session_get_run, bind_eq in E.
    pose proof (raise_for_status_state (http_get url) (after_requests w [url])) as Hr.
    destruct (raise_for_status _ _) as [[[]|e] w1]; [ | done ].
    simpl in Hr. subst w1. apply write_bytes_fresh in E; [ | done ].
    rewrite E. simpl. destruct (decide (q = p)) as [->|Hne].
    + rewrite fs_lookup_set_eq by (intros ->; done).
      rewrite (Hinv p Hp) in Hq. unfold cache_content in Hq |- *.
      case_decide; [ done | ].
      destruct (first_served served p) eqn:Hs; [ done | ].
      by rewrite first_served_snoc_new.
    + rewrite fs_lookup_set_ne, (Hinv p Hp) by done. unfold cache_content.
      by rewrite first_served_snoc_ne.
Qed.

Lemma download_assets_step (D : path → Prop) (exe_dir : path)
    (assets : list (string * string)) :
  ∀ (served : list (path * string)) (w w' : World),
    (∀ p, D p → fs_lookup (w_fs w) p = cache_content exe_dir served p) →
    for_each assets
      (fun asset =>
         if asset_filter asset.1
         then download_file (Path_div exe_dir asset.1) asset.2
         else ret tt) w = (Ok tt, w') →
    ∀ p, D p →
      fs_lookup (w_fs w') p
      = cache_content exe_dir
          (served ++ map (fun asset : string * string =>
                            (Path_div exe_dir asset.1, asset.2))
                       (List.filter (fun asset : string * string => asset_filter asset.1)
                          assets)) p.
Proof.
  induction assets as [|a assets IH]; intros served w w' Hinv E.
  - injection E as <-. simpl. by rewrite app_nil_r.
  - simpl in E. rewrite bind_eq in E. simpl.
    destruct (asset_filter a.1).
    + destruct (download_file _ _ w) as [[[]|e] w1] eqn:Ed; [ | done ].
      simpl. rewrite cons_middle, app_assoc.
      apply (IH _ w1 w'); [ | exact E ].
      by eapply download_file_step.
    + by apply (IH served w w').
Qed.

(** A clean download up to the directory of the tag: the cache then holds
    that directory and nothing else, and the files are fetched from
    there. *)
Lemma download_clean_prepares (tag : string) (w w' : World) :
  fs_wf (w_fs w) = true →
  download tag true w = (Ok tt, w') →
  ∃ w3,
    (∀ p, (∃ x l, p = EXE_CACHE_DIR ++ x :: l) →
          fs_lookup (w_fs w3) p = cache_content (exe_dir_of tag) [] p)
    ∧ (download_file (Path_div (exe_dir_of tag) "LICENSE")
         ("https://raw.githubusercontent.com/" +:+ UPSTREAM +:+ "/" +:+ cache_tag tag
          +:+ "/LICENSE") ;;;
       for_each (rj_assets (release_of tag))
         (fun asset =>
            if asset_filter asset.1
            then download_file (Path_div (exe_dir_of tag) asset.1) asset.2
            else ret tt)) w3 = (Ok tt, w').
Proof.
  intros Hwf E. unfold download in E. rewrite bind_eq in E.
  destruct (maybe_clean true EXE_CACHE_DIR w) as [[[]|e] w1] eqn:E1; [ | done ].
  destruct (maybe_clean_true_empties _ _ _ Hwf E1) as [Hd H0].
  rewrite bind_eq in E. pose proof (gh_token_state w1) as Hg.
  destruct (gh_token w1) as [[tok|e] w2]; [ | done ]. simpl in Hg. subst w2.
  cbv zeta in E. rewrite bind_eq, session_get_run, bind_eq in E.
  fold (release_lookup_url tag) in E.
  pose proof (raise_for_status_state (http_get (release_lookup_url tag))
                (after_requests w1 [release_lookup_url tag])) as Hr.
  destruct (raise_for_status _ _) as [[[]|e] w2]; [ | done ]. simpl in Hr. subst w2.
  fold (release_of tag) in E. fold (cache_tag tag) in E. fold (exe_dir_of tag) in E.
  rewrite bind_eq in E.
  destruct (mkdir (exe_dir_of tag) true true _) as [[[]|e] w3] eqn:E3; [ | done ].
  exists w3. split; [ | exact E ].
  intros p (x & l & ->). unfold exe_dir_of, Path_div in E3 |- *.
  rewrite (mkdir_fresh _ _ (after_requests w1 [release_lookup_url tag]) w3 Hd H0 E3).
  unfold cache_content. simpl.
  destruct (decide (x :: l `prefix_of` path_parts (cache_tag tag))) as [Hp|Hp].
  - rewrite decide_True; [ done | by apply prefix_app ].
  - rewrite decide_False; [ done | ]. intros H. by apply prefix_app_inv in H.
Qed.


(** ** Names along the pipeline *)

Lemma prefix_drop (p s : string) :
  String.prefix p s = true → s = p +:+ PyStr.drop (String.length p) s.
Proof.
  revert s. induction p as [|a p IH]; intros s H.
  - simpl. unfold PyStr.drop. rewrite Nat.sub_0_r. by rewrite substring_all.
  - destruct s as [|b s]; [ done | ]. simpl in H.
    destruct (Ascii.ascii_dec a b) as [->|]; [ | done ].
    rewrite (IH s H) at 1. reflexivity.
Qed.

Lemma take_drop_string (n : nat) (s : string) : s = PyStr.take n s +:+ PyStr.drop n s.
Proof.
  revert s. induction n as [|n IH]; intros s.
  - unfold PyStr.take, PyStr.drop. rewrite Nat.sub_0_r, substring_all. by destruct s.
  - destruct s as [|a s]; [ done | ].
    rewrite (IH s) at 1. reflexivity.
Qed.

Lemma removeprefix_cases (s p : string) :
  PyStr.removeprefix s p = s ∨ s = p +:+ PyStr.removeprefix s p.
Proof.
  unfold PyStr.removeprefix, PyStr.startswith.
  destruct (String.prefix p s) eqn:H; [ right; by apply prefix_drop | by left ].
Qed.

Lemma removesuffix_cases (s p : string) :
  PyStr.removesuffix s p = s ∨ s = PyStr.removesuffix s p +:+ p.
Proof.
  unfold PyStr.removesuffix, PyStr.endswith.
  destruct (negb (p =? "")%string); [ | by left ]. simpl.
  destruct (String.length p <=? String.length s)%nat; [ | by left ]. simpl.
  destruct (String.eqb_spec (PyStr.drop (String.length s - String.length p) s) p)
    as [E|_]; [ | by left ].
  right. pose proof (take_drop_string (String.length s - String.length p) s) as Hs.
  by rewrite E in Hs.
Qed.

(** X13: the names along the pipeline fit together.  A file that [build]
    stages (its name starts with [buf], as the glob of [build] asks, and
    [map_platform] knows it) is named [buf-<key>] or [buf-<key>.exe] for a
    key of the platform table; [download]'s asset filter lets every such
    name through; and [assemble] names the executable in the wheel
    [buf.exe] exactly when the key is one of Windows. *)
Theorem staged_names_fit (name plat : string) :
  PyStr.startswith name EXE_NAME = true →
  map_platform name = Some plat →
  (name = "buf-" +:+ platform_key name ∨ name = "buf-" +:+ platform_key name +:+ ".exe")
  ∧ asset_filter name = true
  ∧ wheel_exe_name ("py2.py3-none-" +:+ plat)
    = (if PyStr.startswith (platform_key name) "Windows" then "buf.exe" else "buf").
Proof.
  intros Hb Hm. unfold map_platform in Hm.
  assert (∃ k, platform_key name = k ∧ (k, plat) ∈ PLATFORM_ITEMS) as (k & Hk & Hin).
  { eexists. split; [ reflexivity | by apply PLATFORMS_keys ]. }
  rewrite Hk.
  assert (name = k ∨ name = k +:+ ".exe" ∨ name = "buf-" +:+ k
          ∨ name = "buf-" +:+ k +:+ ".exe") as Hname.
  { unfold platform_key in Hk.
    destruct (removesuffix_cases (PyStr.removeprefix name (EXE_NAME +:+ "-")) ".exe")
      as [H1|H1];
      destruct (removeprefix_cases name (EXE_NAME +:+ "-")) as [H2|H2];
      rewrite Hk in H1.
    - left. congruence.
    - right. right. left. rewrite <- H1 in H2. exact H2.
    - right. left. rewrite H1 in H2. by symmetry.
    - right. right. right. rewrite H1 in H2. exact H2. }
  clear Hk Hm. unfold PLATFORM_ITEMS in Hin.
  repeat (apply elem_of_cons in Hin; destruct Hin as [Hin|Hin];
          [ injection Hin as -> ->;
            destruct Hname as [ -> | [ -> | [ -> | -> ] ] ]; try (vm_compute in Hb; discriminate);
            vm_compute; auto | ]).
  by apply elem_of_nil in Hin.
Qed.

(** ** Headers of the metadata *)

Lemma header_values_app (k : string) (a b : list (string * string)) :
  header_values k (a ++ b) = header_values k a ++ header_values k b.
Proof. unfold header_values. by rewrite List.filter_app, map_app. Qed.

Lemma header_values_other (k k' : string) (v : hval) :
  k' ≠ k →
  header_values k (match v with
                   | HList l => map (fun e => (k', e)) l
                   | HStr s => [(k', s)]
                   end) = [].
Proof.
  intros Hne. destruct v as [s|l]; unfold header_values; simpl.
  - by rewrite bool_decide_eq_false_2.
  - induction l as [|e l IH]; simpl; [ done | ].
    by rewrite bool_decide_eq_false_2.
Qed.

Lemma header_values_absent (k : string) (d : pydict) :
  k ∉ map fst d → header_values k (emsg_headers d) = [].
Proof.
  induction d as [|[k' v] d IH]; intros Hk; [ done | ].
  unfold emsg_headers. simpl. rewrite header_values_app.
  apply not_elem_of_cons in Hk as [Hne Hk]. simpl in Hne.
  rewrite header_values_other by done. by apply IH.
Qed.

Lemma dict_set_keys (d : pydict) (k : string) (v : hval) :
  map fst (dict_set d k v) = if decide (k ∈ map fst d) then map fst d else map fst d ++ [k].
Proof.
  induction d as [|[k' v'] d IH]; cbn [dict_set map fst].
  - rewrite decide_False; [ done | apply not_elem_of_nil ].
  - destruct (decide (k' = k)) as [->|Hne]; cbn [map fst].
    + rewrite decide_True; [ done | apply elem_of_cons; by left ].
    + rewrite IH. destruct (decide (k ∈ map fst d)) as [Hin|Hin].
      * rewrite decide_True; [ done | apply elem_of_cons; by right ].
      * rewrite decide_False; [ done | ].
        intros H. apply elem_of_cons in H as [H|H]; [ by destruct Hne | done ].
Qed.

Lemma emsg_headers_cons (k : string) (v : hval) (d : pydict) :
  emsg_headers ((k, v) :: d)
  = match v with
    | HList l => map (fun e => (k, e)) l
    | HStr s => [(k, s)]
    end ++ emsg_headers d.
Proof. done. Qed.

Lemma header_values_one (k v : string) : header_values k [(k, v)] = [v].
Proof. unfold header_values. simpl. by rewrite bool_decide_eq_true_2. Qed.

(** X14: assigning a string to a key of a metadata dict sets exactly one
    header of that name in the message [emsg] renders, with that value,
    replaces any earlier value, and leaves every other header as it was;
    the keys stay distinct.  So the [Version], [Download-URL] and [Tag]
    headers of a wheel are those of its own tag and platform, although
    the dicts are carried from one wheel to the next. *)
Theorem dict_assignment_sets_one_header (d : pydict) (k v : string) :
  NoDup (map fst d) →
  header_values k (emsg_headers (dict_set d k (HStr v))) = [v]
  ∧ (∀ k', k' ≠ k →
       header_values k' (emsg_headers (dict_set d k (HStr v)))
       = header_values k' (emsg_headers d))
  ∧ NoDup (map fst (dict_set d k (HStr v))).
Proof.
  intros Hnd. split_and!.
  - induction d as [|[k' v'] d IH]; cbn [dict_set].
    + apply header_values_one.
    + apply NoDup_cons in Hnd as [Hk' Hnd]. simpl in Hk'.
      destruct (decide (k' = k)) as [->|Hne];
        rewrite emsg_headers_cons, header_values_app.
      * by rewrite header_values_one, header_values_absent.
      * rewrite header_values_other by done. by apply IH.
  - intros k' Hne. induction d as [|[k0 v0] d IH]; cbn [dict_set].
    + rewrite emsg_headers_cons, header_values_app.
      by rewrite (header_values_other k' k (HStr v)).
    + apply NoDup_cons in Hnd as [Hk0 Hnd].
      destruct (decide (k0 = k)) as [->|Hne0];
        rewrite !emsg_headers_cons, !header_values_app.
      * rewrite (header_values_other k' k v0) by done.
        by rewrite (header_values_other k' k (HStr v)) by done.
      * f_equal. by apply IH.
  - rewrite dict_set_keys. case_decide as Hin; [ done | ].
    apply NoDup_app. split_and!; [ done | | apply NoDup_singleton ].
    intros x Hx Hx'. apply list_elem_of_singleton in Hx'. by subst.
Qed.

(** ** Escaping of console messages *)

Lemma string_app_assoc (a b c : string) : (a +:+ b) +:+ c = a +:+ (b +:+ c).
Proof.
  induction a as [|x a IH]; [ done | ].
  change (String x ((a +:+ b) +:+ c) = String x (a +:+ (b +:+ c))). by rewrite IH.
Qed.

Lemma replace_char_app (old : ascii) (new a b : string) :
  replace_char old new (a +:+ b) = replace_char old new a +:+ replace_char old new b.
Proof.
  induction a as [|c a IH]; [ done | ].
  change (String c a +:+ b) with (String c (a +:+ b)). cbn [replace_char].
  by rewrite IH, string_app_assoc.
Qed.

Lemma gha_escape_cons (c : ascii) (m : string) :
  gha_escape (String c m) = gha_escape (String c EmptyString) +:+ gha_escape m.
Proof.
  unfold gha_escape. change (String c m) with (String c EmptyString +:+ m).
  by rewrite !replace_char_app.
Qed.

Lemma gha_escape_char (c : ascii) :
  gha_escape (String c EmptyString)
  = if Ascii.eqb c "%"%char then "%25"
    else if Ascii.eqb c LF then "%0A"
    else if Ascii.eqb c CR then "%0D"
    else String c EmptyString.
Proof.
  unfold gha_escape. simpl.
  destruct (Ascii.eqb_spec c "%"%char) as [->|H1]; [ done | ]. simpl.
  destruct (Ascii.eqb_spec c LF) as [->|H2]; [ done | ]. simpl.
  by destruct (Ascii.eqb c CR).
Qed.

Lemma contains_app (c : ascii) (a b : string) :
  PyStr.contains c (a +:+ b) = PyStr.contains c a || PyStr.contains c b.
Proof. induction a as [|d a IH]; simpl; [ done | ]. by destruct (Ascii.eqb d c). Qed.

Lemma gha_unescape_escape (c d e : ascii) (s : string) :
  gha_unescape (String c (String d (String e EmptyString)) +:+ s)
  = if Ascii.eqb c "%"%char && Ascii.eqb d "2"%char && Ascii.eqb e "5"%char
    then String "%"%char (gha_unescape s)
    else if Ascii.eqb c "%"%char && Ascii.eqb d "0"%char && Ascii.eqb e "A"%char
    then String LF (gha_unescape s)
    else if Ascii.eqb c "%"%char && Ascii.eqb d "0"%char && Ascii.eqb e "D"%char
    then String CR (gha_unescape s)
    else String c (gha_unescape (String d (String e s))).
Proof. done. Qed.

(** X15: the escaping of a console message under GitHub Actions loses
    nothing and keeps the message on one line: the runner's reading of the
    escaped text is the message, and the escaped text holds neither a line
    feed nor a carriage return. *)
Theorem gha_escape_round_trip (m : string) :
  gha_unescape (gha_escape m) = m
  ∧ PyStr.contains LF (gha_escape m) = false
  ∧ PyStr.contains CR (gha_escape m) = false.
Proof.
  induction m as [|c m (IH1 & IH2 & IH3)]; [ done | ].
  rewrite gha_escape_cons, gha_escape_char, !contains_app, IH2, IH3.
  destruct (Ascii.eqb_spec c "%"%char) as [->|H1];
    [ by rewrite (gha_unescape_escape "%"%char "2"%char "5"%char), IH1 | ].
  destruct (Ascii.eqb_spec c LF) as [->|H2];
    [ by rewrite (gha_unescape_escape "%"%char "0"%char "A"%char), IH1 | ].
  destruct (Ascii.eqb_spec c CR) as [->|H3];
    [ by rewrite (gha_unescape_escape "%"%char "0"%char "D"%char), IH1 | ].
  split_and!.
  - change (String c "" +:+ gha_escape m) with (String c (gha_escape m)).
    cbn [gha_unescape].
    assert (Ascii.eqb c "%"%char = false) as -> by (by apply Ascii.eqb_neq).
    cbn [andb]. rewrite IH1. by repeat case_match.
  - simpl. rewrite orb_false_r.
    assert (Ascii.eqb c LF = false) as -> by (by apply Ascii.eqb_neq). done.
  - simpl. rewrite orb_false_r.
    assert (Ascii.eqb c CR = false) as -> by (by apply Ascii.eqb_neq). done.
Qed.

(** ** What [build] stages *)

Lemma name_snoc (d : path) (x : string) : name (d ++ [x]) = x.
Proof. unfold name. by rewrite last_snoc. Qed.

Lemma write_bytes_ok (p : path) (data : bytes) (w w' : World) :
  write_bytes p data w = (Ok tt, w') →
  w' = mkWorld (fs_set (w_fs w) p (File data)) (w_cwd w) (w_requests w) (w_checked w).
Proof.
  unfold write_bytes. rewrite bind_eq. simpl.
  destruct (fs_lookup (w_fs w) p) as [[c|]|]; try done;
    (destruct (fs_lookup (w_fs w) (parent p)) as [[|]|]; try done);
    by intros [= <-].
Qed.

Lemma copyfile_ok (src dst : path) (w w' : World) :
  copyfile src dst w = (Ok tt, w') →
  ∃ c, fs_lookup (w_fs w) src = Some (File c)
       ∧ w' = mkWorld (fs_set (w_fs w) dst (File c)) (w_cwd w) (w_requests w)
                (w_checked w).
Proof.
  unfold copyfile. case_decide; [ done | ].
  rewrite bind_eq. unfold read_bytes. rewrite bind_eq. simpl.
  destruct (fs_lookup (w_fs w) src) as [[c|]|]; try done.
  intros E. apply write_bytes_ok in E. by exists c.
Qed.

(** The loop over the executables of one tag. *)
Lemma build_exes_stage (s0 : FS) (dst : path) (D : path → Prop) (exes : list path) :
  (∀ p, D p → p ≠ []) →
  (∀ e plat, e ∈ exes → e ≠ Path_div dst ("py2.py3-none-" +:+ plat)) →
  ∀ (w w' : World) (cur : path → option node),
    (∀ e, e ∈ exes → fs_lookup (w_fs w) e = fs_lookup s0 e) →
    (∀ p, D p → fs_lookup (w_fs w) p = cur p) →
    for_each exes (build_exe dst) w = (Ok tt, w') →
    ∀ p, D p → fs_lookup (w_fs w') p = fold_left (stage_one s0 dst p) exes (cur p).
Proof.
  intros HD. induction exes as [|e exes IH]; intros Hne w w' cur Hsrc Hcur E p Hp.
  - injection E as <-. by apply Hcur.
  - simpl in E. rewrite bind_eq in E.
    destruct (build_exe dst e w) as [[[]|err] w1] eqn:E1; [ | done ].
    simpl. apply (IH ltac:(intros; apply Hne; by right) w1 w'
                    (fun p => stage_one s0 dst p (cur p) e)); [ | | exact E | exact Hp ];
      unfold build_exe in E1; rewrite bind_eq, is_file_run in E1;
      rewrite (Hsrc e ltac:(by left)) in E1; unfold stage_one.
    + intros e' He'. destruct (fs_lookup s0 e) as [[c|]|]; simpl in E1;
        try (injection E1 as <-; apply Hsrc; by right).
      destruct (map_platform (name e)) as [plat|];
        [ | injection E1 as <-; apply Hsrc; by right ].
      apply copyfile_ok in E1 as (c' & _ & ->). simpl.
      rewrite fs_lookup_set_ne; [ apply Hsrc; by right | ].
      intros Heq. eapply (Hne e' plat); [ by right | done ].
    + intros q Hq. destruct (fs_lookup s0 e) as [[c|]|] eqn:He; simpl in E1;
        try (injection E1 as <-; by apply Hcur).
      destruct (map_platform (name e)) as [plat|];
        [ | injection E1 as <-; by apply Hcur ].
      apply copyfile_ok in E1 as (c' & Hc' & ->). simpl.
      rewrite (Hsrc e ltac:(by left)), He in Hc'. injection Hc' as <-.
      case_decide as Hdst.
      * subst q. apply fs_lookup_set_eq. by apply HD.
      * rewrite fs_lookup_set_ne by done. by apply Hcur.
Qed.

Lemma cache_off_build_branch (l : path) :
  ¬ on_branch EXE_BUILD_DIR (EXE_CACHE_DIR ++ l).
Proof.
  rewrite EXE_BUILD_DIR_eq, EXE_CACHE_DIR_eq, <- !app_assoc. by apply not_on_branch.
Qed.

Lemma cache_ne_build (l1 l2 : path) : EXE_CACHE_DIR ++ l1 ≠ EXE_BUILD_DIR ++ l2.
Proof.
  rewrite EXE_BUILD_DIR_eq, EXE_CACHE_DIR_eq, <- !app_assoc.
  intros H. apply app_inv_head in H. done.
Qed.

Lemma Path_div_LICENSE (d : path) : Path_div d "LICENSE" = d ++ ["LICENSE"].
Proof. unfold Path_div. f_equal. Qed.

(** Making the staging directory of a tag leaves the cache and what lies
    below the directory as they are. *)
Lemma mkdir_stage (x : string) (w w1 : World) :
  mkdir (Path_div EXE_BUILD_DIR x) true false w = (Ok tt, w1) →
  agrees (on_branch EXE_BUILD_DIR) (w_fs w) (w_fs w1)
  ∧ ∀ z l, fs_lookup (w_fs w1) (Path_div EXE_BUILD_DIR x ++ z :: l)
           = fs_lookup (w_fs w) (Path_div EXE_BUILD_DIR x ++ z :: l).
Proof.
  intros Em. split.
  - eapply (Touches_mkdir (on_branch EXE_BUILD_DIR)); [ | exact Em ].
    intros q. apply on_branch_prefix.
  - assert (Touches (fun q => q `prefix_of` Path_div EXE_BUILD_DIR x)
              (mkdir (Path_div EXE_BUILD_DIR x) true false)) as Ht
      by (by apply Touches_mkdir).
    destruct (Ht w _ w1 Em) as [_ [Hl1 _]]. intros z l. apply Hl1.
    intros Hpre. apply prefix_length in Hpre. rewrite length_app in Hpre.
    simpl in Hpre. lia.
Qed.

(** The body of the loop of [build] after the staging directory is made:
    [w] is the state before the turn, [w1] the state with the new, empty
    directory. *)
Lemma build_tag_fills (x : string) (w w1 w' : World) (z : string) (l : path) :
  agrees (on_branch EXE_BUILD_DIR) (w_fs w) (w_fs w1) →
  (∀ z l, fs_lookup (w_fs w1) (Path_div EXE_BUILD_DIR x ++ z :: l) = None) →
  (copyfile (Path_div (EXE_CACHE_DIR ++ [x]) "LICENSE")
     (Path_div (Path_div EXE_BUILD_DIR x) "LICENSE") ;;;
   let! exes := glob (EXE_CACHE_DIR ++ [x]) (EXE_NAME +:+ "*") in
   for_each exes (build_exe (Path_div EXE_BUILD_DIR x))) w1 = (Ok tt, w') →
  fs_lookup (w_fs w') (Path_div EXE_BUILD_DIR x ++ z :: l)
  = staged (w_fs w) (EXE_CACHE_DIR ++ [x]) (Path_div EXE_BUILD_DIR x)
      (Path_div EXE_BUILD_DIR x ++ z :: l).
Proof.
  intros Hag1 Hbelow E. revert z l.
  rewrite bind_eq in E.
  destruct (copyfile _ _ w1) as [[[]|e] w2] eqn:Ec; [ | done ].
  assert (agrees (on_branch EXE_BUILD_DIR) (w_fs w) (w_fs w2)) as [Hl Hch].
  { eapply agrees_trans; [ exact Hag1 | ].
    eapply (Touches_copyfile (on_branch EXE_BUILD_DIR)); [ | exact Ec ].
    unfold Path_div. rewrite <- app_assoc. apply on_branch_below. }
  apply copyfile_ok in Ec as (c & Hc & Hw2).
  rewrite (proj1 Hag1) in Hc.
  2: { unfold Path_div. rewrite <- app_assoc. apply cache_off_build_branch. }
  rewrite bind_eq, glob_run in E.
  assert (glob_fs (w_fs w2) (EXE_CACHE_DIR ++ [x]) (EXE_NAME +:+ "*")
          = glob_fs (w_fs w) (EXE_CACHE_DIR ++ [x]) (EXE_NAME +:+ "*")) as Hglob.
  { unfold glob_fs. rewrite Hl, Hch; [ done | | apply cache_off_build_branch ].
    intros y. rewrite <- app_assoc. apply cache_off_build_branch. }
  rewrite Hglob in E. intros z l. unfold staged.
  pose (cur := fun p : path =>
                 if decide (p = Path_div (Path_div EXE_BUILD_DIR x) "LICENSE")
                 then fs_lookup (w_fs w) (Path_div (EXE_CACHE_DIR ++ [x]) "LICENSE")
                 else None).
  change (fs_lookup (w_fs w') (Path_div EXE_BUILD_DIR x ++ z :: l)
          = fold_left (stage_one (w_fs w) (Path_div EXE_BUILD_DIR x)
                         (Path_div EXE_BUILD_DIR x ++ z :: l))
              (glob_fs (w_fs w) (EXE_CACHE_DIR ++ [x]) (EXE_NAME +:+ "*"))
              (cur (Path_div EXE_BUILD_DIR x ++ z :: l))).
  apply (build_exes_stage (w_fs w) (Path_div EXE_BUILD_DIR x)
           (fun p => ∃ z l, p = Path_div EXE_BUILD_DIR x ++ z :: l)
           (glob_fs (w_fs w) (EXE_CACHE_DIR ++ [x]) (EXE_NAME +:+ "*")))
    with (w := w2); [ | | | | exact E | by eauto ]; unfold cur; clear cur.
  - intros p (z' & l' & ->). by destruct (Path_div EXE_BUILD_DIR x).
  - intros e plat He. unfold glob_fs in He. destruct (is_dir_node _); [ | by inversion He ].
    apply list_elem_of_In, in_map_iff in He as (y & <- & _).
    unfold Path_div. rewrite <- !app_assoc. apply cache_ne_build.
  - intros e He. apply Hl. unfold glob_fs in He.
    destruct (is_dir_node _); [ | by inversion He ].
    apply list_elem_of_In, in_map_iff in He as (y & <- & _).
    rewrite <- app_assoc. apply cache_off_build_branch.
  - intros p (z' & l' & ->). rewrite Hw2. cbn [w_fs].
    case_decide as Hp.
    + rewrite Hp. rewrite fs_lookup_set_eq; [ by rewrite Hc | ].
      rewrite Path_div_LICENSE. by destruct (Path_div EXE_BUILD_DIR x).
    + rewrite fs_lookup_set_ne by done. apply Hbelow.
Qed.

(** X16: one turn of the loop of [build], for a directory [x] of the
    cache that has not been staged yet, on a well-formed file system: when
    it succeeds, the staging directory of [x] holds exactly the license of
    the cached tag and, under its platform name, each executable that
    [map_platform] knows, byte for byte (of two for one platform, the one
    listed later), and nothing else. *)
Theorem build_stages_copies (x : string) (w w' : World) (z : string) (l : path) :
  fs_wf (w_fs w) = true →
  is_dir_node (fs_lookup (w_fs w) (EXE_CACHE_DIR ++ [x])) = true →
  fs_lookup (w_fs w) (Path_div EXE_BUILD_DIR x) = None →
  build_tag (EXE_CACHE_DIR ++ [x]) w = (Ok tt, w') →
  fs_lookup (w_fs w') (Path_div EXE_BUILD_DIR x ++ z :: l)
  = staged (w_fs w) (EXE_CACHE_DIR ++ [x]) (Path_div EXE_BUILD_DIR x)
      (Path_div EXE_BUILD_DIR x ++ z :: l).
Proof.
  intros Hwf Hd Hfresh E.
  unfold build_tag in E. rewrite bind_eq, is_dir_run, Hd in E. cbn [negb] in E.
  cbv zeta in E. rewrite name_snoc in E.
  rewrite bind_eq in E. unfold try in E.
  destruct (mkdir _ true false w) as [[[]|e] w1] eqn:Em.
  2: { destruct e; try done. apply mkdir_exists_error in Em as [_ Hex].
       by rewrite Hfresh in Hex. }
  destruct (mkdir_stage x w w1 Em) as [Hag1 Hsame].
  apply (build_tag_fills x w w1 w'); [ exact Hag1 | | exact E ].
  intros z' l'. rewrite Hsame. by apply fs_wf_below.
Qed.

Lemma Path_div_plain (d : path) (x : string) :
  path_parts x = [x] → Path_div d x = d ++ [x].
Proof. unfold Path_div. by intros ->. Qed.

(** X17: a turn of the loop of [build] that fails on a missing license
    leaves the staging directory of the tag behind, empty; from then on
    [build] takes the tag for staged and skips it, so the tag is never
    staged unless the directory is removed (as the clean flag does). *)
Theorem build_failure_leaves_empty_stage (x : string) (w : World) :
  path_parts x = [x] →
  is_dir_node (fs_lookup (w_fs w) (EXE_CACHE_DIR ++ [x])) = true →
  is_dir_node (fs_lookup (w_fs w) EXE_BUILD_DIR) = true →
  fs_lookup (w_fs w) (EXE_BUILD_DIR ++ [x]) = None →
  fs_lookup (w_fs w) (EXE_CACHE_DIR ++ [x; "LICENSE"]) = None →
  build_tag (EXE_CACHE_DIR ++ [x]) w
  = (Raise FileNotFoundError, with_dir w (EXE_BUILD_DIR ++ [x]))
  ∧ build_tag (EXE_CACHE_DIR ++ [x]) (with_dir w (EXE_BUILD_DIR ++ [x]))
    = (Ok tt, with_dir w (EXE_BUILD_DIR ++ [x])).
Proof.
  intros Hx Hd Hb Hfresh Hlic.
  assert (mkdir (EXE_BUILD_DIR ++ [x]) true false w
          = (Ok tt, with_dir w (EXE_BUILD_DIR ++ [x]))) as Hmk.
  { unfold mkdir. rewrite mkdir_parents_unfold. cbv zeta. rewrite rev_involutive.
    unfold try. rewrite bind_eq, os_mkdir_cases, Hfresh. unfold parent.
    rewrite removelast_snoc. by destruct (fs_lookup (w_fs w) EXE_BUILD_DIR) as [[|]|]. }
  split.
  - unfold build_tag. rewrite bind_eq, is_dir_run, Hd. cbn [negb]. cbv zeta.
    rewrite name_snoc, (Path_div_plain _ x Hx).
    rewrite bind_eq. unfold try. rewrite Hmk, bind_eq.
    rewrite !Path_div_LICENSE, <- !app_assoc.
    unfold copyfile. rewrite decide_False by apply cache_ne_build.
    rewrite bind_eq. unfold read_bytes. rewrite bind_eq. simpl.
    rewrite fs_lookup_set_ne by (intros H; symmetry in H; by apply cache_ne_build in H).
    by rewrite Hlic.
  - unfold build_tag. rewrite bind_eq, is_dir_run.
    change (w_fs (with_dir w (EXE_BUILD_DIR ++ [x])))
      with (fs_set (w_fs w) (EXE_BUILD_DIR ++ [x]) Dir).
    rewrite fs_lookup_set_ne by (intros H; symmetry in H; by apply cache_ne_build in H).
    rewrite Hd. cbn [negb]. cbv zeta. rewrite name_snoc, (Path_div_plain _ x Hx).
    rewrite bind_eq. unfold try. rewrite mkdir_of_existing; [ done | ].
    change (w_fs (with_dir w (EXE_BUILD_DIR ++ [x])))
      with (fs_set (w_fs w) (EXE_BUILD_DIR ++ [x]) Dir).
    rewrite fs_lookup_set_eq; [ done | ]. by destruct EXE_BUILD_DIR.
Qed.

(** ** The test looks where [assemble] puts nothing *)

Lemma fs_assoc_elem (s : FS) (p : path) (n : node) :
  (p, n) ∈ s → fs_assoc s p ≠ None.
Proof.
  induction s as [|[q m] s IH]; intros Hin; [ by apply elem_of_nil in Hin | ].
  simpl. case_decide as Hq; [ done | ].
  apply elem_of_cons in Hin as [Hin|Hin]; [ congruence | by apply IH ].
Qed.

Lemma fs_children_lookup (s : FS) (d : path) (x : string) :
  x ∈ fs_children s d → fs_lookup s (d ++ [x]) ≠ None.
Proof.
  unfold fs_children. intros Hin. apply list_elem_of_omap in Hin as ([q n] & Hq & Hc).
  simpl in Hc. apply child_name_Some in Hc. subst q.
  rewrite fs_lookup_ne_nil by (by destruct d). by eapply fs_assoc_elem.
Qed.

Lemma filter_none {A} (f : A → bool) (l : list A) :
  (∀ x, x ∈ l → f x = false) → List.filter f l = [].
Proof.
  induction l as [|a l IH]; intros H; [ done | ]. simpl.
  rewrite (H a) by (by left). apply IH. intros x Hx. apply H. by right.
Qed.

Lemma for_acc_invariant {A S} (I : World → Prop) (body : S → A → M S) :
  (∀ acc x w r w', body acc x w = (r, w') → I w → I w') →
  ∀ l acc w r w', for_acc l acc body w = (r, w') → I w → I w'.
Proof.
  intros Hb. induction l as [|x l IH]; intros acc w r w' E Hw.
  - by injection E as <- <-.
  - simpl in E. rewrite bind_eq in E.
    destruct (body acc x w) as [[acc'|e] w1] eqn:E1.
    + eapply IH; [ exact E | ]. by eapply Hb.
    + injection E as <- <-. by eapply Hb.
Qed.

Lemma versions_only_assemble_tag (h : Host) (sfx desc : string) (md : pydict * pydict)
    (tag_dir : path) (w : World) (r : outcome (pydict * pydict)) (w' : World) :
  (∀ s v, normalize_version s = Some v → path_parts v = [v]) →
  assemble_tag h sfx desc md tag_dir w = (r, w') →
  versions_only (w_fs w) → versions_only (w_fs w').
Proof.
  intros Hplain E Hw. unfold assemble_tag in E. rewrite bind_eq, is_dir_run in E.
  destruct (negb _); [ by injection E as <- <- | ]. cbv zeta in E.
  destruct (normalize_version _) as [v|] eqn:Hv; [ | by injection E as <- <- ].
  rewrite (Path_div_plain _ v (Hplain _ _ Hv)) in E.
  match type of E with
  | ?c w = _ => assert (Touches (on_branch (DIST_DIR ++ [v])) c) as Ht
  end.
  { repeat (touches_step ltac:(first [ apply Touches_mkdir ]));
      first [ intros q; apply on_branch_above
            | unfold Path_div; apply on_branch_below ]. }
  destruct (Ht w r w' E) as [_ [Hl _]].
  intros x Hx. destruct (decide (x = v)) as [->|Hne]; [ by eauto | ].
  apply Hw. rewrite <- Hl; [ done | ].
  intros [Hp|Hp]; apply prefix_app_inv, prefix_cons_inv_1 in Hp; congruence.
Qed.

(** X18: the command [test] looks for its wheel among the entries of the
    distribution directory itself, where [assemble] puts nothing but one
    directory per version.  So after a clean [assemble] the test finds no
    wheel and ends with [SystemExit(1)], whatever the platform, unless a
    version is named like a wheel. *)
Theorem test_misses_assembled_wheels (h : Host) (dev : bool) (tag : string)
    (sys : System) (machine version : string) (w w' : World) :
  fs_wf (w_fs w) = true →
  PyStr.contains "/"%char version = false →
  (∀ s v, normalize_version s = Some v → path_parts v = [v]) →
  (∀ s v, normalize_version s = Some v →
          fnmatch v (test_glob sys machine version) = false) →
  assemble h true dev tag w = (Ok tt, w') →
  test_find sys machine version w' = (Raise (SystemExit 1), w').
Proof.
  intros Hwf _ Hplain Hmiss E.
  assert (versions_only (w_fs w')) as Hv.
  { unfold assemble in E. rewrite bind_eq in E.
    destruct (maybe_clean true DIST_DIR w) as [[[]|e] w1] eqn:E1; [ | done ].
    destruct (maybe_clean_true_empties _ _ _ Hwf E1) as [_ H0].
    assert (versions_only (w_fs w1)) as H1 by (intros x Hx; by rewrite H0 in Hx).
    clear E1 H0 Hwf.
    rewrite bind_eq in E.
    pose proof (Touches_version_suffix_of (fun _ => False) dev w1) as Hs.
    destruct (version_suffix_of dev w1) as [[sfx|e] w2]; [ | done ].
    destruct (Hs _ _ eq_refl) as [_ [Hl2 _]].
    rewrite bind_eq, bind_eq in E.
    pose proof (Touches_read_bytes (fun _ => False) PRJ_DESC_PATH w2) as Hr.
    destruct (read_bytes PRJ_DESC_PATH w2) as [[desc|e] w3]; [ | done ].
    destruct (Hr _ _ eq_refl) as [_ [Hl3 _]].
    cbn [ret] in E. rewrite bind_eq, glob_run, bind_eq in E.
    destruct (for_acc _ _ _ w3) as [[md|e] w4] eqn:Eloop; [ | done ].
    injection E as <-.
    eapply (for_acc_invariant (fun w => versions_only (w_fs w))); [ | exact Eloop | ].
    - intros acc x w5 r w6 E6. by eapply versions_only_assemble_tag.
    - intros x Hx. apply H1. rewrite <- Hl2, <- Hl3 by (by intros []). exact Hx. }
  unfold test_find. rewrite bind_eq, glob_run. unfold glob_fs.
  destruct (is_dir_node _); [ | done ].
  rewrite filter_none; [ done | ].
  intros x Hx. apply fs_children_lookup, Hv in Hx as [str Hstr]. by eapply Hmiss.
Qed.

(** ** The globs of the two tests and the names of the wheels *)

Lemma fnmatch_star (pat s : string) :
  Sample.fnmatch_pat (String "*"%char pat) s
  = Sample.fnmatch_pat pat s
    || match s with
       | EmptyString => false
       | String _ s' => Sample.fnmatch_pat (String "*"%char pat) s'
       end.
Proof. by destruct s. Qed.

Lemma fnmatch_star_skip (pat s1 s2 : string) :
  Sample.fnmatch_pat (String "*"%char pat) s2 = true →
  Sample.fnmatch_pat (String "*"%char pat) (s1 +:+ s2) = true.
Proof.
  intros H. induction s1 as [|a s1 IH]; [ done | ].
  change (String a s1 +:+ s2) with (String a (s1 +:+ s2)).
  rewrite fnmatch_star, IH. apply orb_true_r.
Qed.

Lemma fnmatch_star_dash (pat s t : string) :
  PyStr.contains "-"%char s = false →
  Sample.fnmatch_pat (String "*"%char (String "-"%char pat)) (s +:+ t)
  = Sample.fnmatch_pat (String "*"%char (String "-"%char pat)) t.
Proof.
  induction s as [|a s IH]; intros Hs; [ done | ].
  change (String a s +:+ t) with (String a (s +:+ t)).
  simpl in Hs. destruct (Ascii.eqb_spec a "-"%char) as [|Ha]; [ done | ].
  rewrite fnmatch_star, IH by done.
  cbn [Sample.fnmatch_pat].
  assert (Ascii.eqb "-"%char a = false) as -> by (apply Ascii.eqb_neq; congruence).
  done.
Qed.

(** X19: the glob of [bin/test.py] matches the name [assemble] gives the
    wheel of the host's own platform, for every version and each of the
    six platforms of the table (with the machine name as Python reports
    it there). *)
Theorem bin_test_glob_matches_own_wheel (sys : System) (machine key tag version : string) :
  (sys, machine, key) ∈ reported_hosts →
  PLATFORMS !! key = Some tag →
  Sample.fnmatch (wheel_file_name version tag) (bin_test_glob sys machine) = true.
Proof.
  intros Hin Hk. unfold reported_hosts in Hin.
  repeat (apply elem_of_cons in Hin; destruct Hin as [Hin|Hin];
          [ injection Hin as -> -> ->; vm_compute in Hk; injection Hk as <-;
            apply fnmatch_star_skip; vm_compute; reflexivity | ]).
  by apply elem_of_nil in Hin.
Qed.

Lemma fnmatch_literal (lit pat s : string) :
  PyStr.contains "*"%char lit = false →
  Sample.fnmatch_pat (lit +:+ pat) (lit +:+ s) = Sample.fnmatch_pat pat s.
Proof.
  induction lit as [|c lit IH]; intros Hl; [ done | ].
  change (String c lit +:+ pat) with (String c (lit +:+ pat)).
  change (String c lit +:+ s) with (String c (lit +:+ s)).
  simpl in Hl. destruct (Ascii.eqb c "*"%char) eqn:Hc; [ done | ].
  cbn [Sample.fnmatch_pat]. rewrite Hc, Ascii.eqb_refl. simpl. by apply IH.
Qed.

(** X20: on Linux the glob of the command [test] (with the default
    version pattern) matches no wheel name of [assemble]: it asks for
    [-linux] after a hyphen, where the platform tags have [-manylinux].
    This holds for every version without a hyphen, as normalised versions
    are. *)
Theorem test_glob_misses_linux_wheels (machine key tag version : string) :
  (Linux, machine, key) ∈ reported_hosts →
  PLATFORMS !! key = Some tag →
  PyStr.contains "-"%char version = false →
  Sample.fnmatch (wheel_file_name version tag) (test_glob Linux machine "*") = false.
Proof.
  intros Hin Hk Hv.
  assert (∀ rest pat,
            Sample.fnmatch_pat ("buf_exe-" +:+ String "*"%char (String "-"%char pat))
              ("buf_exe-" +:+ (version +:+ rest))
            = Sample.fnmatch_pat (String "*"%char (String "-"%char pat)) rest) as Hstep.
  { intros rest pat. rewrite fnmatch_literal by done. by apply fnmatch_star_dash. }
  unfold reported_hosts in Hin.
  repeat (apply elem_of_cons in Hin; destruct Hin as [Hin|Hin];
          [ try discriminate Hin; injection Hin as -> ->; vm_compute in Hk;
            injection Hk as <-; apply Hstep | ]).
  by apply elem_of_nil in Hin.
Qed.

(** ** Without a token, and without the release *)


(** X22: [download] with the clean flag empties the cache before it
    looks the release up: when the lookup is answered with a client or
    server error, the command ends with that [HTTPError] after this one
    request, and what the cache held is gone. *)
Theorem download_clean_without_release (tag : string) (w w1 : World) :
  fs_wf (w_fs w) = true →
  GITHUB_TOKEN ≠ None ∨ GH_TOKEN ≠ None →
  400 ≤ status_code (http_get (release_lookup_url tag)) < 600 →
  maybe_clean true EXE_CACHE_DIR w = (Ok tt, w1) →
  download tag true w
  = (Raise (HTTPError (status_code (http_get (release_lookup_url tag)))),
     after_requests w1 [release_lookup_url tag])
  ∧ is_dir_node (fs_lookup (w_fs w1) EXE_CACHE_DIR) = true
  ∧ ∀ x l, fs_lookup (w_fs w1) (EXE_CACHE_DIR ++ x :: l) = None.
Proof.
  intros Hwf Htok Hst E1. split; [ | by eapply maybe_clean_true_empties ].
  unfold download. rewrite bind_eq, E1, bind_eq.
  assert (∃ t, gh_token w1 = (Ok t, w1)) as [t ->].
  { unfold gh_token. destruct GITHUB_TOKEN, GH_TOKEN; try by eauto.
    by destruct Htok. }
  cbv zeta. rewrite bind_eq, session_get_run, bind_eq.
  fold (release_lookup_url tag). unfold raise_for_status.
  destruct (Z.leb_spec 400 (status_code (http_get (release_lookup_url tag))));
    [ | lia ].
  destruct (Z.ltb_spec (status_code (http_get (release_lookup_url tag))) 600);
    [ | lia ].
  done.
Qed.

(** ** [maybe_clean] *)

(** X23: what [maybe_clean] leaves on a well-formed file system.  When it
    succeeds the directory exists; with the flag it is empty, without the
    flag every entry is as before.  When the path is a regular file the
    call fails, and changes nothing, with [NotADirectoryError] with the
    flag and with [FileExistsError] without. *)
Theorem maybe_clean_result (clean : bool) (d : path) (w : World) :
  fs_wf (w_fs w) = true →
  (∀ w', maybe_clean clean d w = (Ok tt, w') →
     is_dir_node (fs_lookup (w_fs w') d) = true
     ∧ (if clean then ∀ x l, fs_lookup (w_fs w') (d ++ x :: l) = None
        else grows (w_fs w) (w_fs w')))
  ∧ (is_file_node (fs_lookup (w_fs w) d) = true →
     maybe_clean clean d w
     = (Raise (if clean then NotADirectoryError else FileExistsError), w)).
Proof.
  intros Hwf. split.
  - intros w' E. destruct clean.
    + by apply (maybe_clean_true_empties d w w').
    + split; [ | by eapply Grows_maybe_clean ].
      rewrite maybe_clean_false in E. by eapply mkdir_makes_dir.
  - intros Hf. destruct (fs_lookup (w_fs w) d) as [[c|]|] eqn:Hd; try done.
    destruct clean.
    + unfold maybe_clean. rewrite bind_eq, path_exists_run, Hd. cbn [andb is_some_node].
      rewrite bind_eq. unfold rmtree. rewrite bind_eq. simpl. by rewrite Hd.
    + rewrite maybe_clean_false. unfold mkdir. rewrite mkdir_parents_unfold. cbv zeta.
      rewrite rev_involutive. unfold try. rewrite bind_eq, os_mkdir_cases, Hd.
      rewrite bind_eq, is_dir_run, Hd. done.
Qed.

(** ** An explicit tag is cached where [build] does not look *)




Lemma child_name_snoc (d : path) (x : string) : child_name d (d ++ [x]) = Some x.
Proof.
  unfold child_name. destruct (d ++ [x]) eqn:E; [ by destruct d | ].
  rewrite <- E, removelast_snoc, decide_True by done. by rewrite last_snoc.
Qed.

Lemma fs_lookup_children (s : FS) (d : path) (x : string) :
  fs_lookup s (d ++ [x]) ≠ None → x ∈ fs_children s d.
Proof.
  rewrite fs_lookup_ne_nil by (by destruct d). intros H.
  destruct (fs_assoc s (d ++ [x])) as [n|] eqn:E; [ | done ].
  apply fs_assoc_In, list_elem_of_In in E. unfold fs_children.
  apply list_elem_of_omap. exists (d ++ [x], n). split; [ done | ].
  apply child_name_snoc.
Qed.




(** ** A wheel does not depend on the wheels assembled before it *)

Lemma pypi_carried_reset (pm : pydict) (version url : string) :
  pypi_carried pm →
  dict_set (dict_set pm "Version" (HStr version)) "Download-URL" (HStr url)
  = dict_set (dict_set PYPI_METADATA "Version" (HStr version)) "Download-URL" (HStr url).
Proof. by intros [->|(v & u & ->)]. Qed.

Lemma whl_carried_reset (wm : pydict) (tag : string) :
  whl_carried wm →
  dict_set wm "Tag" (HStr tag) = dict_set WHL_METADATA "Tag" (HStr tag).
Proof. by intros [->|(t & ->)]. Qed.

Lemma alike_refl {A} (Q : A → Prop) (r : outcome A * World) :
  (∀ a, r.1 = Ok a → Q a) → alike Q r r.
Proof. intros H. split; [ done | ]. destruct r as [[a|e] w]; simpl in *; auto. Qed.

Lemma assemble_wheel_alike (h : Host) (whl_dir : path) (whl_name : string)
    (license_ : bytes) (pm : pydict) (desc : string) (wm1 wm2 : pydict)
    (exe_file : path) (w : World) :
  whl_carried wm1 → whl_carried wm2 →
  alike whl_carried
    (assemble_wheel h whl_dir whl_name license_ pm desc wm1 exe_file w)
    (assemble_wheel h whl_dir whl_name license_ pm desc wm2 exe_file w).
Proof.
  intros H1 H2. unfold assemble_wheel. rewrite !bind_eq, !is_file_run.
  destruct (negb _); [ by split | ]. cbv zeta. rewrite !bind_eq, !path_exists_run.
  destruct (is_some_node _); [ by split | ].
  rewrite (whl_carried_reset wm1), (whl_carried_reset wm2) by done.
  apply alike_refl. intros a Ha.
  match type of Ha with
  | (bind ?c1 ?k ?w0).1 = _ => rewrite bind_eq in Ha; destruct (c1 w0) as [[[]|e] w1]
  end; [ | done ].
  rewrite bind_eq in Ha. destruct (try _ w1) as [[[exe|e]|e] w2]; try done.
  - rewrite bind_eq in Ha. destruct (write_bytes _ _ w2) as [[[]|e] w3]; [ | done ].
    injection Ha as <-. right. by eexists.
  - rewrite bind_eq in Ha. by destruct (write_bytes _ _ w2) as [[[]|e'] w3].
Qed.

Lemma assemble_wheels_alike (h : Host) (whl_dir : path) (whl_name : string)
    (license_ : bytes) (pm : pydict) (desc : string) (exes : list path) :
  ∀ (wm1 wm2 : pydict) (w : World),
    whl_carried wm1 → whl_carried wm2 →
    alike whl_carried
      (for_acc exes wm1 (assemble_wheel h whl_dir whl_name license_ pm desc) w)
      (for_acc exes wm2 (assemble_wheel h whl_dir whl_name license_ pm desc) w).
Proof.
  induction exes as [|x exes IH]; intros wm1 wm2 w H1 H2; [ by split | ].
  simpl. rewrite !bind_eq.
  destruct (assemble_wheel_alike h whl_dir whl_name license_ pm desc wm1 wm2 x w H1 H2)
    as [Hw Hr].
  destruct (assemble_wheel _ _ _ _ _ _ wm1 x w) as [[a1|e1] w1];
    destruct (assemble_wheel _ _ _ _ _ _ wm2 x w) as [[a2|e2] w2];
    simpl in Hw, Hr; subst; try done.
  destruct Hr. by apply IH.
Qed.

(** X25: the metadata dicts are shared by all turns of the loops of
    [assemble], but no wheel depends on the wheels assembled before it:
    with dicts as an earlier turn can have left them, a turn does to the
    file system exactly what it does as the first turn, with the dicts as
    they are at the start, and fails alike; the dicts it hands on are
    again of that kind. *)
Theorem assemble_forgets_earlier_wheels (h : Host) (sfx desc : string)
    (md : pydict * pydict) (tag_dir : path) (w : World) :
  carried md →
  alike carried
    (assemble_tag h sfx desc md tag_dir w)
    (assemble_tag h sfx desc (PYPI_METADATA, WHL_METADATA) tag_dir w).
Proof.
  intros [Hp Hw].
  assert (carried (PYPI_METADATA, WHL_METADATA)) as H0 by (split; by left).
  unfold assemble_tag. rewrite !bind_eq, !is_dir_run.
  destruct (negb _); [ by split | ]. cbv zeta.
  destruct (normalize_version _) as [v|]; [ | by split ].
  rewrite !bind_eq. destruct (mkdir _ true true w) as [[[]|e] w1]; [ | by split ].
  rewrite !bind_eq. destruct (read_bytes _ w1) as [[lic|e] w2]; [ | by split ].
  rewrite !bind_eq, !glob_run, !bind_eq. cbn [fst snd].
  rewrite (pypi_carried_reset md.1) by done.
  destruct (assemble_wheels_alike h (Path_div DIST_DIR v) (WHL_NAME +:+ "-" +:+ v) lic
              (dict_set (dict_set PYPI_METADATA "Version" (HStr v)) "Download-URL"
                 (HStr (UPSTREAM_URL +:+ "/releases/tag/" +:+ name tag_dir)))
              desc (glob_fs (w_fs w2) tag_dir "py2.py3-none-*") md.2 WHL_METADATA w2)
    as [Hw3 Hr]; [ done | by left | ].
  destruct (for_acc _ md.2 _ w2) as [[a1|e1] w3];
    destruct (for_acc _ WHL_METADATA _ w2) as [[a2|e2] w4];
    simpl in Hw3, Hr; subst; try done.
  destruct Hr as [Ha1 Ha2]. split; [ done | ]. simpl.
  split; (split; [ right; by eauto | done ]).
Qed.

(** ** What [assemble] writes for a tag *)












(** ** What [build] stages, tag by tag *)

Lemma fold_left_ext_in {A B} (f g : A → B → A) (l : list B) :
  (∀ a e, e ∈ l → f a e = g a e) → ∀ a, fold_left f l a = fold_left g l a.
Proof.
  induction l as [|x l IH]; intros H a; [ done | ]. simpl.
  rewrite (H a x) by (by left). apply IH. intros b e He. apply H. by right.
Qed.

Lemma glob_cache_agrees (s t : FS) (l : path) (pat : string) :
  agrees (on_branch EXE_BUILD_DIR) s t →
  glob_fs t (EXE_CACHE_DIR ++ l) pat = glob_fs s (EXE_CACHE_DIR ++ l) pat.
Proof.
  intros [Hl Hch]. unfold glob_fs.
  rewrite Hl, Hch; [ done | | apply cache_off_build_branch ].
  intros y. rewrite <- app_assoc. apply cache_off_build_branch.
Qed.


Lemma glob_fs_elem (s : FS) (d : path) (pat : string) (src : path) :
  src ∈ glob_fs s d pat →
  ∃ y, src = d ++ [y] ∧ y ∈ fs_children s d ∧ fnmatch y pat = true.
Proof.
  unfold glob_fs. destruct (is_dir_node (fs_lookup s d)); [ | by inversion 1 ].
  intros Hy. apply list_elem_of_fmap in Hy as (y & -> & Hy). exists y.
  apply list_elem_of_In, filter_In in Hy as [Hc Hm]. by apply list_elem_of_In in Hc.
Qed.


(** What is staged from the cache does not depend on the staging area. *)
Lemma staged_agrees (s t : FS) (x : string) (dst p : path) :
  agrees (on_branch EXE_BUILD_DIR) s t →
  staged t (EXE_CACHE_DIR ++ [x]) dst p = staged s (EXE_CACHE_DIR ++ [x]) dst p.
Proof.
  intros Hag. unfold staged. rewrite (glob_cache_agrees s t) by done.
  destruct Hag as [Hl Hch].
  rewrite (Path_div_LICENSE (EXE_CACHE_DIR ++ [x])), <- app_assoc, Hl
    by apply cache_off_build_branch.
  apply fold_left_ext_in. intros cur e He. unfold stage_one.
  rewrite Hl; [ done | ]. unfold glob_fs in He.
  destruct (is_dir_node _); [ | by inversion He ].
  apply list_elem_of_In, in_map_iff in He as (y & <- & _).
  rewrite <- app_assoc. apply cache_off_build_branch.
Qed.

Lemma Touches_build_tag_own (y : string) :
  path_parts y = [y] →
  Touches (on_branch (EXE_BUILD_DIR ++ [y])) (build_tag (EXE_CACHE_DIR ++ [y])).
Proof.
  intros Hy. unfold build_tag. rewrite name_snoc, (Path_div_plain _ y Hy).
  repeat (touches_step ltac:(first [ apply Touches_copyfile | apply Touches_mkdir ])).
  - intros q. apply on_branch_above.
  - unfold Path_div. apply on_branch_below.
  - unfold build_exe.
    repeat (touches_step ltac:(first [ apply Touches_copyfile ])).
    unfold Path_div. apply on_branch_below.
Qed.

Lemma build_tags_stage (s : FS) (srcs : list path) :
  (∀ src, src ∈ srcs → ∃ y, src = EXE_CACHE_DIR ++ [y] ∧ path_parts y = [y]) →
  ∀ (seen : list path) (w w' : World),
    agrees (on_branch EXE_BUILD_DIR) s (w_fs w) →
    (∀ x, if decide (EXE_CACHE_DIR ++ [x] ∈ seen
                     ∧ is_dir_node (fs_lookup s (EXE_CACHE_DIR ++ [x])) = true)
          then tag_staged s (w_fs w) x else tag_absent (w_fs w) x) →
    for_each srcs build_tag w = (Ok tt, w') →
    ∀ x, if decide (EXE_CACHE_DIR ++ [x] ∈ seen ++ srcs
                    ∧ is_dir_node (fs_lookup s (EXE_CACHE_DIR ++ [x])) = true)
         then tag_staged s (w_fs w') x else tag_absent (w_fs w') x.
Proof.
  induction srcs as [|src srcs IH]; intros Hsrcs seen w w' Hag Hinv E.
  - injection E as <-. by rewrite app_nil_r.
  - simpl in E. rewrite bind_eq in E.
    destruct (build_tag src w) as [[[]|e] w1] eqn:E1; [ | done ].
    destruct (Hsrcs src ltac:(by left)) as (y & -> & Hy).
    rewrite cons_middle, app_assoc.
    apply (IH ltac:(intros; apply Hsrcs; by right) _ w1 w'); [ | | exact E ].
    { eapply agrees_trans; [ exact Hag | ]. by eapply Touches_build_tag. }
    intros x. specialize (Hinv x).
    pose proof (Touches_build_tag_own y Hy w _ w1 E1) as [_ [Hl1 _]].
    assert (fs_lookup (w_fs w) (EXE_CACHE_DIR ++ [y]) = fs_lookup s (EXE_CACHE_DIR ++ [y]))
      as Hsrc by (apply Hag, cache_off_build_branch).
    destruct (decide (x = y)) as [->|Hxy].
    + (* the turn of this tag *)
      destruct (is_dir_node (fs_lookup s (EXE_CACHE_DIR ++ [y]))) eqn:Hd.
      * rewrite decide_True by (split; [ apply elem_of_app; right; by left | done ]).
        case_decide as Hseen.
        -- (* staged before: skipped *)
           destruct Hinv as [Hex Hst].
           assert (w1 = w) as ->; [ | by split ].
           unfold build_tag in E1. rewrite bind_eq, is_dir_run, Hsrc, Hd in E1.
           cbn [negb] in E1. cbv zeta in E1.
           rewrite name_snoc, (Path_div_plain _ y Hy) in E1.
           rewrite bind_eq in E1. unfold try in E1.
           rewrite mkdir_of_existing in E1; [ by injection E1 | ].
           by destruct (fs_lookup (w_fs w) (EXE_BUILD_DIR ++ [y])) as [[|]|].
        -- (* staged now *)
           unfold build_tag in E1. rewrite bind_eq, is_dir_run, Hsrc, Hd in E1.
           cbn [negb] in E1. cbv zeta in E1. rewrite name_snoc in E1.
           rewrite bind_eq in E1. unfold try in E1.
           destruct (mkdir _ true false w) as [[[]|e] wa] eqn:Em.
           2: { destruct e; try done. apply mkdir_exists_error in Em as [_ Hex].
                rewrite (Path_div_plain _ y Hy), (Hinv []) in Hex. done. }
           destruct (mkdir_stage y w wa Em) as [Hag1 Hsame].
           assert (∀ z l, fs_lookup (w_fs w1) (Path_div EXE_BUILD_DIR y ++ z :: l)
                          = staged (w_fs w) (EXE_CACHE_DIR ++ [y])
                              (Path_div EXE_BUILD_DIR y)
                              (Path_div EXE_BUILD_DIR y ++ z :: l)) as Hst.
           { intros z l. apply (build_tag_fills y w wa w1); [ exact Hag1 | | exact E1 ].
             intros z' l'. rewrite Hsame, (Path_div_plain _ y Hy), <- app_assoc.
             apply Hinv. }
           rewrite (Path_div_plain _ y Hy) in Em, E1, Hst.
           split.
           ++ apply mkdir_makes_dir in Em.
              assert (Touches (on_branch EXE_BUILD_DIR)
                        (copyfile (Path_div (EXE_CACHE_DIR ++ [y]) "LICENSE")
                           (Path_div (EXE_BUILD_DIR ++ [y]) "LICENSE") ;;;
                         let! exes := glob (EXE_CACHE_DIR ++ [y]) (EXE_NAME +:+ "*") in
                         for_each exes (build_exe (EXE_BUILD_DIR ++ [y])))) as Ht.
              { repeat (touches_step ltac:(first [ apply Touches_copyfile ])).
                - unfold Path_div. rewrite <- app_assoc. apply on_branch_below.
                - unfold build_exe.
                  repeat (touches_step ltac:(first [ apply Touches_copyfile ])).
                  unfold Path_div. rewrite <- app_assoc. apply on_branch_below. }
              destruct (Ht wa _ w1 E1) as [Hk _].
              by apply (keeps_is_dir _ _ _ Hk) in Em.
           ++ intros z l. rewrite <- (staged_agrees s (w_fs w) y) by done.
              specialize (Hst z l). by rewrite <- app_assoc in Hst.
      * (* no directory: nothing happens *)
        rewrite decide_False in Hinv by (intros [_ ?]; done).
        rewrite decide_False by (intros [_ ?]; done).
        assert (w1 = w) as ->; [ | done ].
        unfold build_tag in E1. rewrite bind_eq, is_dir_run, Hsrc, Hd in E1.
        by injection E1.
    + (* the turn of another tag *)
      assert (∀ l, fs_lookup (w_fs w1) (EXE_BUILD_DIR ++ x :: l)
                   = fs_lookup (w_fs w) (EXE_BUILD_DIR ++ x :: l)) as Hsame.
      { intros l. apply Hl1. intros [Hp|Hp];
          apply prefix_app_inv in Hp; [ | apply prefix_cons_inv_1 in Hp; congruence ].
        destruct Hp as [k Hk]. by injection Hk. }
      assert (EXE_CACHE_DIR ++ [x] ∈ seen ++ [EXE_CACHE_DIR ++ [y]]
              ∧ is_dir_node (fs_lookup s (EXE_CACHE_DIR ++ [x])) = true
              ↔ EXE_CACHE_DIR ++ [x] ∈ seen
                ∧ is_dir_node (fs_lookup s (EXE_CACHE_DIR ++ [x])) = true) as Hiff.
      { rewrite elem_of_app, list_elem_of_singleton. split; [ | intros []; by split; [ left | ] ].
        intros [[Hin|Heq] Hd]; [ done | ]. apply app_inv_head in Heq. congruence. }
      rewrite (decide_ext _ _ _ _ Hiff).
      destruct (decide _) as [Hc|Hc].
      * destruct Hinv as [Hex Hst]. split.
        -- by rewrite (Hsame []).
        -- intros z l. rewrite Hsame. apply Hst.
      * intros l. rewrite Hsame. apply Hinv.
Qed.

(** What [build --clean] leaves, tag by tag, when what the staging area
    held is removed with it. *)
Lemma build_clean_result (g : string) (w w' : World) (x : string) :
  (fs_lookup (w_fs w) EXE_BUILD_DIR = None →
   ∀ x l, fs_lookup (w_fs w) (EXE_BUILD_DIR ++ x :: l) = None) →
  (∀ y, y ∈ fs_children (w_fs w) EXE_CACHE_DIR → fnmatch y g = true →
        path_parts y = [y]) →
  build true g w = (Ok tt, w') →
  if decide (EXE_CACHE_DIR ++ [x] ∈ glob_fs (w_fs w) EXE_CACHE_DIR g
             ∧ is_dir_node (fs_lookup (w_fs w) (EXE_CACHE_DIR ++ [x])) = true)
  then tag_staged (w_fs w) (w_fs w') x else tag_absent (w_fs w') x.
Proof.
  intros Hbelow Hplain E. unfold build in E. rewrite bind_eq in E.
  destruct (maybe_clean true EXE_BUILD_DIR w) as [[[]|e] w1] eqn:Ec; [ | done ].
  destruct (maybe_clean_true_empties_if _ _ _ Hbelow Ec) as [_ Hempty].
  pose proof (Confines_maybe_clean true EXE_BUILD_DIR w _ w1 Ec) as Hag.
  rewrite bind_eq, glob_run in E.
  rewrite <- (app_nil_r EXE_CACHE_DIR), (glob_cache_agrees (w_fs w)), app_nil_r in E
    by done.
  apply (build_tags_stage (w_fs w) (glob_fs (w_fs w) EXE_CACHE_DIR g))
    with (seen := []) (w := w1); [ | exact Hag | | exact E ].
  - intros src Hsrc. apply glob_fs_elem in Hsrc as (y & -> & Hy & Hm).
    exists y. split; [ done | ]. by apply Hplain.
  - intros y. rewrite decide_False by (intros [Hf _]; inversion Hf).
    intros l. apply Hempty.
Qed.



(** ** What [assemble] writes, tag by tag *)














(** ** From the release to the staging area *)

Lemma build_off_cache_branch (l : path) : ¬ on_branch EXE_CACHE_DIR (EXE_BUILD_DIR ++ l).
Proof.
  rewrite EXE_BUILD_DIR_eq, EXE_CACHE_DIR_eq, <- !app_assoc. by apply not_on_branch.
Qed.

Lemma download_clean_cache (tag : string) (w w' : World) :
  fs_wf (w_fs w) = true →
  download tag true w = (Ok tt, w') →
  is_dir_node (fs_lookup (w_fs w') EXE_CACHE_DIR) = true
  ∧ ∀ x l, fs_lookup (w_fs w') (EXE_CACHE_DIR ++ x :: l)
           = cache_content (exe_dir_of tag) (served_files tag) (EXE_CACHE_DIR ++ x :: l).
Proof.
  intros Hwf E. split.
  - unfold download in E. rewrite bind_eq in E.
    destruct (maybe_clean true EXE_CACHE_DIR w) as [[[]|e] w1] eqn:E1; [ | done ].
    destruct (maybe_clean_true_empties _ _ _ Hwf E1) as [Hd _].
    match type of E with
    | ?c w1 = _ => assert (Touches (on_branch EXE_CACHE_DIR) c) as Ht
    end.
    { repeat (touches_step ltac:(first [ apply Touches_mkdir
                                       | apply Touches_download_file ]));
        try (intros q; apply on_branch_prefix);
        unfold Path_div; rewrite <- app_assoc; apply on_branch_below. }
    destruct (Ht w1 _ w' E) as [Hk _]. by apply (keeps_is_dir _ _ _ Hk).
  - destruct (download_clean_prepares tag w w' Hwf E) as (w3 & H3 & E').
    rewrite bind_eq in E'.
    destruct (download_file _ _ w3) as [[[]|e] w4] eqn:E4; [ | done ].
    intros x l. unfold served_files.
    apply (download_assets_step (fun p => ∃ x l, p = EXE_CACHE_DIR ++ x :: l)
             (exe_dir_of tag) (rj_assets (release_of tag)) [_] w4 w');
      [ | exact E' | eauto ].
    apply (download_file_step _ _ [] _ _ w3 w4 H3 E4).
Qed.

Lemma exe_dir_of_latest :
  path_parts (rj_tag_name (release_of "latest")) = [rj_tag_name (release_of "latest")] →
  exe_dir_of "latest" = EXE_CACHE_DIR ++ [rj_tag_name (release_of "latest")].
Proof.
  intros HT. unfold exe_dir_of.
  change (cache_tag "latest") with (rj_tag_name (release_of "latest")).
  by apply Path_div_plain.
Qed.

Lemma download_latest_cached (w w' : World) :
  fs_wf (w_fs w) = true →
  path_parts (rj_tag_name (release_of "latest")) = [rj_tag_name (release_of "latest")] →
  download "latest" true w = (Ok tt, w') →
  latest_cached (rj_tag_name (release_of "latest")) (w_fs w').
Proof.
  intros Hwf HT E. destruct (download_clean_cache "latest" w w' Hwf E) as [Hd Hc].
  split; [ done | ]. intros x l. by rewrite Hc, exe_dir_of_latest.
Qed.

Lemma first_served_elem (l : list (path * string)) (p : path) (u : string) :
  first_served l p = Some u → (p, u) ∈ l.
Proof.
  induction l as [|[q v] l IH]; [ done | ]. simpl. case_decide as Hq.
  - intros [= ->]. subst q. by left.
  - intros H. right. by apply IH.
Qed.

Lemma first_served_some (l : list (path * string)) (p : path) (u : string) :
  (p, u) ∈ l → first_served l p ≠ None.
Proof.
  induction l as [|[q v] l IH]; intros Hin; [ by inversion Hin | ]. simpl.
  case_decide as Hq; [ done | ].
  apply elem_of_cons in Hin as [Hin|Hin]; [ congruence | by apply IH ].
Qed.

Lemma append_inj_l (a b c : string) : a +:+ b = a +:+ c → b = c.
Proof.
  induction a as [|x a IH]; [ done | ].
  change (String x a +:+ b) with (String x (a +:+ b)).
  change (String x a +:+ c) with (String x (a +:+ c)).
  intros [= H]. by apply IH.
Qed.

(** The names [build] stages executables under are plain names. *)
Lemma platform_name_plain (n plat : string) :
  map_platform n = Some plat →
  path_parts ("py2.py3-none-" +:+ plat) = ["py2.py3-none-" +:+ plat]
  ∧ "py2.py3-none-" +:+ plat ≠ "LICENSE"
  ∧ PyStr.contains "/"%char ("py2.py3-none-" +:+ plat) = false.
Proof.
  unfold map_platform. intros H. apply PLATFORMS_keys in H. unfold PLATFORM_ITEMS in H.
  repeat (apply elem_of_cons in H; destruct H as [H|H];
          [ injection H as _ ->; by split_and! | ]).
  by inversion H.
Qed.

Lemma fold_stage_hit (s : FS) (dst p : path) (n : node) (exes : list path) :
  (∀ e c plat', e ∈ exes → fs_lookup s e = Some (File c) →
                map_platform (name e) = Some plat' →
                Path_div dst ("py2.py3-none-" +:+ plat') = p → File c = n) →
  ∀ cur,
    (cur = Some n
     ∨ ∃ e c plat', e ∈ exes ∧ fs_lookup s e = Some (File c)
                    ∧ map_platform (name e) = Some plat'
                    ∧ Path_div dst ("py2.py3-none-" +:+ plat') = p) →
    fold_left (stage_one s dst p) exes cur = Some n.
Proof.
  induction exes as [|e exes IH]; intros Hall cur Hcur.
  - destruct Hcur as [->|(e & c & plat' & He & _)]; [ done | by inversion He ].
  - simpl. apply IH; [ intros e' c plat' He'; apply Hall; by right | ].
    assert (∀ c plat', fs_lookup s e = Some (File c) →
                       map_platform (name e) = Some plat' →
                       Path_div dst ("py2.py3-none-" +:+ plat') = p →
                       stage_one s dst p cur e = Some n) as Hhit.
    { intros c plat' Hc Hm Hp. unfold stage_one. rewrite Hc, Hm, decide_True by done.
      f_equal. apply (Hall e c plat'); try done. by left. }
    destruct Hcur as [->|(e0 & c & plat' & He0 & Hc & Hm & Hp)].
    + left. unfold stage_one.
      destruct (fs_lookup s e) as [[c|]|] eqn:Hc; try done.
      destruct (map_platform (name e)) as [plat'|] eqn:Hm; [ | done ].
      case_decide as Hp; [ | done ]. f_equal. apply (Hall e c plat'); try done. by left.
    + apply elem_of_cons in He0 as [->|He0]; [ left; by eapply Hhit | ].
      right. by exists e0, c, plat'.
Qed.

Lemma fold_stage_miss (s : FS) (dst p : path) (exes : list path) (cur : option node) :
  (∀ plat', Path_div dst ("py2.py3-none-" +:+ plat') = p →
            ∀ e, e ∈ exes → map_platform (name e) ≠ Some plat') →
  fold_left (stage_one s dst p) exes cur = cur.
Proof.
  revert cur. induction exes as [|e exes IH]; intros cur Hno; [ done | ]. simpl.
  rewrite IH by (intros plat' Hp e' He'; apply (Hno plat' Hp); by right).
  unfold stage_one. destruct (fs_lookup s e) as [[c|]|]; try done.
  destruct (map_platform (name e)) as [plat'|] eqn:Hm; [ | done ].
  case_decide as Hp; [ | done ]. exfalso. apply (Hno plat' Hp e); [ by left | done ].
Qed.



(** The files [download latest] asks for, by where they are stored. *)
Lemma served_latest (q : path) (u : string) :
  path_parts (rj_tag_name (release_of "latest")) = [rj_tag_name (release_of "latest")] →
  (∀ asset, asset ∈ rj_assets (release_of "latest") → asset_filter asset.1 = true →
            path_parts asset.1 = [asset.1]) →
  (q, u) ∈ served_files "latest" →
  (q = EXE_CACHE_DIR ++ [rj_tag_name (release_of "latest"); "LICENSE"]
   ∧ u = license_url (rj_tag_name (release_of "latest")))
  ∨ ∃ n, (n, u) ∈ rj_assets (release_of "latest") ∧ asset_filter n = true
         ∧ q = EXE_CACHE_DIR ++ [rj_tag_name (release_of "latest"); n].
Proof.
  intros HT Hplain. unfold served_files. intros Hq.
  apply elem_of_cons in Hq as [Hq|Hq].
  - left. injection Hq as -> ->.
    by rewrite (exe_dir_of_latest HT), Path_div_LICENSE, <- app_assoc.
  - right. apply list_elem_of_fmap in Hq as ([n u'] & Heq & Hn). simpl in Heq.
    injection Heq as -> ->. apply list_elem_of_In, filter_In in Hn as [Hn Hfn].
    simpl in Hfn. apply list_elem_of_In in Hn. exists n. split_and!; try done.
    rewrite (exe_dir_of_latest HT), (Path_div_plain _ n) by (by apply (Hplain (n, u'))).
    by rewrite <- app_assoc.
Qed.

Lemma latest_cached_file (tg : string) (s1 : FS) (y : string) (l : path) :
  latest_cached tg s1 →
  fs_lookup s1 (EXE_CACHE_DIR ++ tg :: y :: l)
  = match first_served (served_files "latest") (EXE_CACHE_DIR ++ tg :: y :: l) with
    | Some u => Some (File (content (http_get u)))
    | None => None
    end.
Proof.
  intros [_ Hc]. rewrite (Hc tg (y :: l)). unfold cache_content.
  rewrite decide_False; [ done | ]. intros Hp. apply prefix_length in Hp.
  rewrite !length_app in Hp. simpl in Hp. lia.
Qed.

Lemma latest_cached_dir (tg : string) (s1 : FS) :
  latest_cached tg s1 → fs_lookup s1 (EXE_CACHE_DIR ++ [tg]) = Some Dir.
Proof.
  intros [_ Hc]. rewrite (Hc tg []). unfold cache_content. by rewrite decide_True.
Qed.

(** The cache has no other tag. *)
Lemma latest_cached_only (s1 : FS) (y : string) :
  path_parts (rj_tag_name (release_of "latest")) = [rj_tag_name (release_of "latest")] →
  (∀ asset, asset ∈ rj_assets (release_of "latest") → asset_filter asset.1 = true →
            path_parts asset.1 = [asset.1]) →
  latest_cached (rj_tag_name (release_of "latest")) s1 →
  fs_lookup s1 (EXE_CACHE_DIR ++ [y]) ≠ None → y = rj_tag_name (release_of "latest").
Proof.
  intros HT Hplain [_ Hc]. rewrite (Hc y []). unfold cache_content.
  case_decide as Hp.
  - intros _. by apply prefix_app_inv, prefix_cons_inv_1 in Hp.
  - destruct (first_served _ _) as [u|] eqn:Hu; [ | done ]. intros _.
    apply first_served_elem, (served_latest _ _ HT Hplain) in Hu
      as [[Hq _]|(n & _ & _ & Hq)]; apply app_inv_head in Hq; done.
Qed.

Lemma latest_staged_license (s1 : FS) :
  path_parts (rj_tag_name (release_of "latest")) = [rj_tag_name (release_of "latest")] →
  latest_cached (rj_tag_name (release_of "latest")) s1 →
  staged s1 (EXE_CACHE_DIR ++ [rj_tag_name (release_of "latest")])
    (EXE_BUILD_DIR ++ [rj_tag_name (release_of "latest")])
    (EXE_BUILD_DIR ++ [rj_tag_name (release_of "latest"); "LICENSE"])
  = Some (File (content (http_get (license_url (rj_tag_name (release_of "latest")))))).
Proof.
  intros HT Hcached. unfold staged. rewrite fold_stage_miss.
  - rewrite decide_True by (by rewrite Path_div_LICENSE, <- app_assoc).
    rewrite Path_div_LICENSE, <- app_assoc. cbn [app].
    rewrite (latest_cached_file _ _ "LICENSE" [] Hcached).
    unfold served_files. cbn [first_served].
    rewrite decide_True
      by (by rewrite (exe_dir_of_latest HT), Path_div_LICENSE, <- app_assoc).
    done.
  - intros plat' Hp e He Hm. apply glob_fs_elem in He as (y & -> & _).
    rewrite name_snoc in Hm. destruct (platform_name_plain y plat' Hm) as (Hpp' & Hne & _).
    unfold Path_div in Hp. rewrite Hpp', <- app_assoc in Hp.
    apply app_inv_head in Hp. injection Hp as Hp. done.
Qed.

Lemma latest_staged_asset (s1 : FS) (a url plat : string) :
  path_parts (rj_tag_name (release_of "latest")) = [rj_tag_name (release_of "latest")] →
  (∀ asset, asset ∈ rj_assets (release_of "latest") → asset_filter asset.1 = true →
            path_parts asset.1 = [asset.1]) →
  latest_cached (rj_tag_name (release_of "latest")) s1 →
  (a, url) ∈ rj_assets (release_of "latest") →
  asset_filter a = true →
  fnmatch a (EXE_NAME +:+ "*") = true →
  map_platform a = Some plat →
  (∀ asset, asset ∈ rj_assets (release_of "latest") → asset_filter asset.1 = true →
            map_platform asset.1 = Some plat → asset = (a, url)) →
  staged s1 (EXE_CACHE_DIR ++ [rj_tag_name (release_of "latest")])
    (EXE_BUILD_DIR ++ [rj_tag_name (release_of "latest")])
    (EXE_BUILD_DIR ++ [rj_tag_name (release_of "latest"); "py2.py3-none-" +:+ plat])
  = Some (File (content (http_get url))).
Proof.
  intros HT Hplain Hcached Hin Hf Hma Hmp Huniq.
  set (T := rj_tag_name (release_of "latest")) in *.
  assert (∀ y c, fs_lookup s1 (EXE_CACHE_DIR ++ [T; y]) = Some (File c) →
                 map_platform y = Some plat → c = content (http_get url)) as Hasset.
  { intros y c Hc Hm. rewrite (latest_cached_file _ _ y [] Hcached) in Hc.
    destruct (first_served _ _) as [u|] eqn:Hu; [ | done ]. injection Hc as <-.
    apply first_served_elem, (served_latest _ _ HT Hplain) in Hu
      as [[Hq _]|(n & Hn & Hfn & Hq)]; apply app_inv_head in Hq; injection Hq as ->.
    - unfold map_platform in Hm. by rewrite PLATFORMS_lookup in Hm.
    - by injection (Huniq (n, u) Hn Hfn Hm) as _ ->. }
  assert (fs_lookup s1 (EXE_CACHE_DIR ++ [T; a]) ≠ None) as Ha.
  { rewrite (latest_cached_file _ _ a [] Hcached).
    assert (first_served (served_files "latest") (EXE_CACHE_DIR ++ [T; a]) ≠ None) as Hs.
    { apply (first_served_some _ _ url). unfold served_files. right.
      apply list_elem_of_fmap. exists (a, url). split.
      - simpl. rewrite (exe_dir_of_latest HT), (Path_div_plain _ a)
          by (by apply (Hplain (a, url))).
        by rewrite <- app_assoc.
      - apply list_elem_of_In, filter_In. split; [ by apply list_elem_of_In | done ]. }
    by destruct (first_served _ _). }
  destruct (platform_name_plain a plat Hmp) as (Hpp & _).
  unfold staged. apply fold_stage_hit.
  - intros e c plat' He Hc Hm Hp. apply glob_fs_elem in He as (y & -> & Hy & _).
    rewrite name_snoc in Hm. rewrite <- app_assoc in Hc.
    destruct (platform_name_plain y plat' Hm) as (Hpp' & _).
    unfold Path_div in Hp. rewrite Hpp', <- app_assoc in Hp.
    apply app_inv_head in Hp. injection Hp as Hp. apply append_inj_l in Hp.
    subst plat'. f_equal. by apply (Hasset y).
  - right. destruct (fs_lookup s1 (EXE_CACHE_DIR ++ [T; a])) as [[c|]|] eqn:Hc;
      [ | | done ].
    + exists ((EXE_CACHE_DIR ++ [T]) ++ [a]), c, plat. split_and!.
      * unfold glob_fs. rewrite (latest_cached_dir _ _ Hcached).
        apply list_elem_of_fmap. exists a.
        split; [ done | ]. apply list_elem_of_In, filter_In. split; [ | done ].
        apply list_elem_of_In, fs_lookup_children. rewrite <- app_assoc.
        cbn [app]. by rewrite Hc.
      * rewrite <- app_assoc. exact Hc.
      * by rewrite name_snoc.
      * unfold Path_div. by rewrite Hpp, <- app_assoc.
    + rewrite (latest_cached_file _ _ a [] Hcached) in Hc. by destruct (first_served _ _).
Qed.


(** What [build --clean] makes of the cache of the latest release. *)
Lemma latest_build_result (g : string) (w1 w2 : World) :
  path_parts (rj_tag_name (release_of "latest")) = [rj_tag_name (release_of "latest")] →
  (∀ asset, asset ∈ rj_assets (release_of "latest") → asset_filter asset.1 = true →
            path_parts asset.1 = [asset.1]) →
  latest_cached (rj_tag_name (release_of "latest")) (w_fs w1) →
  fnmatch (rj_tag_name (release_of "latest")) g = true →
  (fs_lookup (w_fs w1) EXE_BUILD_DIR = None →
   ∀ x l, fs_lookup (w_fs w1) (EXE_BUILD_DIR ++ x :: l) = None) →
  build true g w1 = (Ok tt, w2) →
  tag_staged (w_fs w1) (w_fs w2) (rj_tag_name (release_of "latest"))
  ∧ ∀ x, fs_lookup (w_fs w2) (EXE_BUILD_DIR ++ [x]) ≠ None →
         x = rj_tag_name (release_of "latest").
Proof.
  intros HT Hplain Hcached HmT Hbelow Eb.
  assert (∀ y, y ∈ fs_children (w_fs w1) EXE_CACHE_DIR → fnmatch y g = true →
               path_parts y = [y]) as HplainB.
  { intros y Hy _. apply fs_children_lookup in Hy.
    by rewrite (latest_cached_only _ y HT Hplain Hcached Hy). }
  split.
  - pose proof (build_clean_result g w1 w2 (rj_tag_name (release_of "latest"))
                  Hbelow HplainB Eb) as Hb.
    rewrite decide_True in Hb; [ done | ].
    pose proof (latest_cached_dir _ _ Hcached) as HdT.
    split; [ | by rewrite HdT ]. unfold glob_fs. rewrite (proj1 Hcached).
    apply list_elem_of_fmap. eexists. split; [ done | ].
    apply list_elem_of_In, filter_In. split; [ | done ].
    apply list_elem_of_In, fs_lookup_children. by rewrite HdT.
  - intros x Hx. pose proof (build_clean_result g w1 w2 x Hbelow HplainB Eb) as Hb.
    case_decide as Hc.
    + destruct Hc as [Hc _]. apply glob_fs_elem in Hc as (y & Heq & Hy & _).
      apply app_inv_head in Heq. injection Heq as <-.
      apply fs_children_lookup in Hy.
      by apply (latest_cached_only (w_fs w1)).
    + by rewrite (Hb []) in Hx.
Qed.

(** X29: what [build] stages is what upstream served.  [download latest
    --clean] followed by [build --clean], both successful, on a file system
    where every entry lies in a directory: when the tag of the latest
    release is a plain name that matches the glob of [build], the assets
    that pass the filter have plain names, and [a] is the one asset among
    them that [map_platform] maps to the platform [plat] (and the glob of
    [build] for executables matches it), then the staging directory of the
    tag holds, under the name of the platform, exactly the bytes the
    asset's URL was answered with, and as [LICENSE] the bytes served as the
    license of that tag. *)
Theorem staged_executable_is_release_asset (g a url plat : string) (w w1 w2 : World) :
  fs_wf (w_fs w) = true →
  download "latest" true w = (Ok tt, w1) →
  build true g w1 = (Ok tt, w2) →
  path_parts (rj_tag_name (release_of "latest")) = [rj_tag_name (release_of "latest")] →
  fnmatch (rj_tag_name (release_of "latest")) g = true →
  (∀ asset, asset ∈ rj_assets (release_of "latest") → asset_filter asset.1 = true →
            path_parts asset.1 = [asset.1]) →
  (a, url) ∈ rj_assets (release_of "latest") →
  asset_filter a = true →
  fnmatch a (EXE_NAME +:+ "*") = true →
  map_platform a = Some plat →
  (∀ asset, asset ∈ rj_assets (release_of "latest") → asset_filter asset.1 = true →
            map_platform asset.1 = Some plat → asset = (a, url)) →
  fs_lookup (w_fs w2)
    (EXE_BUILD_DIR ++ [rj_tag_name (release_of "latest"); "py2.py3-none-" +:+ plat])
  = Some (File (content (http_get url)))
  ∧ fs_lookup (w_fs w2) (EXE_BUILD_DIR ++ [rj_tag_name (release_of "latest"); "LICENSE"])
    = Some (File (content (http_get
                             ("https://raw.githubusercontent.com/" +:+ UPSTREAM +:+ "/"
                              +:+ rj_tag_name (release_of "latest") +:+ "/LICENSE")))).
Proof.
  intros Hwf Ed Eb HT HmT Hplain Hin Hf Hma Hmp Huniq.
  pose proof (download_latest_cached w w1 Hwf HT Ed) as Hcached.
  destruct (latest_build_result g w1 w2 HT Hplain Hcached HmT) as [[_ Hst] _];
    [ | exact Eb | ].
  { pose proof (Confines_download "latest" true w _ w1 Ed) as [HlD _].
    intros Hn x l. rewrite HlD by apply build_off_cache_branch.
    apply fs_wf_below; [ done | ].
    rewrite <- (app_nil_r EXE_BUILD_DIR), <- HlD by apply build_off_cache_branch.
    by rewrite app_nil_r. }
  split.
  - rewrite (Hst ("py2.py3-none-" +:+ plat) []).
    by apply (latest_staged_asset (w_fs w1) a url plat).
  - rewrite (Hst "LICENSE" []). by apply latest_staged_license.
Qed.


(** ** From the release to the wheel *)


















End Pipeline.

(** * Part III: the theorems at work on the concrete world *)

Lemma map_platform_strips_unconditionally_witness :
  PLATFORMS !! "Darwin-arm64" = Some "macosx_11_0_arm64"
  ∧ map_platform "buf-Darwin-arm64.exe" = Some "macosx_11_0_arm64".
Proof.
  split; [ vm_compute; reflexivity | ].
  apply (map_platform_strips_unconditionally "Darwin-arm64" "macosx_11_0_arm64").
  vm_compute; reflexivity.
Defined.

(** C1 as stated fails: two releases with the same identifier and
    different URLs hash equal but are not equal, and the sets [sync]
    builds keep both of them. *)
Lemma release_set_keeps_same_id_twice :
  release_id Sample.dup_a = release_id Sample.dup_b
  ∧ Release_hash Sample.dup_a = Release_hash Sample.dup_b
  ∧ Release_eq Sample.dup_a Sample.dup_b = false
  ∧ map release_id (frozenset [Sample.dup_a; Sample.dup_b]) = [9; 9]
  ∧ (sync Sample.http_get_dup 2 Sample.w0).1
    = Ok ([Sample.dup_a; Sample.dup_b], [Sample.dup_a; Sample.dup_b]).
Proof. vm_compute. repeat split. Qed.

Lemma release_set_one_entry_per_value_witness :
  Release_hash Sample.dup_a = Release_hash Sample.dup_b
  ∧ NoDup (frozenset [Sample.r1; Sample.r1; Sample.r4]).
Proof.
  destruct (release_set_one_entry_per_value Sample.http_get Sample.dup_a Sample.dup_b
              [Sample.r1; Sample.r1; Sample.r4]) as (Hh & _ & Hnd & _).
  split; [ apply Hh; reflexivity | exact Hnd ].
Defined.




Lemma Asset_download_noop_witness :
  Asset_download (mkAsset 7 "a7" "buf-Linux-x86_64" "application/octet-stream" 3)
    Sample.w0 = (Ok tt, Sample.w0)
  ∧ w_requests (download_file Sample.http_get ["srv"; "repo"; "LICENSE"]
                  "https://raw.githubusercontent.com/bufbuild/buf/v1.2.3/LICENSE"
                  Sample.w0).2
    = ["https://raw.githubusercontent.com/bufbuild/buf/v1.2.3/LICENSE"].
Proof.
  destruct (Asset_download_noop Sample.http_get
              (mkAsset 7 "a7" "buf-Linux-x86_64" "application/octet-stream" 3)
              Sample.w0) as [Hnoop Hreq].
  split; [ exact Hnoop | ]. apply (Hreq ["srv"; "repo"; "LICENSE"]). reflexivity.
Defined.

(** The three commands, run once on the example and then again. *)
Lemma commands_idempotent_witness :
  let dl := download Sample.ROOT_DIR (Some "token") None Sample.http_get "latest" false in
  let bld := build Sample.ROOT_DIR Sample.fnmatch false "*" in
  let asm :=
    assemble Sample.ROOT_DIR Sample.fnmatch (Some 1700000000)
      Sample.normalize_version Sample.decode_text Sample.as_bytes Sample.zip_bytes
      Sample.host_linux false true "*" in
  let w1 := (dl Sample.w0).2 in
  let w2 := (bld w1).2 in
  let w3 := (asm w2).2 in
  (dl Sample.w0).1 = Ok tt ∧ (bld w1).1 = Ok tt ∧ (asm w2).1 = Ok tt
  ∧ (∃ w', dl w1 = (Ok tt, w') ∧ w_fs w' = w_fs w1)
  ∧ (∃ w', bld w2 = (Ok tt, w') ∧ w_fs w' = w_fs w2)
  ∧ (∃ w', asm w3 = (Ok tt, w') ∧ w_fs w' = w_fs w3).
Proof.
  intros dl bld asm w1 w2 w3.
  split_and!; try (vm_compute; reflexivity).
  - apply (proj1 (commands_idempotent Sample.ROOT_DIR (Some "token") None
                    Sample.http_get Sample.fnmatch (Some 1700000000)
                    Sample.normalize_version Sample.decode_text Sample.as_bytes
                    Sample.zip_bytes Sample.host_linux "latest" "*" "*" true
                    Sample.w0 w1)).
    vm_compute; reflexivity.
  - apply (proj1 (proj2 (commands_idempotent Sample.ROOT_DIR (Some "token") None
                    Sample.http_get Sample.fnmatch (Some 1700000000)
                    Sample.normalize_version Sample.decode_text Sample.as_bytes
                    Sample.zip_bytes Sample.host_linux "latest" "*" "*" true
                    w1 w2))).
    vm_compute; reflexivity.
  - apply (proj2 (proj2 (commands_idempotent Sample.ROOT_DIR (Some "token") None
                    Sample.http_get Sample.fnmatch (Some 1700000000)
                    Sample.normalize_version Sample.decode_text Sample.as_bytes
                    Sample.zip_bytes Sample.host_linux "latest" "*" "*" true
                    w2 w3))).
    vm_compute; reflexivity.
Defined.

(** The verifier on a version directory with one good and one bad
    archive: both are checked, and the exit status is 1. *)
Example verify_one_bad_one_good :
  (verify Sample.ROOT_DIR Sample.fnmatch Sample.check_dist "*" Sample.w_dist).1
  = Raise (SystemExit 1)
  ∧ w_checked
      (verify Sample.ROOT_DIR Sample.fnmatch Sample.check_dist "*" Sample.w_dist).2
    = [ ["srv"; "repo"; "dist"; "1.2.3"; "buf_exe-1.2.3-bad.whl"];
        ["srv"; "repo"; "dist"; "1.2.3"; "buf_exe-1.2.3-good.whl"] ].
Proof. vm_compute. split; reflexivity. Qed.

(** Two hosts that differ in platform and clock write the same archive. *)
Example assemble_same_on_two_hosts :
  wheel_entries Sample.as_bytes Sample.host_linux "buf_exe-1.2.3" "py2.py3-none-win_amd64"
    (Sample.b "MZ") (Sample.b "Apache") PYPI_METADATA "# buf" WHL_METADATA
  = wheel_entries Sample.as_bytes Sample.host_windows "buf_exe-1.2.3"
      "py2.py3-none-win_amd64" (Sample.b "MZ") (Sample.b "Apache") PYPI_METADATA
      "# buf" WHL_METADATA
  ∧ map (fun e => zi_filename e.1)
      (wheel_entries Sample.as_bytes Sample.host_windows "buf_exe-1.2.3"
         "py2.py3-none-win_amd64" (Sample.b "MZ") (Sample.b "Apache") PYPI_METADATA
         "# buf" WHL_METADATA)
    = [ "buf_exe-1.2.3.data/scripts/buf.exe"; "buf_exe-1.2.3.dist-info/LICENSE";
        "buf_exe-1.2.3.dist-info/METADATA"; "buf_exe-1.2.3.dist-info/WHEEL" ].
Proof. vm_compute. split; reflexivity. Qed.

(** The mapper on names as the releases carry them. *)
Example map_platform_examples :
  map_platform "buf-Linux-x86_64" = Some "manylinux_2_5_x86_64.manylinux1_x86_64"
  ∧ map_platform "buf-Windows-arm64.exe" = Some "win_arm64"
  ∧ map_platform "buf-FreeBSD-x86_64" = None
  ∧ map_platform "" = None.
Proof. vm_compute. repeat split. Qed.


(** ** The further properties at work *)



Lemma sync_stops_at_origin_failure_witness :
  sync Sample.http_get 5 Sample.w0
  = (Raise (SystemExit 1), after_requests Sample.w0 [Sample.origin_listing_url]).
Proof.
  apply (sync_stops_at_origin_failure Sample.http_get [] 5 Sample.w0).
  - vm_compute. discriminate.
  - simpl. lia.
Defined.



Lemma download_again_asks_once_witness :
  let dl := download Sample.ROOT_DIR (Some "token") None Sample.http_get "latest" false in
  dl (dl Sample.w0).2
  = (Ok tt,
     after_requests (dl Sample.w0).2
       ["https://api.github.com/repos/bufbuild/buf/releases/latest"]).
Proof.
  intros dl.
  apply (download_again_asks_once Sample.ROOT_DIR (Some "token") None Sample.http_get
           "latest" Sample.w0 (dl Sample.w0).2 (dl Sample.w0).2).
  - vm_compute. reflexivity.
  - intros p n Hp. exists n. split; [ exact Hp | by destruct n ].
Defined.


Lemma download_never_overwrites_witness :
  fs_lookup
    (w_fs (download Sample.ROOT_DIR (Some "token") None Sample.http_get "latest" false
             Stale.w_stale).2)
    ["srv"; "repo"; ".cache"; "buf"; "v1.2.3"; "LICENSE"]
  = Some (File (Sample.b "MIT")).
Proof.
  apply (download_never_overwrites Sample.ROOT_DIR (Some "token") None Sample.http_get
           "latest" Stale.w_stale).
  reflexivity.
Defined.




Lemma staged_names_fit_witness :
  asset_filter "buf-Windows-arm64.exe" = true
  ∧ wheel_exe_name "py2.py3-none-win_arm64" = "buf.exe".
Proof.
  destruct (staged_names_fit "buf-Windows-arm64.exe" "win_arm64") as (_ & Hf & Hw);
    [ vm_compute; reflexivity | vm_compute; reflexivity | ].
  split; [ exact Hf | exact Hw ].
Defined.

Lemma dict_assignment_sets_one_header_witness :
  header_values "Version"
    (emsg_headers
       (dict_set (dict_set PYPI_METADATA "Version" (HStr "1.0.0")) "Version"
          (HStr "1.2.3")))
  = ["1.2.3"].
Proof.
  apply (dict_assignment_sets_one_header
           (dict_set PYPI_METADATA "Version" (HStr "1.0.0")) "Version" "1.2.3").
  apply (bool_decide_unpack _). vm_compute. reflexivity.
Defined.


Lemma build_stages_copies_witness :
  let w1 := (download Sample.ROOT_DIR (Some "token") None Sample.http_get "latest" false
               Sample.w0).2 in
  let w2 := (build_tag Sample.ROOT_DIR Sample.fnmatch
               ["srv"; "repo"; ".cache"; "buf"; "v1.2.3"] w1).2 in
  fs_lookup (w_fs w2)
    ["srv"; "repo"; "build"; "buf"; "v1.2.3";
     "py2.py3-none-manylinux_2_5_x86_64.manylinux1_x86_64"]
  = Some (File (Sample.b "ELF"))
  ∧ fs_lookup (w_fs w2) ["srv"; "repo"; "build"; "buf"; "v1.2.3"; "LICENSE"]
    = Some (File (Sample.b "Apache")).
Proof.
  intros w1 w2.
  split;
    [ apply (build_stages_copies Sample.ROOT_DIR Sample.fnmatch "v1.2.3" w1 w2
               "py2.py3-none-manylinux_2_5_x86_64.manylinux1_x86_64" [])
    | apply (build_stages_copies Sample.ROOT_DIR Sample.fnmatch "v1.2.3" w1 w2
               "LICENSE" []) ];
    vm_compute; reflexivity.
Defined.

Lemma build_failure_leaves_empty_stage_witness :
  build_tag Sample.ROOT_DIR Sample.fnmatch ["srv"; "repo"; ".cache"; "buf"; "v9"]
    Partial.w_partial
  = (Raise FileNotFoundError,
     with_dir Partial.w_partial ["srv"; "repo"; "build"; "buf"; "v9"])
  ∧ build_tag Sample.ROOT_DIR Sample.fnmatch ["srv"; "repo"; ".cache"; "buf"; "v9"]
      (with_dir Partial.w_partial ["srv"; "repo"; "build"; "buf"; "v9"])
    = (Ok tt, with_dir Partial.w_partial ["srv"; "repo"; "build"; "buf"; "v9"]).
Proof.
  apply (build_failure_leaves_empty_stage Sample.ROOT_DIR Sample.fnmatch "v9"
           Partial.w_partial); vm_compute; reflexivity.
Defined.


Lemma test_misses_assembled_wheels_witness :
  let w2 := (build Sample.ROOT_DIR Sample.fnmatch false "*"
               (download Sample.ROOT_DIR (Some "token") None Sample.http_get "latest"
                  false Sample.w0).2).2 in
  let asm :=
    assemble Sample.ROOT_DIR Sample.fnmatch (Some 1700000000) (fun _ => Some "1.2.3")
      Sample.decode_text Sample.as_bytes Sample.zip_bytes Sample.host_linux true false
      "*" in
  (asm w2).1 = Ok tt
  ∧ is_file_node
      (fs_lookup (w_fs (asm w2).2)
         ["srv"; "repo"; "dist"; "1.2.3";
          "buf_exe-1.2.3-py2.py3-none-manylinux_2_5_x86_64.manylinux1_x86_64.whl"])
    = true
  ∧ test_find Sample.ROOT_DIR Sample.fnmatch Linux "x86_64" "*" (asm w2).2
    = (Raise (SystemExit 1), (asm w2).2).
Proof.
  intros w2 asm. split_and!; [ vm_compute; reflexivity | vm_compute; reflexivity | ].
  apply (test_misses_assembled_wheels Sample.ROOT_DIR Sample.fnmatch (Some 1700000000)
           (fun _ => Some "1.2.3") Sample.decode_text Sample.as_bytes Sample.zip_bytes
           Sample.host_linux false "*" Linux "x86_64" "*" w2 (asm w2).2).
  - vm_compute. reflexivity.
  - vm_compute. reflexivity.
  - intros s v [= <-]. vm_compute. reflexivity.
  - intros s v [= <-]. vm_compute. reflexivity.
  - vm_compute. reflexivity.
Defined.

Lemma bin_test_glob_matches_own_wheel_witness :
  Sample.fnmatch "buf_exe-1.2.3-py2.py3-none-win_amd64.whl" "*win*amd64.whl" = true.
Proof.
  apply (bin_test_glob_matches_own_wheel Windows "AMD64" "Windows-x86_64" "win_amd64"
           "1.2.3").
  - unfold reported_hosts.
    repeat (apply elem_of_cons; first [ left; reflexivity | right ]).
  - vm_compute. reflexivity.
Defined.

Lemma test_glob_misses_linux_wheels_witness :
  Sample.fnmatch
    "buf_exe-1.2.3-py2.py3-none-manylinux_2_5_x86_64.manylinux1_x86_64.whl"
    "buf_exe-*-*-linux*x86_64.whl"
  = false.
Proof.
  apply (test_glob_misses_linux_wheels "x86_64" "Linux-x86_64"
           "manylinux_2_5_x86_64.manylinux1_x86_64" "1.2.3").
  - unfold reported_hosts.
    repeat (apply elem_of_cons; first [ left; reflexivity | right ]).
  - vm_compute. reflexivity.
  - vm_compute. reflexivity.
Defined.


Lemma download_clean_without_release_witness :
  let w1 := (maybe_clean true ["srv"; "repo"; ".cache"; "buf"] Stale.w_stale).2 in
  download Sample.ROOT_DIR (Some "token") None Sample.http_get "v0" true Stale.w_stale
  = (Raise (HTTPError 404),
     after_requests w1 ["https://api.github.com/repos/bufbuild/buf/releases/tags/v0"])
  ∧ fs_lookup (w_fs w1) ["srv"; "repo"; ".cache"; "buf"; "v1.2.3"; "LICENSE"] = None.
Proof.
  intros w1.
  destruct (download_clean_without_release Sample.ROOT_DIR (Some "token") None
              Sample.http_get "v0" Stale.w_stale w1) as (Hrun & _ & Hgone).
  - vm_compute. reflexivity.
  - by left.
  - change (400 ≤ 404 < 600). lia.
  - vm_compute. reflexivity.
  - split; [ exact Hrun | exact (Hgone "v1.2.3" ["LICENSE"]) ].
Defined.

Lemma maybe_clean_result_witness :
  fs_lookup
    (w_fs (maybe_clean true ["srv"; "repo"; ".cache"; "buf"] Stale.w_stale).2)
    ["srv"; "repo"; ".cache"; "buf"; "v1.2.3"; "notes.txt"]
  = None.
Proof.
  destruct (maybe_clean_result true ["srv"; "repo"; ".cache"; "buf"] Stale.w_stale)
    as [Hok _]; [ vm_compute; reflexivity | ].
  destruct (Hok (maybe_clean true ["srv"; "repo"; ".cache"; "buf"] Stale.w_stale).2)
    as [_ Hempty]; [ vm_compute; reflexivity | ].
  exact (Hempty "v1.2.3" ["notes.txt"]).
Defined.



Lemma assemble_forgets_earlier_wheels_witness :
  let w2 := (build Sample.ROOT_DIR Sample.fnmatch false "*"
               (download Sample.ROOT_DIR (Some "token") None Sample.http_get "latest"
                  false Sample.w0).2).2 in
  let turn :=
    assemble_tag Sample.ROOT_DIR Sample.fnmatch Sample.normalize_version
      Sample.as_bytes Sample.zip_bytes Sample.host_linux "" "# buf" in
  (turn (dict_set (dict_set PYPI_METADATA "Version" (HStr "0.9.0")) "Download-URL"
           (HStr "https://github.com/bufbuild/buf/releases/tag/v0.9.0"),
         dict_set WHL_METADATA "Tag" (HStr "py2.py3-none-win_amd64"))
     ["srv"; "repo"; "build"; "buf"; "v1.2.3"] w2).2
  = (turn (PYPI_METADATA, WHL_METADATA) ["srv"; "repo"; "build"; "buf"; "v1.2.3"] w2).2.
Proof.
  intros w2 turn.
  apply (assemble_forgets_earlier_wheels Sample.ROOT_DIR Sample.fnmatch
           Sample.normalize_version Sample.as_bytes Sample.zip_bytes Sample.host_linux
           "" "# buf").
  split; right; simpl; eauto.
Defined.








Lemma staged_executable_is_release_asset_witness :
  let w1 := (download Sample.ROOT_DIR (Some "token") None Sample.http_get "latest" true
               Sample.w0).2 in
  let w2 := (build Sample.ROOT_DIR Sample.fnmatch true "*" w1).2 in
  fs_lookup (w_fs w2)
    ["srv"; "repo"; "build"; "buf"; "v1.2.3";
     "py2.py3-none-manylinux_2_5_x86_64.manylinux1_x86_64"]
  = Some (File (Sample.b "ELF"))
  ∧ fs_lookup (w_fs w2) ["srv"; "repo"; "build"; "buf"; "v1.2.3"; "LICENSE"]
    = Some (File (Sample.b "Apache")).
Proof.
  intros w1 w2.
  assert (rj_assets (release_of Sample.http_get "latest")
          = [("buf-Linux-x86_64", "https://dl/buf-Linux-x86_64");
             ("sha256.txt", "https://dl/sha256.txt")]) as Hassets by reflexivity.
  apply (staged_executable_is_release_asset Sample.ROOT_DIR (Some "token") None
           Sample.http_get Sample.fnmatch "*" "buf-Linux-x86_64"
           "https://dl/buf-Linux-x86_64" "manylinux_2_5_x86_64.manylinux1_x86_64"
           Sample.w0 w1 w2).
  - vm_compute; reflexivity.
  - vm_compute; reflexivity.
  - vm_compute; reflexivity.
  - vm_compute; reflexivity.
  - vm_compute; reflexivity.
  - intros asset Hin Hf. rewrite Hassets in Hin.
    apply elem_of_cons in Hin as [->|Hin]; [ vm_compute; reflexivity | ].
    apply list_elem_of_singleton in Hin as ->. vm_compute in Hf. discriminate Hf.
  - rewrite Hassets. by left.
  - vm_compute; reflexivity.
  - vm_compute; reflexivity.
  - vm_compute; reflexivity.
  - intros asset Hin Hf _. rewrite Hassets in Hin.
    apply elem_of_cons in Hin as [->|Hin]; [ reflexivity | ].
    apply list_elem_of_singleton in Hin as ->. vm_compute in Hf. discriminate Hf.
Defined.


